(** * Egret PTDF sensitivity engine: a shallow embedding of
      [egret/data/ptdf_utils.py] (class [VirtualPTDFMatrix] and its FDF
      subclasses) and of the truncation loops of
      [egret/model_library/transmission/bus.py].

    Numbers: numpy's float64 entries are modelled by exact rationals [Q];
    IEEE infinities and NaN are outside the model.  Vectors are lists, a
    scipy sparse matrix is its list of rows together with its column count.
    Python exceptions are values of [exn]; a method of the engine is a
    function from the mutable part of the object to an outcome and the
    mutable part afterwards (mutations made before a raise persist). *)

From stdpp Require Import gmap strings list fin_maps.
From Stdlib Require Import QArith Qabs Qminmax Lqa Sorted.

Local Open Scope string_scope.
Local Open Scope list_scope.

(** ** Exceptions and outcomes *)

Inductive pykey : Type :=
| KStr (s : string)
| KTuple (a b : string).

Inductive exn : Type :=
| KeyError (k : pykey)
| IndexError
| ValueError.

Inductive result (A : Type) : Type :=
| Ok (a : A)
| Raise (e : exn).
Arguments Ok {A} a.
Arguments Raise {A} e.

Definition rbind {A B : Type} (r : result A) (k : A -> result B) : result B :=
  match r with
  | Ok a => k a
  | Raise e => Raise e
  end.

Notation "x <~ e ;; k" := (rbind e (fun x => k))
  (at level 100, e at next level, k at level 200, right associativity).

(** [d[k]] on a dict with string keys. *)
Definition dict_get {V : Type} (d : gmap string V) (k : string) : result V :=
  match d !! k with
  | Some v => Ok v
  | None => Raise (KeyError (KStr k))
  end.

(** [a[i]] on a sequence. *)
Definition seq_get {A : Type} (a : list A) (i : nat) : result A :=
  match a !! i with
  | Some x => Ok x
  | None => Raise IndexError
  end.

(** ** numpy vectors *)

Abbreviation vec := (list Q).

Definition vneg (v : vec) : vec := map Qopp v.
Definition vscale (c : Q) (v : vec) : vec := map (Qmult c) v.
Definition vabs (v : vec) : vec := map Qabs v.

(** [np.insert(arr, idx, val)] for an index [0 <= idx]. *)
Definition np_insert {A : Type} (arr : list A) (idx : nat) (val : A) : result (list A) :=
  if decide (idx <= length arr)%nat
  then Ok (take idx arr ++ val :: drop idx arr)
  else Raise IndexError.

(** [np.delete(arr, idx)] for an index [0 <= idx]. *)
Definition np_delete {A : Type} (arr : list A) (idx : nat) : result (list A) :=
  if decide (idx < length arr)%nat
  then Ok (take idx arr ++ drop (S idx) arr)
  else Raise IndexError.

(** ** Index maps: [{name : i for i, name in enumerate(keys)}] *)

Fixpoint index_map_from (i : nat) (keys : list string) (m : gmap string nat)
  : gmap string nat :=
  match keys with
  | [] => m
  | k :: ks => index_map_from (S i) ks (<[k := i]> m)
  end.

Definition index_map (keys : list string) : gmap string nat :=
  index_map_from 0 keys ∅.

(** [{name : i ...}.items()]: a dict keeps a key at the position of its
    first insertion and the value of its last one. *)
Fixpoint od_set {V : Type} (d : list (string * V)) (k : string) (v : V)
  : list (string * V) :=
  match d with
  | [] => [(k, v)]
  | (k', v') :: d' =>
      if decide (k = k') then (k, v) :: d' else (k', v') :: od_set d' k v
  end.

Fixpoint index_items_from (i : nat) (keys : list string) (d : list (string * nat))
  : list (string * nat) :=
  match keys with
  | [] => d
  | k :: ks => index_items_from (S i) ks (od_set d k i)
  end.

Definition index_items (keys : list string) : list (string * nat) :=
  index_items_from 0 keys [].

(** ** Dense and sparse linear algebra, as far as the engine uses it *)

Fixpoint mapR {A B : Type} (f : A -> result B) (l : list A) : result (list B) :=
  match l with
  | [] => Ok []
  | x :: xs => y <~ f x ;; ys <~ mapR f xs ;; Ok (y :: ys)
  end.

(** Fancy indexing [arr[idxs]] with a list of positions. *)
Definition take_idx {A : Type} (arr : list A) (idxs : list nat) : result (list A) :=
  mapR (seq_get arr) idxs.

(** Boolean-mask indexing [arr[mask]]. *)
Fixpoint mask_filter {A : Type} (mask : list bool) (arr : list A) : list A :=
  match mask, arr with
  | true :: m, x :: xs => x :: mask_filter m xs
  | false :: m, _ :: xs => mask_filter m xs
  | _, _ => []
  end.

Definition np_mask {A : Type} (arr : list A) (mask : list bool) : result (list A) :=
  if decide (length mask = length arr) then Ok (mask_filter mask arr)
  else Raise IndexError.

Definition zeros (n : nat) : vec := replicate n 0%Q.

Definition vdot (a b : vec) : Q :=
  foldl (fun acc xy => (acc + fst xy * snd xy)%Q) 0%Q (zip a b).

(** [a @ b] for two one-dimensional arrays. *)
Definition np_dot (a b : vec) : result Q :=
  if decide (length a = length b) then Ok (vdot a b) else Raise ValueError.

(** [a + b] on one-dimensional arrays, with numpy's broadcasting of a
    length-one operand. *)
Definition np_add (a b : vec) : result vec :=
  if decide (length a = length b) then Ok (zip_with Qplus a b)
  else match a, b with
       | [x], _ => Ok (map (fun y => (x + y)%Q) b)
       | _, [y] => Ok (map (fun x => (x + y)%Q) a)
       | _, _ => Raise ValueError
       end.

(** [a += b]: the result keeps the shape of [a]. *)
Definition np_iadd (a b : vec) : result vec :=
  if decide (length a = length b) then Ok (zip_with Qplus a b)
  else match b with
       | [y] => Ok (map (fun x => (x + y)%Q) a)
       | _ => Raise ValueError
       end.

(** [np.abs(row).max()]; numpy raises on an empty array. *)
Definition np_abs_max (row : vec) : result Q :=
  match vabs row with
  | [] => Raise ValueError
  | x :: xs => Ok (foldl Qmax x xs)
  end.

(** [arr[idx] = val]. *)
Definition set_item {A : Type} (arr : list A) (idx : nat) (val : A) : result (list A) :=
  if decide (idx < length arr)%nat then Ok (<[idx := val]> arr)
  else Raise IndexError.

Record spmatrix : Type := {
  ncols : nat;
  rows : list vec
}.

Definition spneg (B : spmatrix) : spmatrix :=
  {| ncols := ncols B; rows := map vneg (rows B) |}.

(** [B @ v] for a one-dimensional [v]. *)
Definition sp_matvec (B : spmatrix) (v : vec) : result vec :=
  if decide (ncols B = length v) then Ok (map (fun r => vdot r v) (rows B))
  else Raise ValueError.

(** [B.T @ v] for a one-dimensional [v]. *)
Definition sp_matTvec (B : spmatrix) (v : vec) : result vec :=
  if decide (length (rows B) = length v) then
    Ok (foldl (fun acc rx => zip_with Qplus acc (vscale (snd rx) (fst rx)))
              (zeros (ncols B)) (zip (rows B) v))
  else Raise ValueError.

(** [B[idxs]]: row selection. *)
Definition sp_take (B : spmatrix) (idxs : list nat) : result spmatrix :=
  rs <~ take_idx (rows B) idxs ;; Ok {| ncols := ncols B; rows := rs |}.

(** [B.toarray().sum(axis=0)]. *)
Definition sp_colsum (B : spmatrix) : vec :=
  foldl (fun acc r => zip_with Qplus acc r) (zeros (ncols B)) (rows B).

(** The sparse factorization object: [solve b trans] is
    [F.solve(b, trans='T')] when [trans] is set and [F.solve(b)] otherwise.
    The solver is a collaborator outside this repository. *)
Record factorization : Type := {
  solve : vec -> bool -> result vec
}.

(** A factorization given by explicit inverses, for examples. *)
Definition dense_lu (n : nat) (Ainv AinvT : list vec) : factorization :=
  {| solve := fun b trans =>
       if decide (length b = n)
       then Ok (map (fun r => vdot r b) (if trans then AinvT else Ainv))
       else Raise ValueError |}.

(** ** Network extract *)

Record bus : Type := {
  base_kv : option Q;
  v_min : Q;
  v_max : Q
}.

Record branch : Type := {
  from_bus : string;
  to_bus : string;
  rating_long_term : Q
}.

(** The per-contingency compensation factors come from [tx_calc], which is
    not part of the sources at hand: their matrix members ([M], [c], [U],
    [L], [Pc], [Pr], [W], [Wbar]) enter only through the products the engine
    forms with them, kept here as operators named after those products. *)
Record compensator : Type := {
  branch_out : string;
  VA_compensator : option vec;
  phi_compensator : vec;
  (** [VA0 |-> comp.M * ((-comp.c) * (comp.M.T @ VA0))] *)
  M_c_MT : vec -> result vec;
  (** [row |-> row @ cc.Pc] *)
  Pc_rmul : vec -> result vec;
  U : factorization;
  L : factorization;
  (** [hatF |-> cc.Wbar * ((-cc.c) * (cc.W.T @ hatF))] *)
  Wbar_c_WT : vec -> result vec;
  (** [x |-> cc.Pr.T @ x] *)
  PrT_mul : vec -> result vec
}.

(** ** The engine *)

(** The attributes of a [VirtualPTDFMatrix] (and of its FDF subclasses) that
    are fixed once [__init__] has run. *)
Record engine : Type := {
  _branches : gmap string branch;
  _buses : gmap string bus;
  _reference_bus : string;
  branches_keys : list string;
  buses_keys : list string;
  interface_keys : list string;
  contingencies : gmap string string;
  branch_limits_array : vec;
  MLU : factorization;
  B_dA : spmatrix;
  B_dA_I : spmatrix;
  (** from [tx_calc]; taken to be a boolean mask over [buses_keys] *)
  ref_bus_mask : list bool;
  contingency_compensators : gmap string compensator;
  phi_adjust_array : vec;
  phase_shift_flow_adjuster_array : vec;
  phase_shift_flow_adjuster_array_interface : vec;
  (** [VirtualFDFpMatrix] *)
  G_dA : spmatrix;
  M0 : vec;
  (** [branch |-> _get_tseries_loss_const(branch)], from [tx_calc] *)
  _get_tseries_loss_const : string -> Q;
  (** [VirtualFDFpqMatrix] *)
  QMLU : factorization;
  QM0 : vec
}.

Definition _branchname_to_index_map (E : engine) : gmap string nat :=
  index_map (branches_keys E).

Definition _busname_to_index_map (E : engine) : gmap string nat :=
  index_map (buses_keys E).

Definition interfacename_to_index_map (E : engine) : gmap string nat :=
  index_map (interface_keys E).

(** [tuple(bus for bus in self.buses_keys if bus != reference_bus)] *)
Definition buses_keys_no_ref (E : engine) : list string :=
  filter (fun b => b <> _reference_bus E) (buses_keys E).

Definition _insert_reference_bus {A : Type} (E : engine) (bus_array : list A) (val : A)
  : result (list A) :=
  idx <~ dict_get (_busname_to_index_map E) (_reference_bus E) ;;
  np_insert bus_array idx val.

Definition _remove_reference_bus {A : Type} (E : engine) (bus_array : list A)
  : result (list A) :=
  idx <~ dict_get (_busname_to_index_map E) (_reference_bus E) ;;
  np_delete bus_array idx.

(** ** Options ([ptdf_options]) *)

Record ptdf_options : Type := {
  lazy : bool;
  rel_flow_tol : Q;
  abs_flow_tol : Q;
  lazy_rel_flow_tol : Q;
  lazy_rel_vm_tol : Q;
  branch_kv_threshold : option Q;
  kv_threshold_type : string
}.

(** ** Branch filtering *)

(** The masked attributes set by [_get_filtered_lines]. *)
Record filtered : Type := {
  branch_mask : list nat;
  branches_keys_masked : list string;
  branchname_to_index_masked_map : gmap string nat;
  B_dA_masked : spmatrix;
  phase_shift_flow_adjuster_array_masked : vec;
  branch_limits_array_masked : vec
}.

Definition Qlt_bool (a b : Q) : bool := negb (Qle_bool b a).

(** The loop of [_get_filtered_lines] over [enumerate(self.branches_keys)],
    from position [i] on; [log] collects the buses warned about. *)
Fixpoint filter_loop (E : engine) (one : bool) (kv_limit : Q) (i : nat)
    (keys : list string) (mask : list nat) (log : list string)
  : result (list nat * list string) :=
  match keys with
  | [] => Ok (mask, log)
  | bn :: keys' =>
      br <~ dict_get (_branches E) bn ;;
      fb <~ dict_get (_buses E) (from_bus br) ;;
      let fbt :=
        match base_kv fb with
        | None => true
        | Some kv => if Qlt_bool kv kv_limit then false else true
        end in
      let log' :=
        match base_kv fb with
        | None => log ++ [from_bus br]
        | Some _ => log
        end in
      if fbt && one then filter_loop E one kv_limit (S i) keys' (mask ++ [i]) log'
      else
        tb <~ dict_get (_buses E) (to_bus br) ;;
        let tbt :=
          match base_kv tb with
          | None => true
          | Some kv => Qle_bool kv_limit kv
          end in
        if fbt && tbt then filter_loop E one kv_limit (S i) keys' (mask ++ [i]) log'
        else if one && tbt then filter_loop E one kv_limit (S i) keys' (mask ++ [i]) log'
        else filter_loop E one kv_limit (S i) keys' mask log'
  end.

Definition _get_filtered_lines (E : engine) (ptdf_opts : ptdf_options)
  : result (filtered * list string) :=
  match branch_kv_threshold ptdf_opts with
  | None =>
      Ok ({| branch_mask := seq 0 (length (branch_limits_array E));
             branches_keys_masked := branches_keys E;
             branchname_to_index_masked_map := _branchname_to_index_map E;
             B_dA_masked := B_dA E;
             phase_shift_flow_adjuster_array_masked :=
               phase_shift_flow_adjuster_array E;
             branch_limits_array_masked := branch_limits_array E |}, [])
  | Some kv_limit =>
      let one := bool_decide (kv_threshold_type ptdf_opts = "one") in
      ml <~ filter_loop E one kv_limit 0 (branches_keys E) [] [] ;;
      let mask := fst ml in
      keys_masked <~ take_idx (branches_keys E) mask ;;
      B_masked <~ sp_take (B_dA E) mask ;;
      ps_masked <~ take_idx (phase_shift_flow_adjuster_array E) mask ;;
      limits_masked <~ take_idx (branch_limits_array E) mask ;;
      Ok ({| branch_mask := mask;
             branches_keys_masked := keys_masked;
             branchname_to_index_masked_map := index_map keys_masked;
             B_dA_masked := B_masked;
             phase_shift_flow_adjuster_array_masked := ps_masked;
             branch_limits_array_masked := limits_masked |}, snd ml)
  end.

(** ** Limit policy *)

(** The branch arrays set by [VirtualPTDFMatrix._set_lazy_limits].  (The
    contingency and interface arrays of the same method may hold [np.inf]
    and are not part of the rational model.) *)
Record lazy_limits : Type := {
  enforced_branch_limits : vec;
  lazy_branch_limits : vec
}.

Definition _set_lazy_limits (E : engine) (ptdf_opts : ptdf_options)
  : result (filtered * option lazy_limits) :=
  fl <~ _get_filtered_lines E ptdf_opts ;;
  let F := fst fl in
  if lazy ptdf_opts then
    let branch_limits := branch_limits_array_masked F in
    let rel_tol := rel_flow_tol ptdf_opts in
    let abs_tol := abs_flow_tol ptdf_opts in
    let lazy_flow_tol := lazy_rel_flow_tol ptdf_opts in
    let enforced :=
      zip_with Qmax (map (fun x => x * (1 + rel_tol))%Q branch_limits)
                    (map (fun x => x + abs_tol)%Q branch_limits) in
    let lazy_l :=
      zip_with Qmin (map (fun x => x * (1 + lazy_flow_tol))%Q branch_limits)
                    enforced in
    Ok (F, Some {| enforced_branch_limits := enforced;
                   lazy_branch_limits := lazy_l |})
  else Ok (F, None).

(** The arrays set by [VirtualFDFpqMatrix._set_lazy_vm_limits]. *)
Record lazy_vm_limits : Type := {
  enforced_vm_limits_ub : vec;
  enforced_vm_limits_lb : vec;
  lazy_vm_limits_ub : vec;
  lazy_vm_limits_lb : vec
}.

Definition _set_lazy_vm_limits (ptdf_opts : ptdf_options) (vm_ub vm_lb : vec)
  : option lazy_vm_limits :=
  if lazy ptdf_opts then
    let rel_tol := rel_flow_tol ptdf_opts in
    let abs_tol := abs_flow_tol ptdf_opts in
    let lazy_flow_tol := lazy_rel_vm_tol ptdf_opts in
    let e_ub :=
      zip_with Qmax (map (fun u => u * (1 + rel_tol))%Q vm_ub)
                    (map (fun u => u + abs_tol)%Q vm_ub) in
    let e_lb :=
      zip_with Qmin (map (fun l => l * (1 - rel_tol))%Q vm_lb)
                    (map (fun l => l - abs_tol)%Q vm_lb) in
    let l_ub :=
      zip_with Qmin (map (fun u => u * (1 + lazy_flow_tol))%Q vm_ub) e_ub in
    let l_lb :=
      zip_with Qmax (map (fun l => l * (1 - lazy_flow_tol))%Q vm_lb) e_lb in
    Some {| enforced_vm_limits_ub := e_ub; enforced_vm_limits_lb := e_lb;
            lazy_vm_limits_ub := l_ub; lazy_vm_limits_lb := l_lb |}
  else None.

(** ** The row caches *)

(** The mutable attributes of the engine.  [solve_calls] is instrumentation
    that is not in the source: it counts the calls of a factorization's
    [solve] issued by the methods below. *)
Record caches : Type := {
  _ptdf_rows : gmap string vec;
  _interface_rows : gmap string vec;
  _contingency_rows : gmap (string * string) vec;
  _vdf_rows : gmap string vec;
  _vdf_const : gmap string Q;
  _bus_sensi_buffer : vec;
  solve_calls : nat
}.

(** Empty caches with a write buffer of [n] entries ([np.empty] leaves the
    entries unspecified; they are zero here). *)
Definition blank_caches (n : nat) : caches :=
  {| _ptdf_rows := ∅; _interface_rows := ∅; _contingency_rows := ∅;
     _vdf_rows := ∅; _vdf_const := ∅;
     _bus_sensi_buffer := replicate n 0%Q;
     solve_calls := 0 |}.

(** The caches as [__init__] leaves them. *)
Definition init_caches (E : engine) : caches :=
  blank_caches (length (buses_keys_no_ref E)).

Definition M (A : Type) : Type := caches -> result A * caches.

Definition ret {A : Type} (a : A) : M A := fun st => (Ok a, st).

Definition bind {A B : Type} (m : M A) (k : A -> M B) : M B :=
  fun st =>
    match m st with
    | (Ok a, st') => k a st'
    | (Raise e, st') => (Raise e, st')
    end.

Definition lift {A : Type} (r : result A) : M A := fun st => (r, st).

Definition gets {A : Type} (f : caches -> A) : M A := fun st => (Ok (f st), st).

Definition modify (f : caches -> caches) : M unit := fun st => (Ok tt, f st).

Notation "x <- e ;; k" := (bind e (fun x => k))
  (at level 100, e at next level, k at level 200, right associativity).

Definition store_ptdf_row (k : string) (r : vec) (st : caches) : caches :=
  {| _ptdf_rows := <[k := r]> (_ptdf_rows st);
     _interface_rows := _interface_rows st;
     _contingency_rows := _contingency_rows st;
     _vdf_rows := _vdf_rows st; _vdf_const := _vdf_const st;
     _bus_sensi_buffer := _bus_sensi_buffer st;
     solve_calls := solve_calls st |}.

Definition store_interface_row (k : string) (r : vec) (st : caches) : caches :=
  {| _ptdf_rows := _ptdf_rows st;
     _interface_rows := <[k := r]> (_interface_rows st);
     _contingency_rows := _contingency_rows st;
     _vdf_rows := _vdf_rows st; _vdf_const := _vdf_const st;
     _bus_sensi_buffer := _bus_sensi_buffer st;
     solve_calls := solve_calls st |}.

Definition store_contingency_row (k : string * string) (r : vec) (st : caches)
  : caches :=
  {| _ptdf_rows := _ptdf_rows st;
     _interface_rows := _interface_rows st;
     _contingency_rows := <[k := r]> (_contingency_rows st);
     _vdf_rows := _vdf_rows st; _vdf_const := _vdf_const st;
     _bus_sensi_buffer := _bus_sensi_buffer st;
     solve_calls := solve_calls st |}.

Definition store_vdf_row (k : string) (r : vec) (st : caches) : caches :=
  {| _ptdf_rows := _ptdf_rows st;
     _interface_rows := _interface_rows st;
     _contingency_rows := _contingency_rows st;
     _vdf_rows := <[k := r]> (_vdf_rows st); _vdf_const := _vdf_const st;
     _bus_sensi_buffer := _bus_sensi_buffer st;
     solve_calls := solve_calls st |}.

Definition store_vdf_const (k : string) (c : Q) (st : caches) : caches :=
  {| _ptdf_rows := _ptdf_rows st;
     _interface_rows := _interface_rows st;
     _contingency_rows := _contingency_rows st;
     _vdf_rows := _vdf_rows st; _vdf_const := <[k := c]> (_vdf_const st);
     _bus_sensi_buffer := _bus_sensi_buffer st;
     solve_calls := solve_calls st |}.

Definition write_buffer (r : vec) (st : caches) : caches :=
  {| _ptdf_rows := _ptdf_rows st;
     _interface_rows := _interface_rows st;
     _contingency_rows := _contingency_rows st;
     _vdf_rows := _vdf_rows st; _vdf_const := _vdf_const st;
     _bus_sensi_buffer := r;
     solve_calls := solve_calls st |}.

Definition count_solve (st : caches) : caches :=
  {| _ptdf_rows := _ptdf_rows st;
     _interface_rows := _interface_rows st;
     _contingency_rows := _contingency_rows st;
     _vdf_rows := _vdf_rows st; _vdf_const := _vdf_const st;
     _bus_sensi_buffer := _bus_sensi_buffer st;
     solve_calls := S (solve_calls st) |}.

(** [F.solve(b, trans)], counted. *)
Definition call_solve (F : factorization) (b : vec) (trans : bool) : M vec :=
  _ <- modify count_solve ;; lift (solve F b trans).

(** [row.toarray(out=self._bus_sensi_buffer)[0]]: the dense row is written
    into the shared buffer, whose shape it must have. *)
Definition toarray_out (r : vec) : M vec :=
  buf <- gets _bus_sensi_buffer ;;
  if decide (length r = length buf)
  then _ <- modify (write_buffer r) ;; ret r
  else lift (Raise ValueError).

Definition _get_ptdf_row (E : engine) (branch_name : string) : M vec :=
  cache <- gets _ptdf_rows ;;
  match cache !! branch_name with
  | Some PTDF_row => ret PTDF_row
  | None =>
      branch_idx <- lift (dict_get (_branchname_to_index_map E) branch_name) ;;
      r <- lift (seq_get (rows (B_dA E)) branch_idx) ;;
      b <- toarray_out r ;;
      x <- call_solve (MLU E) b true ;;
      let PTDF_row := vneg x in
      _ <- modify (store_ptdf_row branch_name PTDF_row) ;;
      ret PTDF_row
  end.

Definition _get_contingency_row (E : engine) (contingency_name branch_name : string)
  : M vec :=
  cache <- gets _contingency_rows ;;
  match cache !! (contingency_name, branch_name) with
  | Some cont_PTDF_row => ret cont_PTDF_row
  | None =>
      branch_idx <- lift (dict_get (_branchname_to_index_map E) branch_name) ;;
      cc <- lift (dict_get (contingency_compensators E) contingency_name) ;;
      r <- lift (seq_get (rows (B_dA E)) branch_idx) ;;
      rPc <- lift (Pc_rmul cc r) ;;
      b <- toarray_out rPc ;;
      hatF <- call_solve (U cc) b true ;;
      delF <- lift (Wbar_c_WT cc hatF) ;;
      s <- lift (np_add hatF delF) ;;
      y <- call_solve (L cc) s true ;;
      cont_PTDF_row <- lift (PrT_mul cc y) ;;
      _ <- modify (store_contingency_row (contingency_name, branch_name) cont_PTDF_row) ;;
      ret cont_PTDF_row
  end.

Definition _get_interface_row (E : engine) (interface_name : string) : M vec :=
  cache <- gets _interface_rows ;;
  match cache !! interface_name with
  | Some I_row => ret I_row
  | None =>
      interface_idx <- lift (dict_get (interfacename_to_index_map E) interface_name) ;;
      r <- lift (seq_get (rows (B_dA_I E)) interface_idx) ;;
      b <- toarray_out r ;;
      I_row <- call_solve (MLU E) b true ;;
      _ <- modify (store_interface_row interface_name I_row) ;;
      ret I_row
  end.

(** [zip(self.buses_keys_no_ref, self._get_ptdf_row(branch_name))] *)
Definition get_branch_ptdf_iterator (E : engine) (branch_name : string)
  : M (list (string * Q)) :=
  row <- _get_ptdf_row E branch_name ;;
  ret (zip (buses_keys_no_ref E) row).

Definition get_branch_ptdf_abs_max (E : engine) (branch_name : string) : M Q :=
  ptdf_row <- _get_ptdf_row E branch_name ;;
  lift (np_abs_max ptdf_row).

(** [VirtualPTDFMatrix.get_branch_ptdf_const] *)
Definition get_branch_ptdf_const (E : engine) (branch_name : string) : M Q :=
  ptdf_row <- _get_ptdf_row E branch_name ;;
  branch_idx <- lift (dict_get (_branchname_to_index_map E) branch_name) ;;
  phi_adj <- lift (np_dot ptdf_row (phi_adjust_array E)) ;;
  ps <- lift (seq_get (phase_shift_flow_adjuster_array E) branch_idx) ;;
  ret (phi_adj + ps)%Q.

(** ** Contingency flow deltas *)

Definition _calculate_PFV_delta (E : engine) (F : filtered) (cn : string)
    (PFV VA : vec) (masked : bool) : M vec :=
  comp <- lift (dict_get (contingency_compensators E) cn) ;;
  VA1 <- (if masked then ret VA
          else m <- lift (np_mask VA (ref_bus_mask E)) ;; ret (vneg m)) ;;
  VA0 <- match VA_compensator comp with
         | Some vc => lift (np_add VA1 vc)
         | None => ret VA1
         end ;;
  rhs <- lift (M_c_MT comp VA0) ;;
  VA_delta0 <- call_solve (MLU E) rhs false ;;
  VA_delta <- match VA_compensator comp with
              | Some vc => lift (np_iadd VA_delta0 vc)
              | None => ret VA_delta0
              end ;;
  PF_delta <- lift (sp_matvec (if masked then B_dA_masked F else B_dA E) VA_delta) ;;
  if masked then
    match branchname_to_index_masked_map F !! branch_out comp with
    | Some branch_out_idx =>
        f <- lift (seq_get PFV branch_out_idx) ;;
        lift (set_item PF_delta branch_out_idx (- f)%Q)
    | None => ret PF_delta
    end
  else
    branch_out_idx <- lift (dict_get (_branchname_to_index_map E) (branch_out comp)) ;;
    f <- lift (seq_get PFV branch_out_idx) ;;
    lift (set_item PF_delta branch_out_idx (- f)%Q).

Definition calculate_masked_PFV_delta (E : engine) (F : filtered) (cn : string)
    (PFV VA : vec) : M vec :=
  _calculate_PFV_delta E F cn PFV VA true.

Definition calculate_PFV_delta (E : engine) (F : filtered) (cn : string)
    (PFV VA : vec) : M vec :=
  _calculate_PFV_delta E F cn PFV VA false.

(** ** Locational marginal prices *)

(** What [calculate_LMP] reads from the model block and the dual mapping:
    the dual of each thermal-bound constraint that exists (by branch and by
    interface), the items of the contingency constraints with their duals,
    and the dual of the bus-balance constraint. *)
Record lmp_duals : Type := {
  branch_thermal_dual : gmap string Q;
  interface_dual : gmap string Q;
  contingency_dual_items : list ((string * string) * Q);
  LMPE : Q
}.

(** The loop of [calculate_LMP] accumulating [LMPCC]. *)
Fixpoint lmpcc_loop (items : list ((string * string) * Q)) (LMPCC : vec) : M vec :=
  match items with
  | [] => ret LMPCC
  | (key, dual_value) :: items' =>
      if Qeq_bool dual_value 0 then lmpcc_loop items' LMPCC
      else
        cache <- gets _contingency_rows ;;
        match cache !! key with
        | None => lift (Raise (KeyError (KTuple (fst key) (snd key))))
        | Some row =>
            acc <- lift (np_iadd LMPCC (vscale (- dual_value)%Q row)) ;;
            lmpcc_loop items' acc
        end
  end.

Definition calculate_LMP (E : engine) (F : filtered) (d : lmp_duals) : M vec :=
  let PFD := map (fun bn => default 0%Q (branch_thermal_dual d !! bn))
                 (branches_keys_masked F) in
  let PFID := map (fun i_n => default 0%Q (interface_dual d !! i_n))
                  (interface_keys E) in
  B_PFD <- lift (sp_matTvec (spneg (B_dA_masked F)) PFD) ;;
  I_PFD <- lift (sp_matTvec (spneg (B_dA_I E)) PFID) ;;
  LMPC <- call_solve (MLU E) B_PFD true ;;
  LMPI <- call_solve (MLU E) I_PFD true ;;
  let e := LMPE d in
  LMP <- (if bool_decide (contingencies E <> ∅) then
            LMPCC <- lmpcc_loop (contingency_dual_items d) (zeros (length LMPC)) ;;
            s1 <- lift (np_add (map (fun x => (e + x)%Q) LMPC) LMPI) ;;
            lift (np_add s1 LMPCC)
          else
            lift (np_add (map (fun x => (e + x)%Q) LMPC) LMPI)) ;;
  lift (_insert_reference_bus E LMP e).

(** ** Voltage sensitivities ([VirtualFDFpqMatrix]) *)

Definition _get_vdf_row (E : engine) (bus_name : string) : M vec :=
  cache <- gets _vdf_rows ;;
  match cache !! bus_name with
  | Some VDF_row => ret VDF_row
  | None =>
      bus_idx <- lift (dict_get (_busname_to_index_map E) bus_name) ;;
      rhs <- lift (set_item (zeros (length (buses_keys E))) bus_idx 1%Q) ;;
      x <- call_solve (QMLU E) rhs true ;;
      let VDF_row := vneg x in
      _ <- modify (store_vdf_row bus_name VDF_row) ;;
      ret VDF_row
  end.

Definition get_bus_vdf_iterator (E : engine) (bus_name : string)
  : M (list (string * Q)) :=
  row <- _get_vdf_row E bus_name ;;
  ret (zip (buses_keys E) row).

Definition get_bus_vdf_abs_max (E : engine) (bus_name : string) : M Q :=
  vdf_row <- _get_vdf_row E bus_name ;;
  lift (np_abs_max vdf_row).

(** The constant is kept as a number: the in-place [const += ...] of
    [get_vm_expr_ptdf_approx] is taken not to reach the cached value. *)
Definition get_bus_vdf_const (E : engine) (bus_name : string) : M Q :=
  cache <- gets _vdf_const ;;
  match cache !! bus_name with
  | Some const => ret const
  | None =>
      vdf_row <- _get_vdf_row E bus_name ;;
      bus_idx <- lift (dict_get (_busname_to_index_map E) bus_name) ;;
      const <- lift (np_dot vdf_row (QM0 E)) ;;
      _ <- modify (store_vdf_const bus_name const) ;;
      ret const
  end.

(** ** Loss factors ([VirtualFDFpMatrix]) *)

Record loss_factors : Type := {
  _lossfactor : list (string * Q);
  _lossoffset : Q;
  _lossfactor_resid : list (string * Q);
  _lossoffset_resid : Q
}.

(** [_calculate_lossfactors], run by [__init__] through
    [_calculate_factorization].  The only other writer of the residual
    attributes, [_update_lossfactor_residuals], subtracts an array from the
    dict [_lossfactor] and so cannot complete. *)
Definition _calculate_lossfactors (E : engine) : result loss_factors :=
  LF_mask0 <~ solve (MLU E) (sp_colsum (G_dA E)) true ;;
  let LF_mask := vneg LF_mask0 in
  ref_idx <~ dict_get (_busname_to_index_map E) (_reference_bus E) ;;
  LF <~ np_insert LF_mask ref_idx 0%Q ;;
  LF_dict <~ mapR (fun bi => x <~ seq_get LF (snd bi) ;; Ok (fst bi, x))
                  (index_items (buses_keys E)) ;;
  off0 <~ np_dot LF_mask (M0 E) ;;
  let offset :=
    (off0 + foldl Qplus 0
              (map (_get_tseries_loss_const E) (map fst (map_to_list (_branches E)))))%Q in
  Ok {| _lossfactor := LF_dict; _lossoffset := offset;
        _lossfactor_resid := LF_dict; _lossoffset_resid := offset |}.

Definition get_lossfactor_abs_max (LS : loss_factors) : result Q :=
  np_abs_max (map snd (_lossfactor LS)).

(** ** Expression builders of [model_library/transmission/bus.py] *)

Inductive pyvar : Type :=
| Var_p_nw (bus_name : string)
| Var_q_nw (bus_name : string)
| Var_pfl (branch_name : string).

(** A pyomo [LinearExpression] (or the [quicksum] of the same terms). *)
Record LinearExpression : Type := {
  linear_vars : list pyvar;
  linear_coefs : list Q;
  constant : Q
}.

(** What the builders read from the model block: the current values of
    [q_nw], [p_nw] and [pfl], and [_idx_monitored]. *)
Record model : Type := {
  q_nw : gmap string Q;
  p_nw : gmap string Q;
  pfl : gmap string Q;
  _idx_monitored : list nat
}.

(** Python's [max(a, b)]: the first argument unless the second is larger. *)
Definition py_max (a b : Q) : Q := if Qlt_bool a b then b else a.

(** The loop of [get_vm_expr_ptdf_approx] over the row iterator. *)
Fixpoint vm_loop (m_q_nw : gmap string Q) (ptdf_tol : Q) (it : list (string * Q))
    (coef_list : list Q) (var_list : list pyvar) (const : Q)
  : result (list Q * list pyvar * Q) :=
  match it with
  | [] => Ok (coef_list, var_list, const)
  | (bn, coef) :: it' =>
      if Qle_bool ptdf_tol (Qabs coef) then
        _ <~ dict_get m_q_nw bn ;;
        vm_loop m_q_nw ptdf_tol it' (coef_list ++ [coef]) (var_list ++ [Var_q_nw bn]) const
      else
        value <~ dict_get m_q_nw bn ;;
        vm_loop m_q_nw ptdf_tol it' coef_list var_list (const + coef * value)%Q
  end.

Definition get_vm_expr_ptdf_approx (m : model) (bus_name : string) (E : engine)
    (rel_ptdf_tol abs_ptdf_tol : option Q) : M LinearExpression :=
  let rel_tol := default 0%Q rel_ptdf_tol in
  let abs_tol := default 0%Q abs_ptdf_tol in
  const <- get_bus_vdf_const E bus_name ;;
  max_coef <- get_bus_vdf_abs_max E bus_name ;;
  let ptdf_tol := py_max abs_tol (rel_tol * max_coef)%Q in
  it <- get_bus_vdf_iterator E bus_name ;;
  cvc <- lift (vm_loop (q_nw m) ptdf_tol it [] [] const) ;;
  ret {| linear_vars := snd (fst cvc); linear_coefs := fst (fst cvc);
         constant := snd cvc |}.

(** The first loop of [get_ploss_expr_ptdf_approx]. *)
Fixpoint ploss_loop (m_p_nw : gmap string Q) (ptdf_tol : Q) (it : list (string * Q))
    (coef_list : list Q) (var_list : list pyvar)
  : result (list Q * list pyvar) :=
  match it with
  | [] => Ok (coef_list, var_list)
  | (bus_name, coef) :: it' =>
      if Qle_bool ptdf_tol (Qabs coef) then
        _ <~ dict_get m_p_nw bus_name ;;
        ploss_loop m_p_nw ptdf_tol it' (coef_list ++ [coef])
                   (var_list ++ [Var_p_nw bus_name])
      else ploss_loop m_p_nw ptdf_tol it' coef_list var_list
  end.

(** Its second loop, over [m._idx_monitored]. *)
Fixpoint resid_loop (m : model) (F : filtered) (idxs : list nat)
    (coef_list : list Q) (var_list : list pyvar)
  : result (list Q * list pyvar) :=
  match idxs with
  | [] => Ok (coef_list, var_list)
  | i :: idxs' =>
      bn <~ seq_get (branches_keys_masked F) i ;;
      _ <~ dict_get (pfl m) bn ;;
      resid_loop m F idxs' (coef_list ++ [1%Q]) (var_list ++ [Var_pfl bn])
  end.

Definition get_ploss_expr_ptdf_approx (m : model) (LS : loss_factors) (F : filtered)
    (abs_ptdf_tol rel_ptdf_tol : Q) (use_residuals : bool)
  : result LinearExpression :=
  let const := if use_residuals then _lossoffset_resid LS else _lossoffset LS in
  let iterator := if use_residuals then _lossfactor_resid LS else _lossfactor LS in
  max_coef <~ get_lossfactor_abs_max LS ;;
  let ptdf_tol := py_max abs_ptdf_tol (rel_ptdf_tol * max_coef)%Q in
  cv <~ ploss_loop (p_nw m) ptdf_tol iterator [] [] ;;
  cv' <~ (if use_residuals
          then resid_loop m F (_idx_monitored m) (fst cv) (snd cv)
          else Ok cv) ;;
  Ok {| linear_vars := snd cv'; linear_coefs := fst cv'; constant := const |}.

(** The bus terms of an expression: its [(bus, coefficient)] pairs. *)
Definition bus_terms (e : LinearExpression) : list (string * Q) :=
  omap (fun vc => match fst vc with
                  | Var_p_nw b | Var_q_nw b => Some (b, snd vc)
                  | Var_pfl _ => None
                  end)
       (zip (linear_vars e) (linear_coefs e)).

(** ** Sequences of row requests *)

Inductive request : Type :=
| ReqBranch (branch_name : string)
| ReqContingency (contingency_name branch_name : string)
| ReqInterface (interface_name : string).

Definition serve (E : engine) (r : request) : M vec :=
  match r with
  | ReqBranch b => _get_ptdf_row E b
  | ReqContingency cn b => _get_contingency_row E cn b
  | ReqInterface i => _get_interface_row E i
  end.

(** A caller issuing the requests one after the other, going on after a
    request that raised. *)
Fixpoint run_requests (E : engine) (reqs : list request) (st : caches)
  : list (result vec) * caches :=
  match reqs with
  | [] => ([], st)
  | r :: reqs' =>
      let o := serve E r st in
      let os := run_requests E reqs' (snd o) in
      (fst o :: fst os, snd os)
  end.

(** ** A three-bus radial network

    Bus A is the reference; branch1 joins A and B (reactance 1/10), branch2
    joins B and C (reactance 1/5).  The matrices are those of the DC model of
    this network over the buses (B, C). *)

Definition opts_example : ptdf_options :=
  {| lazy := true; rel_flow_tol := 1 # 10; abs_flow_tol := 0;
     lazy_rel_flow_tol := 1 # 20; lazy_rel_vm_tol := 1 # 20;
     branch_kv_threshold := None; kv_threshold_type := "both" |}.

Definition id_lu (n : nat) : factorization :=
  {| solve := fun b _ => if decide (length b = n) then Ok b else Raise ValueError |}.

Definition cc_example : compensator :=
  {| branch_out := "branch2";
     VA_compensator := None;
     phi_compensator := [0; 0]%Q;
     M_c_MT := fun v => Ok (vscale (1 # 2) v);
     Pc_rmul := fun r => Ok r;
     U := id_lu 2;
     L := id_lu 2;
     Wbar_c_WT := fun v => Ok (vscale (- (1 # 2)) v);
     PrT_mul := fun x => Ok x |}.

Definition E3 : engine :=
  {| _branches :=
       {[ "branch1" := {| from_bus := "A"; to_bus := "B"; rating_long_term := 100 |};
          "branch2" := {| from_bus := "B"; to_bus := "C"; rating_long_term := 80 |} ]};
     _buses :=
       {[ "A" := {| base_kv := Some 138%Q; v_min := 9 # 10; v_max := 11 # 10 |};
          "B" := {| base_kv := Some 69%Q; v_min := 9 # 10; v_max := 11 # 10 |};
          "C" := {| base_kv := None; v_min := 9 # 10; v_max := 11 # 10 |} ]};
     _reference_bus := "A";
     branches_keys := ["branch1"; "branch2"];
     buses_keys := ["A"; "B"; "C"];
     interface_keys := ["iface"];
     contingencies := {[ "c1" := "branch2" ]};
     branch_limits_array := [100; 80]%Q;
     MLU := dense_lu 2 [[1 # 10; 1 # 10]; [1 # 10; 3 # 10]]%Q
                       [[1 # 10; 1 # 10]; [1 # 10; 3 # 10]]%Q;
     B_dA := {| ncols := 2; rows := [[-10; 0]; [5; -5]]%Q |};
     B_dA_I := {| ncols := 2; rows := [[-10; 0]]%Q |};
     ref_bus_mask := [false; true; true];
     contingency_compensators := {[ "c1" := cc_example ]};
     phi_adjust_array := [0; 0]%Q;
     phase_shift_flow_adjuster_array := [0; 0]%Q;
     phase_shift_flow_adjuster_array_interface := [0]%Q;
     G_dA := {| ncols := 2; rows := [[1 # 100; 0]; [0; 1 # 100]]%Q |};
     M0 := [0; 0]%Q;
     _get_tseries_loss_const := fun _ => 0%Q;
     QMLU := id_lu 3;
     QM0 := [0; 0; 0]%Q |}.

Definition F3 : filtered :=
  {| branch_mask := [0; 1]%nat;
     branches_keys_masked := ["branch1"; "branch2"];
     branchname_to_index_masked_map := index_map ["branch1"; "branch2"];
     B_dA_masked := B_dA E3;
     phase_shift_flow_adjuster_array_masked := [0; 0]%Q;
     branch_limits_array_masked := [100; 80]%Q |}.

(** Two buses with base voltages 69 and 138 and one branch between them. *)
Definition E_kv : engine :=
  {| _branches :=
       {[ "line" := {| from_bus := "low"; to_bus := "high"; rating_long_term := 100 |} ]};
     _buses :=
       {[ "low" := {| base_kv := Some 69%Q; v_min := 9 # 10; v_max := 11 # 10 |};
          "high" := {| base_kv := Some 138%Q; v_min := 9 # 10; v_max := 11 # 10 |} ]};
     _reference_bus := "low";
     branches_keys := ["line"];
     buses_keys := ["low"; "high"];
     interface_keys := [];
     contingencies := ∅;
     branch_limits_array := [100]%Q;
     MLU := id_lu 1;
     B_dA := {| ncols := 1; rows := [[-10]]%Q |};
     B_dA_I := {| ncols := 1; rows := [] |};
     ref_bus_mask := [false; true];
     contingency_compensators := ∅;
     phi_adjust_array := [0]%Q;
     phase_shift_flow_adjuster_array := [0]%Q;
     phase_shift_flow_adjuster_array_interface := [];
     G_dA := {| ncols := 1; rows := [[1 # 100]]%Q |};
     M0 := [0]%Q;
     _get_tseries_loss_const := fun _ => 0%Q;
     QMLU := id_lu 2;
     QM0 := [0; 0]%Q |}.

Definition opts_kv (threshold : Q) (mode : string) : ptdf_options :=
  {| lazy := true; rel_flow_tol := 0; abs_flow_tol := 0;
     lazy_rel_flow_tol := 0; lazy_rel_vm_tol := 0;
     branch_kv_threshold := Some threshold; kv_threshold_type := mode |}.

#[global] Instance request_eq_dec : EqDecision request.
Proof. solve_decision. Defined.

(** ** The cache invariant *)

(** The answer to a request on empty caches with a buffer of [n] entries. *)
Definition fresh_answer (E : engine) (n : nat) (r : request) : result vec :=
  fst (serve E r (blank_caches n)).

(** The cache entry a request looks at. *)
Definition cached (st : caches) (r : request) : option vec :=
  match r with
  | ReqBranch b => _ptdf_rows st !! b
  | ReqContingency cn b => _contingency_rows st !! (cn, b)
  | ReqInterface i => _interface_rows st !! i
  end.

(** Every cached row is the row a miss computes. *)
Definition cache_inv (E : engine) (st : caches) : Prop :=
  forall r v, cached st r = Some v ->
    fresh_answer E (length (_bus_sensi_buffer st)) r = Ok v.

(** The factorization and the flow matrix have the dimensions of the
    reference-eliminated bus space, and the solver answers on it. *)
Definition rows_ok (E : engine) : Prop :=
  let n := length (buses_keys_no_ref E) in
  length (rows (B_dA E)) = length (branches_keys E)
  /\ Forall (fun r => length r = n) (rows (B_dA E))
  /\ forall b trans, length b = n ->
       exists x, solve (MLU E) b trans = Ok x /\ length x = n.

Definition result_to_option {A : Type} (r : result A) : option A :=
  match r with
  | Ok a => Some a
  | Raise _ => None
  end.

(** ** Conditions on the inputs, and the filtering rule in words *)

(** Every branch key is a branch whose terminal buses are buses. *)
Definition network_resolved (E : engine) : Prop :=
  forall bn, bn ∈ branches_keys E ->
    exists br fb tb,
      _branches E !! bn = Some br
      /\ _buses E !! from_bus br = Some fb
      /\ _buses E !! to_bus br = Some tb.

(** The per-branch arrays have one entry per branch key. *)
Definition branch_arrays_ok (E : engine) : Prop :=
  length (rows (B_dA E)) = length (branches_keys E)
  /\ length (phase_shift_flow_adjuster_array E) = length (branches_keys E)
  /\ length (branch_limits_array E) = length (branches_keys E).

(** A bus passes the threshold when it has no [base_kv] or its [base_kv] is
    at least the threshold. *)
Definition passes_kv (kv_limit : Q) (b : bus) : Prop :=
  match base_kv b with
  | None => True
  | Some kv => (kv_limit <= kv)%Q
  end.

(** The filtering rule: with mode "one" one passing terminal bus suffices,
    otherwise both must pass. *)
Definition retained (one : bool) (kv_limit : Q) (fb tb : bus) : Prop :=
  if one then passes_kv kv_limit fb \/ passes_kv kv_limit tb
  else passes_kv kv_limit fb /\ passes_kv kv_limit tb.

(** The shapes [calculate_LMP] relies on: distinct bus keys with the
    reference bus among them, masked and interface matrices over the
    reference-eliminated buses with one row per key, and a solver that
    answers on that space. *)
Definition lmp_ok (E : engine) (F : filtered) : Prop :=
  let n := length (buses_keys_no_ref E) in
  NoDup (buses_keys E)
  /\ _reference_bus E ∈ buses_keys E
  /\ ncols (B_dA_masked F) = n
  /\ length (rows (B_dA_masked F)) = length (branches_keys_masked F)
  /\ Forall (fun r => length r = n) (rows (B_dA_masked F))
  /\ ncols (B_dA_I E) = n
  /\ length (rows (B_dA_I E)) = length (interface_keys E)
  /\ Forall (fun r => length r = n) (rows (B_dA_I E))
  /\ forall b trans, length b = n ->
       exists x, solve (MLU E) b trans = Ok x /\ length x = n.

(** Every contingency constraint with a nonzero dual has its row in the
    cache (the constraint was built from that row). *)
Definition duals_cached (E : engine) (d : lmp_duals) (st : caches) : Prop :=
  forall key dual_value,
    (key, dual_value) ∈ contingency_dual_items d ->
    Qeq_bool dual_value 0 = false ->
    exists row, _contingency_rows st !! key = Some row
                /\ length row = length (buses_keys_no_ref E).

(** Duals for the three-bus network: branch1 binds, and so does the
    contingency constraint of branch1 under outage c1. *)
Definition duals_example : lmp_duals :=
  {| branch_thermal_dual := {[ "branch1" := 2%Q ]};
     interface_dual := ∅;
     contingency_dual_items := [(("c1", "branch1"), 3%Q); (("c1", "branch2"), 0%Q)];
     LMPE := 30 |}.

(** The caches of the three-bus engine once the row of branch1 under c1 has
    been requested. *)
Definition caches_example : caches :=
  snd (_get_contingency_row E3 "c1" "branch1" (init_caches E3)).

(** A model block over the three buses. *)
Definition model_example : model :=
  {| q_nw := {[ "A" := 1%Q; "B" := 2%Q; "C" := 3%Q ]};
     p_nw := {[ "A" := 1%Q; "B" := 2%Q; "C" := 3%Q ]};
     pfl := {[ "branch1" := 5%Q; "branch2" := 7%Q ]};
     _idx_monitored := [0%nat] |}.

(** ** Further conditions and rules used in statements *)

(** What the filter loop decides for one branch name: its branch and its
    from-bus are found, and either the from-bus passes under mode "one", or
    the to-bus is found and passes while the from-bus passes or the mode is
    "one". *)
Definition kept (E : engine) (one : bool) (kv_limit : Q) (bn : string) : Prop :=
  exists br fb,
    _branches E !! bn = Some br
    /\ _buses E !! from_bus br = Some fb
    /\ ((passes_kv kv_limit fb /\ one = true)
        \/ exists tb, _buses E !! to_bus br = Some tb
                      /\ passes_kv kv_limit tb
                      /\ (passes_kv kv_limit fb \/ one = true)).

(** The bus a branch name is warned about: its from-bus when that bus has no
    [base_kv]. *)
Definition warned_bus (E : engine) (bn : string) : option string :=
  match _branches E !! bn with
  | Some br =>
      match _buses E !! from_bus br with
      | Some fb => match base_kv fb with
                   | None => Some (from_bus br)
                   | Some _ => None
                   end
      | None => None
      end
  | None => None
  end.


(** A branch name whose branch and terminal buses are all found. *)
Definition resolved (E : engine) (bn : string) : Prop :=
  exists br fb tb,
    _branches E !! bn = Some br
    /\ _buses E !! from_bus br = Some fb
    /\ _buses E !! to_bus br = Some tb.

(** The three-bus network with bus C left out of the bus dictionary. *)
Definition E3_noC : engine :=
  {| _branches := _branches E3;
     _buses := delete "C" (_buses E3);
     _reference_bus := _reference_bus E3;
     branches_keys := branches_keys E3;
     buses_keys := buses_keys E3;
     interface_keys := interface_keys E3;
     contingencies := contingencies E3;
     branch_limits_array := branch_limits_array E3;
     MLU := MLU E3;
     B_dA := B_dA E3;
     B_dA_I := B_dA_I E3;
     ref_bus_mask := ref_bus_mask E3;
     contingency_compensators := contingency_compensators E3;
     phi_adjust_array := phi_adjust_array E3;
     phase_shift_flow_adjuster_array := phase_shift_flow_adjuster_array E3;
     phase_shift_flow_adjuster_array_interface :=
       phase_shift_flow_adjuster_array_interface E3;
     G_dA := G_dA E3;
     M0 := M0 E3;
     _get_tseries_loss_const := _get_tseries_loss_const E3;
     QMLU := QMLU E3;
     QM0 := QM0 E3 |}.


(** ** The flow evaluator *)

(** [dense += sparse], as in [NWV += self.phi_adjust_array.T]: the sum is
    formed by the sparse operand, which broadcasts the dense one to its own
    shape. *)
Definition sparse_radd (dense sparse : vec) : result vec :=
  if decide (length dense = length sparse) then Ok (zip_with Qplus dense sparse)
  else match dense with
       | [x] => Ok (map (fun y => (x + y)%Q) sparse)
       | _ => Raise ValueError
       end.

(** [VirtualPTDFMatrix._calculate_PFV] on an instance of that class (the
    FDF subclasses override the method). *)
Definition _calculate_PFV (E : engine) (F : filtered) (m : model) (masked : bool)
  : M (vec * vec * vec) :=
  NWV0 <- lift (mapR (dict_get (p_nw m)) (buses_keys_no_ref E)) ;;
  NWV <- lift (sparse_radd NWV0 (phi_adjust_array E)) ;;
  VA <- call_solve (MLU E) NWV false ;;
  PFV0 <- lift (sp_matvec (if masked then B_dA_masked F else B_dA E) VA) ;;
  PFV <- lift (np_iadd PFV0 (if masked
                              then phase_shift_flow_adjuster_array_masked F
                              else phase_shift_flow_adjuster_array E)) ;;
  PFV_I0 <- lift (sp_matvec (B_dA_I E) VA) ;;
  PFV_I <- lift (np_iadd PFV_I0 (phase_shift_flow_adjuster_array_interface E)) ;;
  VA_out <- (if masked then ret VA
             else r <- lift (_insert_reference_bus E VA 0%Q) ;; ret (vneg r)) ;;
  ret (PFV, PFV_I, VA_out).

Definition calculate_masked_PFV (E : engine) (F : filtered) (m : model)
  : M (vec * vec * vec) :=
  _calculate_PFV E F m true.

Definition calculate_PFV (E : engine) (F : filtered) (m : model)
  : M (vec * vec * vec) :=
  _calculate_PFV E F m false.

(** The shapes the evaluator relies on, and a net withdrawal for every bus
    but the reference bus. *)
Definition flow_ok (E : engine) (m : model) : Prop :=
  let n := length (buses_keys_no_ref E) in
  NoDup (buses_keys E)
  /\ _reference_bus E ∈ buses_keys E
  /\ ncols (B_dA E) = n
  /\ ncols (B_dA_I E) = n
  /\ length (phi_adjust_array E) = n
  /\ length (phase_shift_flow_adjuster_array E) = length (rows (B_dA E))
  /\ length (phase_shift_flow_adjuster_array_interface E) = length (rows (B_dA_I E))
  /\ (forall b, b ∈ buses_keys_no_ref E -> is_Some (p_nw m !! b))
  /\ forall b trans, length b = n ->
       exists x, solve (MLU E) b trans = Ok x /\ length x = n.

(** The reference-bus mask is false at the reference bus and true
    elsewhere. *)
Definition ref_mask_ok (E : engine) : Prop :=
  ref_bus_mask E = map (fun b => bool_decide (b <> _reference_bus E)) (buses_keys E).


(** ** The dense PTDF matrix ([class PTDFMatrix]) *)

Module PTDFMatrix.

(** The attributes of a [PTDFMatrix]; a dense matrix is kept as its rows and
    its column count, like a sparse one.  [branch_mask] and the masked
    attributes are those set by its [_get_filtered_lines]. *)
Record t : Type := {
  branches_keys : list string;
  buses_keys : list string;
  interface_keys : list string;
  PTDFM : spmatrix;
  phi_adjust_array : vec;
  phase_shift_array : vec;
  PTDFM_I : spmatrix;
  PTDFM_I_const : vec;
  branch_mask : list nat;
  branches_keys_masked : list string;
  PTDFM_masked : spmatrix;
  phase_shift_array_masked : vec
}.

Definition _branchname_to_index_map (D : t) : gmap string nat :=
  index_map (branches_keys D).

Definition interfacename_to_index_map (D : t) : gmap string nat :=
  index_map (interface_keys D).

Definition get_branch_ptdf_iterator (D : t) (branch_name : string)
  : result (list (string * Q)) :=
  row_idx <~ dict_get (_branchname_to_index_map D) branch_name ;;
  PTDF_row <~ seq_get (rows (PTDFM D)) row_idx ;;
  Ok (zip (buses_keys D) PTDF_row).

Definition get_branch_ptdf_abs_max (D : t) (branch_name : string) : result Q :=
  row_idx <~ dict_get (_branchname_to_index_map D) branch_name ;;
  PTDF_row <~ seq_get (rows (PTDFM D)) row_idx ;;
  np_abs_max PTDF_row.

Definition get_branch_phase_shift (D : t) (branch_name : string) : result Q :=
  row_idx <~ dict_get (_branchname_to_index_map D) branch_name ;;
  seq_get (phase_shift_array D) row_idx.

Definition get_branch_phi_adj (D : t) (branch_name : string) : result Q :=
  row_idx <~ dict_get (_branchname_to_index_map D) branch_name ;;
  PTDF_row <~ seq_get (rows (PTDFM D)) row_idx ;;
  np_dot PTDF_row (phi_adjust_array D).

Definition get_branch_ptdf_const (D : t) (branch_name : string) : result Q :=
  row_idx <~ dict_get (_branchname_to_index_map D) branch_name ;;
  PTDF_row <~ seq_get (rows (PTDFM D)) row_idx ;;
  phi_adj <~ np_dot PTDF_row (phi_adjust_array D) ;;
  ps <~ seq_get (phase_shift_array D) row_idx ;;
  Ok (phi_adj + ps)%Q.

Definition get_interface_const (D : t) (interface_name : string) : result Q :=
  idx <~ dict_get (interfacename_to_index_map D) interface_name ;;
  seq_get (PTDFM_I_const D) idx.

Definition calculate_PFV (D : t) (m : model) : result (vec * vec) :=
  NWV0 <~ mapR (dict_get (p_nw m)) (buses_keys D) ;;
  NWV <~ np_iadd NWV0 (phi_adjust_array D) ;;
  PFV0 <~ sp_matvec (PTDFM_masked D) NWV ;;
  PFV <~ np_iadd PFV0 (phase_shift_array_masked D) ;;
  PFV_I0 <~ sp_matvec (PTDFM_I D) NWV ;;
  PFV_I <~ np_iadd PFV_I0 (PTDFM_I_const D) ;;
  Ok (PFV, PFV_I).

End PTDFMatrix.

(** The value of a list of [(bus, coefficient)] terms at the withdrawals
    [vals]: the sum of coefficient times withdrawal. *)
Definition eval_terms (vals : gmap string Q) (it : list (string * Q)) : Q :=
  foldl (fun acc bc => (acc + snd bc * default 0 (vals !! fst bc))%Q) 0%Q it.

(** A dense PTDF matrix of the three-bus network over the buses (A, B, C),
    filtered down to its second branch. *)
Definition D3 : PTDFMatrix.t :=
  {| PTDFMatrix.branches_keys := ["branch1"; "branch2"];
     PTDFMatrix.buses_keys := ["A"; "B"; "C"];
     PTDFMatrix.interface_keys := [];
     PTDFMatrix.PTDFM := {| ncols := 3; rows := [[0; 1; 1]; [0; 0; 1]]%Q |};
     PTDFMatrix.phi_adjust_array := [0; 1 # 2; 0]%Q;
     PTDFMatrix.phase_shift_array := [3; 0]%Q;
     PTDFMatrix.PTDFM_I := {| ncols := 3; rows := [] |};
     PTDFMatrix.PTDFM_I_const := [];
     PTDFMatrix.branch_mask := [1%nat];
     PTDFMatrix.branches_keys_masked := ["branch2"];
     PTDFMatrix.PTDFM_masked := {| ncols := 3; rows := [[0; 0; 1]]%Q |};
     PTDFMatrix.phase_shift_array_masked := [0]%Q |}.

(** What [PTDFMatrix._get_filtered_lines] leaves behind on either of its
    paths: the masked keys, rows and phase shifts are the full ones taken at
    the positions of [branch_mask]. *)
Definition dense_masked_ok (D : PTDFMatrix.t) : Prop :=
  take_idx (PTDFMatrix.branches_keys D) (PTDFMatrix.branch_mask D)
  = Ok (PTDFMatrix.branches_keys_masked D)
  /\ take_idx (rows (PTDFMatrix.PTDFM D)) (PTDFMatrix.branch_mask D)
     = Ok (rows (PTDFMatrix.PTDFM_masked D))
  /\ take_idx (PTDFMatrix.phase_shift_array D) (PTDFMatrix.branch_mask D)
     = Ok (PTDFMatrix.phase_shift_array_masked D).

(** The shapes [PTDFMatrix._calculate] produces: one column of the matrix and
    one entry of [phi_adjust_array] per bus key. *)
Definition dense_shapes_ok (D : PTDFMatrix.t) : Prop :=
  Forall (fun r => length r = ncols (PTDFMatrix.PTDFM_masked D))
         (rows (PTDFMatrix.PTDFM D))
  /\ length (PTDFMatrix.phi_adjust_array D) = length (PTDFMatrix.buses_keys D).

(** ** Interface expressions ([VirtualPTDFMatrix]) *)

(** [zip(self.buses_keys_no_ref, self._get_interface_row(interface_name))] *)
Definition get_interface_ptdf_iterator (E : engine) (interface_name : string)
  : M (list (string * Q)) :=
  row <- _get_interface_row E interface_name ;;
  ret (zip (buses_keys_no_ref E) row).

Definition get_interface_ptdf_abs_max (E : engine) (interface_name : string) : M Q :=
  I_row <- _get_interface_row E interface_name ;;
  lift (np_abs_max I_row).

(** [VirtualPTDFMatrix.get_interface_const] *)
Definition get_interface_const (E : engine) (interface_name : string) : M Q :=
  I_row <- _get_interface_row E interface_name ;;
  i_idx <- lift (dict_get (interfacename_to_index_map E) interface_name) ;;
  phi_adj <- lift (np_dot I_row (phi_adjust_array E)) ;;
  ps <- lift (seq_get (phase_shift_flow_adjuster_array_interface E) i_idx) ;;
  ret (phi_adj + ps)%Q.

(** The transposed solve of a factorization is the adjoint of its plain
    solve: [(A^-T b) . x = b . (A^-1 x)]. *)
Definition adjoint_solver (F : factorization) : Prop :=
  forall b x y z : vec,
    solve F b true = Ok y -> solve F x false = Ok z -> (vdot y x == vdot b z)%Q.

(** ** Registered entity keys *)

(** The entity keys of an engine: a branch key, an interface key, or a
    contingency with a compensator paired with a branch key. *)
Definition registered (E : engine) (r : request) : Prop :=
  match r with
  | ReqBranch b => b ∈ branches_keys E
  | ReqContingency cn b =>
      b ∈ branches_keys E /\ is_Some (contingency_compensators E !! cn)
  | ReqInterface i => i ∈ interface_keys E
  end.

(** The products and solves of a compensator answer on vectors of [n]
    entries. *)
Definition compensator_ok (n : nat) (cc : compensator) : Prop :=
  (forall r, length r = n -> exists w, Pc_rmul cc r = Ok w /\ length w = n)
  /\ (forall b, length b = n -> exists x, solve (U cc) b true = Ok x /\ length x = n)
  /\ (forall h, length h = n -> exists d, Wbar_c_WT cc h = Ok d /\ length d = n)
  /\ (forall s, length s = n -> exists y, solve (L cc) s true = Ok y)
  /\ (forall y, exists row, PrT_mul cc y = Ok row).

(** [rows_ok], the same shapes for the interface matrix, and compensators
    that answer. *)
Definition entities_ok (E : engine) : Prop :=
  let n := length (buses_keys_no_ref E) in
  rows_ok E
  /\ length (rows (B_dA_I E)) = length (interface_keys E)
  /\ Forall (fun r => length r = n) (rows (B_dA_I E))
  /\ forall cn cc, contingency_compensators E !! cn = Some cc -> compensator_ok n cc.

(** What a miss computes for each kind of key, as the three getters have it:
    a branch row is the negated transposed solve of the branch's row of
    [B_dA]; an interface row is the transposed solve of the interface's row
    of [B_dA_I], not negated; a contingency row takes a transposed solve on
    each of the compensator's factors [U] and [L]. *)
Definition miss_row (E : engine) (r : request) (row : vec) : Prop :=
  match r with
  | ReqBranch b =>
      exists idx rb x,
        _branchname_to_index_map E !! b = Some idx
        /\ rows (B_dA E) !! idx = Some rb
        /\ solve (MLU E) rb true = Ok x
        /\ row = vneg x
  | ReqInterface i =>
      exists idx rb,
        interfacename_to_index_map E !! i = Some idx
        /\ rows (B_dA_I E) !! idx = Some rb
        /\ solve (MLU E) rb true = Ok row
  | ReqContingency cn b =>
      exists idx cc rb rPc hatF delF y,
        _branchname_to_index_map E !! b = Some idx
        /\ contingency_compensators E !! cn = Some cc
        /\ rows (B_dA E) !! idx = Some rb
        /\ Pc_rmul cc rb = Ok rPc
        /\ solve (U cc) rPc true = Ok hatF
        /\ Wbar_c_WT cc hatF = Ok delF
        /\ solve (L cc) (zip_with Qplus hatF delF) true = Ok y
        /\ PrT_mul cc y = Ok row
  end.

(** The solves a miss takes. *)
Definition solves_on_miss (r : request) : nat :=
  match r with
  | ReqBranch _ | ReqInterface _ => 1
  | ReqContingency _ _ => 2
  end.

(** The contingency-congestion component at position [j]: the sum, over the
    contingency constraints with a nonzero dual, of minus the dual times
    entry [j] of the constraint's row. *)
Definition contingency_component (crows : gmap (string * string) vec)
    (items : list ((string * string) * Q)) (j : nat) : Q :=
  foldr (fun kd s =>
           ((if Qeq_bool (snd kd) 0 then 0
             else (- snd kd) * default 0 (match crows !! fst kd with
                                          | Some row => row !! j
                                          | None => None
                                          end)) + s)%Q)
        0%Q items.

(** * Proofs *)

(** Closes a decidable closed goal by evaluation. *)
Ltac by_compute := apply (bool_decide_unpack _); vm_compute; exact I.

(** Unfolds the monad of engine methods down to matches on outcomes. *)
Ltac munfold :=
  cbv [bind ret lift gets modify call_solve toarray_out dict_get seq_get rbind];
  simpl.

(** ** Index maps *)

Section IndexMaps.

Lemma index_map_from_notin (keys : list string) :
  forall (i : nat) (m : gmap string nat) (k : string),
    k ∉ keys -> index_map_from i keys m !! k = m !! k.
Proof.
  induction keys as [|k0 ks IH]; intros i m k Hk; simpl; [done|].
  apply not_elem_of_cons in Hk as [Hne Hk].
  rewrite IH by done. by rewrite lookup_insert_ne.
Qed.

Lemma index_map_from_nodup (keys : list string) :
  forall (i : nat) (m : gmap string nat) (j : nat) (k : string),
    NoDup keys -> keys !! j = Some k ->
    index_map_from i keys m !! k = Some (i + j)%nat.
Proof.
  induction keys as [|k0 ks IH]; intros i m j k Hnd Hj; [done|].
  apply NoDup_cons in Hnd as [Hk0 Hnd].
  destruct j as [|j]; simpl in *.
  - injection Hj as ->. rewrite index_map_from_notin by done.
    rewrite lookup_insert_eq. f_equal. lia.
  - rewrite (IH (S i) _ j k Hnd Hj). f_equal. lia.
Qed.

Lemma index_map_from_sound (keys : list string) :
  forall (i : nat) (m : gmap string nat) (k : string) (n : nat),
    index_map_from i keys m !! k = Some n ->
    m !! k = Some n \/ exists j, n = (i + j)%nat /\ keys !! j = Some k.
Proof.
  induction keys as [|k0 ks IH]; intros i m k n Hn; simpl in *; [by left|].
  apply IH in Hn as [Hn | (j & -> & Hj)].
  - destruct (decide (k0 = k)) as [->|Hne].
    + rewrite lookup_insert_eq in Hn. injection Hn as <-.
      right. exists 0%nat. split; [lia | done].
    + rewrite lookup_insert_ne in Hn by done. by left.
  - right. exists (S j). split; [lia | done].
Qed.

Lemma index_map_from_is_Some (keys : list string) :
  forall (i : nat) (m : gmap string nat) (k : string),
    k ∈ keys -> is_Some (index_map_from i keys m !! k).
Proof.
  induction keys as [|k0 ks IH]; intros i m k Hk; [by apply elem_of_nil in Hk|].
  simpl. destruct (decide (k ∈ ks)) as [Hin | Hnin].
  - by apply IH.
  - apply elem_of_cons in Hk as [-> | Hk]; [|done].
    rewrite index_map_from_notin by done. rewrite lookup_insert_eq. by eexists.
Qed.

Lemma index_map_None (keys : list string) (k : string) :
  k ∉ keys -> index_map keys !! k = None.
Proof. intros Hk. unfold index_map. by rewrite index_map_from_notin. Qed.

Lemma index_map_sound (keys : list string) (k : string) (n : nat) :
  index_map keys !! k = Some n -> keys !! n = Some k.
Proof.
  intros Hn. apply index_map_from_sound in Hn as [Hn | (j & -> & Hj)]; [done|].
  done.
Qed.

Lemma index_map_elem (keys : list string) (k : string) :
  k ∈ keys -> exists n, index_map keys !! k = Some n /\ keys !! n = Some k.
Proof.
  intros Hk. destruct (index_map_from_is_Some keys 0 ∅ k Hk) as [n Hn].
  exists n. split; [done | by apply index_map_sound].
Qed.

Lemma index_map_nodup (keys : list string) (j : nat) (k : string) :
  NoDup keys -> keys !! j = Some k -> index_map keys !! k = Some j.
Proof. intros Hnd Hj. unfold index_map. by rewrite (index_map_from_nodup keys 0 ∅ j k). Qed.

End IndexMaps.

(** ** Reference-bus insertion and removal *)

Section ReferenceBus.

Lemma np_delete_insert {A : Type} (x : list A) (idx : nat) (v : A) :
  (idx <= length x)%nat ->
  exists y, np_insert x idx v = Ok y /\ np_delete y idx = Ok x
            /\ y !! idx = Some v /\ length y = S (length x).
Proof.
  intros Hidx. unfold np_insert. rewrite decide_True by done.
  eexists. split; [reflexivity|].
  assert (Hlen : length (take idx x) = idx) by (rewrite length_take; lia).
  split; [|split].
  - unfold np_delete. rewrite decide_True.
    + f_equal. rewrite take_app_length' by done.
      rewrite cons_middle, app_assoc.
      rewrite drop_app_length' by (rewrite length_app; simpl; lia).
      apply take_drop.
    + rewrite length_app. simpl. rewrite length_drop. lia.
  - rewrite lookup_app_r by lia. rewrite Hlen, Nat.sub_diag. done.
  - rewrite length_app. simpl. rewrite length_drop. lia.
Qed.

Lemma filter_all {A : Type} (P : A -> Prop) `{forall x, Decision (P x)} (l : list A) :
  Forall P l -> filter P l = l.
Proof.
  induction 1 as [|x l Hx Hl IH]; [done|].
  rewrite filter_cons_True by done. by rewrite IH.
Qed.

Lemma filter_ne_middle (keys : list string) (idx : nat) (ref : string) :
  NoDup keys -> keys !! idx = Some ref ->
  filter (fun b => b <> ref) keys = take idx keys ++ drop (S idx) keys.
Proof.
  intros Hnd Hidx.
  rewrite <- (take_drop_middle keys idx ref Hidx) at 1.
  rewrite <- (take_drop_middle keys idx ref Hidx) in Hnd.
  apply NoDup_app in Hnd as (_ & Hl & Hr).
  apply NoDup_cons in Hr as [Hr _].
  rewrite filter_app, filter_cons_False by (intros Hc; by apply Hc).
  rewrite !filter_all; [done | |].
  - apply Forall_forall. intros x Hx ->. done.
  - apply Forall_forall. intros x Hx ->. apply (Hl ref Hx). by left.
Qed.

Lemma buses_keys_no_ref_length (E : engine) :
  NoDup (buses_keys E) -> _reference_bus E ∈ buses_keys E ->
  S (length (buses_keys_no_ref E)) = length (buses_keys E).
Proof.
  intros Hnd Href.
  destruct (index_map_elem _ _ Href) as (idx & _ & Hidx).
  unfold buses_keys_no_ref. rewrite (filter_ne_middle _ idx _ Hnd Hidx).
  pose proof (lookup_lt_Some _ _ _ Hidx) as Hlt.
  rewrite length_app, length_take, length_drop. lia.
Qed.

Lemma ref_index_le (E : engine) (idx : nat) :
  NoDup (buses_keys E) ->
  _busname_to_index_map E !! _reference_bus E = Some idx ->
  (idx <= length (buses_keys_no_ref E))%nat.
Proof.
  intros Hnd Hidx. apply index_map_sound in Hidx.
  pose proof (lookup_lt_Some _ _ _ Hidx) as Hlt.
  pose proof (buses_keys_no_ref_length E Hnd) as Hlen.
  rewrite <- Hlen in Hlt; [lia|].
  apply list_elem_of_lookup. eauto.
Qed.

(** C10: removing the reference entry after inserting it gives the vector
    back, and the reference-eliminated key tuple is the full tuple with the
    reference bus deleted at its index-map position. *)
Theorem reference_bus_insert_remove (E : engine) :
  NoDup (buses_keys E) ->
  _reference_bus E ∈ buses_keys E ->
  (forall (A : Type) (x : list A) (v : A),
      length x = length (buses_keys_no_ref E) ->
      exists y, _insert_reference_bus E x v = Ok y
                /\ _remove_reference_bus E y = Ok x)
  /\ _remove_reference_bus E (buses_keys E) = Ok (buses_keys_no_ref E)
  /\ _insert_reference_bus E (buses_keys_no_ref E) (_reference_bus E)
     = Ok (buses_keys E).
Proof.
  intros Hnd Href.
  destruct (index_map_elem _ _ Href) as (idx & Hmap & Hidx).
  pose proof (lookup_lt_Some _ _ _ Hidx) as Hlt.
  assert (Hle : (idx <= length (buses_keys_no_ref E))%nat)
    by (by apply ref_index_le).
  unfold _insert_reference_bus, _remove_reference_bus, _busname_to_index_map,
    dict_get.
  rewrite Hmap. simpl. split; [|split].
  - intros A x v Hx. rewrite <- Hx in Hle.
    destruct (np_delete_insert x idx v Hle) as (y & Hy & Hd & _). eauto.
  - unfold np_delete. rewrite decide_True by done.
    unfold buses_keys_no_ref. by rewrite (filter_ne_middle _ idx _ Hnd Hidx).
  - unfold np_insert. rewrite decide_True by done. f_equal.
    unfold buses_keys_no_ref. rewrite (filter_ne_middle _ idx _ Hnd Hidx).
    assert (Hlen : length (take idx (buses_keys E)) = idx)
      by (rewrite length_take; lia).
    rewrite take_app_length' by done.
    rewrite drop_app_length' by done.
    by apply take_drop_middle.
Qed.

Lemma reference_bus_insert_remove_witness :
  exists y, _insert_reference_bus E3 [7; 9]%Q 30%Q = Ok y
            /\ _remove_reference_bus E3 y = Ok [7; 9]%Q.
Proof.
  assert (Hnd : NoDup (buses_keys E3)) by by_compute.
  assert (Href : _reference_bus E3 ∈ buses_keys E3) by by_compute.
  destruct (reference_bus_insert_remove E3 Hnd Href) as (H & _ & _).
  apply (H Q [7; 9]%Q 30%Q). reflexivity.
Defined.

End ReferenceBus.

(** ** Limit policy *)

Section LimitPolicy.
Local Open Scope Q_scope.

Lemma scalar_limit_order (x r a z : Q) :
  0 <= r -> 0 <= a -> 0 <= z ->
  Qmin (x * (1 + z)) (Qmax (x * (1 + r)) (x + a)) <= Qmax (x * (1 + r)) (x + a)
  /\ (0 <= x ->
      x <= Qmin (x * (1 + z)) (Qmax (x * (1 + r)) (x + a))).
Proof.
  intros Hr Ha Hz. split.
  - apply Q.le_min_r.
  - intros Hx. apply Q.min_glb.
    + nra.
    + apply Qle_trans with (x + a); [lra | apply Q.le_max_r].
Qed.

Lemma scalar_limit_zero_tol (x r a z : Q) :
  r == 0 -> a == 0 -> z == 0 ->
  Qmax (x * (1 + r)) (x + a) == x
  /\ Qmin (x * (1 + z)) (Qmax (x * (1 + r)) (x + a)) == x.
Proof.
  intros Hr Ha Hz.
  assert (H1 : x * (1 + r) == x) by (rewrite Hr; ring).
  assert (H2 : x + a == x) by (rewrite Ha; ring).
  assert (H3 : x * (1 + z) == x) by (rewrite Hz; ring).
  assert (He : Qmax (x * (1 + r)) (x + a) == x).
  { rewrite H1, H2. apply Q.max_id. }
  split; [done|]. rewrite He, H3. apply Q.min_id.
Qed.

Lemma Qabs_nonneg_le (x y : Q) : 0 <= x -> x <= y -> Qabs x <= Qabs y.
Proof.
  intros Hx Hxy. rewrite !Qabs_pos; [done | lra | done].
Qed.

(** C1 (as the code has it): for a non-negative nominal limit and
    non-negative tolerances the enforced limit is
    [max(L*(1+rel_tol), L+abs_tol)], the lazy limit is
    [min(L*(1+lazy_tol), enforced)], and
    [|L| <= |lazy| <= |enforced|]; the lazy limit is never above the
    enforced one whatever the sign of [L]; with all tolerances zero both
    limits equal [L]. *)
Theorem limit_ordering (E : engine) (o : ptdf_options) (F : filtered)
    (lim : lazy_limits) (i : nat) (x : Q) :
  0 <= rel_flow_tol o -> 0 <= abs_flow_tol o -> 0 <= lazy_rel_flow_tol o ->
  _set_lazy_limits E o = Ok (F, Some lim) ->
  branch_limits_array_masked F !! i = Some x ->
  exists e z,
    enforced_branch_limits lim !! i = Some e
    /\ lazy_branch_limits lim !! i = Some z
    /\ e = Qmax (x * (1 + rel_flow_tol o)) (x + abs_flow_tol o)
    /\ z = Qmin (x * (1 + lazy_rel_flow_tol o)) e
    /\ z <= e
    /\ (0 <= x -> Qabs x <= Qabs z /\ Qabs z <= Qabs e)
    /\ (rel_flow_tol o == 0 -> abs_flow_tol o == 0 -> lazy_rel_flow_tol o == 0 ->
        e == x /\ z == x).
Proof.
  intros Hr Ha Hz Hset Hx. unfold _set_lazy_limits in Hset.
  destruct (_get_filtered_lines E o) as [[F' w]|err]; simpl in Hset; [|done].
  destruct (lazy o); [|done]. injection Hset as <- <-. simpl.
  exists (Qmax (x * (1 + rel_flow_tol o)) (x + abs_flow_tol o)),
    (Qmin (x * (1 + lazy_rel_flow_tol o))
          (Qmax (x * (1 + rel_flow_tol o)) (x + abs_flow_tol o))).
  assert (He : zip_with Qmax
                 (map (fun y => y * (1 + rel_flow_tol o)) (branch_limits_array_masked F'))
                 (map (fun y => y + abs_flow_tol o) (branch_limits_array_masked F')) !! i
               = Some (Qmax (x * (1 + rel_flow_tol o)) (x + abs_flow_tol o))).
  { rewrite lookup_zip_with, !list_lookup_fmap, Hx. done. }
  destruct (scalar_limit_order x _ _ _ Hr Ha Hz) as [Hze Hxz].
  split; [done|]. split.
  { rewrite lookup_zip_with, list_lookup_fmap, Hx, He. done. }
  split; [done|]. split; [done|]. split; [done|]. split.
  - intros H0. specialize (Hxz H0). split.
    + by apply Qabs_nonneg_le.
    + apply Qabs_nonneg_le; [lra | done].
  - apply scalar_limit_zero_tol.
Qed.

Lemma limit_ordering_witness :
  exists F lim e z,
    _set_lazy_limits E3 opts_example = Ok (F, Some lim)
    /\ enforced_branch_limits lim !! 0%nat = Some e
    /\ lazy_branch_limits lim !! 0%nat = Some z
    /\ z <= e /\ Qabs 100 <= Qabs z /\ Qabs z <= Qabs e.
Proof.
  destruct (_set_lazy_limits E3 opts_example) as [[F [lim|]]|err] eqn:Hset;
    [| vm_compute in Hset; discriminate | vm_compute in Hset; discriminate ].
  assert (Hx : branch_limits_array_masked F !! 0%nat = Some 100).
  { vm_compute in Hset. injection Hset as <- _. reflexivity. }
  destruct (limit_ordering E3 opts_example F lim 0 100) as
    (e & z & He & Hz & _ & _ & Hze & Habs & _);
    [ vm_compute; discriminate | vm_compute; discriminate
    | vm_compute; discriminate | exact Hset | exact Hx | ].
  exists F, lim, e, z. destruct Habs as [H1 H2]; [vm_compute; discriminate|].
  repeat split; assumption.
Defined.

(** C1 as stated fails: with rating 100, relative tolerance 1/10 and lazy
    tolerance 1/20 the enforced limit is 110 and the lazy limit 105. *)
Lemma limit_ordering_counterexample :
  exists F lim e z,
    0 <= rel_flow_tol opts_example /\ 0 <= abs_flow_tol opts_example
    /\ 0 <= lazy_rel_flow_tol opts_example
    /\ _set_lazy_limits E3 opts_example = Ok (F, Some lim)
    /\ branch_limits_array_masked F !! 0%nat = Some 100
    /\ enforced_branch_limits lim !! 0%nat = Some e
    /\ lazy_branch_limits lim !! 0%nat = Some z
    /\ ~ (Qabs e <= Qabs z).
Proof.
  eexists _, _, _, _.
  split; [vm_compute; discriminate|].
  split; [vm_compute; discriminate|].
  split; [vm_compute; discriminate|].
  split; [vm_compute; reflexivity|].
  split; [reflexivity|]. split; [reflexivity|]. split; [reflexivity|].
  vm_compute. intros H. apply H. reflexivity.
Qed.

(** X7: the voltage-magnitude limits of [_set_lazy_vm_limits] are ordered
    on both sides: for non-negative tolerances the lazy upper limit is never
    above the enforced one and the lazy lower limit never below the enforced
    one, and for non-negative nominal limits the lazy window contains the
    nominal one. *)
Lemma vm_limit_ordering (o : ptdf_options) (ub lb : vec) (lim : lazy_vm_limits)
    (i : nat) (u l : Q) :
  0 <= rel_flow_tol o -> 0 <= abs_flow_tol o -> 0 <= lazy_rel_vm_tol o ->
  _set_lazy_vm_limits o ub lb = Some lim ->
  ub !! i = Some u -> lb !! i = Some l ->
  exists eu zu el zl,
    enforced_vm_limits_ub lim !! i = Some eu
    /\ lazy_vm_limits_ub lim !! i = Some zu
    /\ enforced_vm_limits_lb lim !! i = Some el
    /\ lazy_vm_limits_lb lim !! i = Some zl
    /\ eu = Qmax (u * (1 + rel_flow_tol o)) (u + abs_flow_tol o)
    /\ zu = Qmin (u * (1 + lazy_rel_vm_tol o)) eu
    /\ zu <= eu /\ el <= zl
    /\ (0 <= u -> u <= zu) /\ (0 <= l -> zl <= l).
Proof.
  intros Hr Ha Hz Hset Hu Hl. unfold _set_lazy_vm_limits in Hset.
  destruct (lazy o); [|done]. injection Hset as <-. simpl.
  rewrite !lookup_zip_with, !list_lookup_fmap, Hu, Hl. simpl.
  eexists _, _, _, _. do 6 (split; [reflexivity|]).
  destruct (scalar_limit_order u _ _ _ Hr Ha Hz) as [Hze Hxz].
  split; [done|]. split; [apply Q.le_max_r|]. split; [done|].
  intros H0. apply Q.max_lub.
  - nra.
  - apply Qle_trans with (l - abs_flow_tol o); [apply Q.le_min_r | lra].
Qed.

End LimitPolicy.

(** ** Branch filtering *)

Section Filtering.

Lemma take_idx_ok {A : Type} (arr : list A) (idxs : list nat) :
  Forall (fun i => (i < length arr)%nat) idxs ->
  exists l, take_idx arr idxs = Ok l /\ length l = length idxs.
Proof.
  unfold take_idx. induction 1 as [|i idxs Hi _ IH]; simpl.
  - by exists [].
  - destruct IH as (l & -> & Hl).
    destruct (lookup_lt_is_Some_2 arr i Hi) as [x Hx].
    unfold seq_get. rewrite Hx. simpl. exists (x :: l). simpl. by rewrite Hl.
Qed.

Lemma passes_kv_from (kv_limit : Q) (b : bus) :
  match base_kv b with
  | None => true
  | Some kv => if Qlt_bool kv kv_limit then false else true
  end = true <-> passes_kv kv_limit b.
Proof.
  unfold passes_kv, Qlt_bool. destruct (base_kv b) as [kv|]; [|done].
  rewrite <- Qle_bool_iff. by destruct (Qle_bool kv_limit kv).
Qed.

Lemma passes_kv_to (kv_limit : Q) (b : bus) :
  match base_kv b with
  | None => true
  | Some kv => Qle_bool kv_limit kv
  end = true <-> passes_kv kv_limit b.
Proof.
  unfold passes_kv. destruct (base_kv b) as [kv|]; [|done].
  apply Qle_bool_iff.
Qed.

Lemma filter_loop_spec (E : engine) (one : bool) (kv_limit : Q) (keys : list string) :
  forall (i : nat) (mask : list nat) (log : list string),
    (forall bn, bn ∈ keys ->
       exists br fb tb, _branches E !! bn = Some br
                        /\ _buses E !! from_bus br = Some fb
                        /\ _buses E !! to_bus br = Some tb) ->
    exists mask' log',
      filter_loop E one kv_limit i keys mask log = Ok (mask ++ mask', log')
      /\ forall j, j ∈ mask' <->
           exists p bn br fb tb,
             j = (i + p)%nat /\ keys !! p = Some bn
             /\ _branches E !! bn = Some br
             /\ _buses E !! from_bus br = Some fb
             /\ _buses E !! to_bus br = Some tb
             /\ retained one kv_limit fb tb.
Proof.
  induction keys as [|bn keys IH]; intros i mask log Hres.
  - exists [], log. simpl. rewrite app_nil_r. split; [done|].
    intros j. split; [by intros ?%elem_of_nil|]. by intros (p & ? & ? & ? & ? & _ & ? & _).
  - destruct (Hres bn) as (br & fb & tb & Hbr & Hfb & Htb); [by left|].
    assert (Hres' : forall bn', bn' ∈ keys ->
              exists br fb tb, _branches E !! bn' = Some br
                               /\ _buses E !! from_bus br = Some fb
                               /\ _buses E !! to_bus br = Some tb)
      by (intros bn' Hin; apply Hres; by right).
    pose proof (passes_kv_from kv_limit fb) as Hf.
    pose proof (passes_kv_to kv_limit tb) as Ht.
    simpl. unfold dict_get. rewrite Hbr. simpl. rewrite Hfb. simpl.
    set (fbt := match base_kv fb with
                | None => true
                | Some kv => if Qlt_bool kv kv_limit then false else true
                end) in *.
    set (log1 := match base_kv fb with
                 | None => log ++ [from_bus br]
                 | Some _ => log
                 end).
    assert (Hstep : forall keep : bool,
               (keep = true <-> retained one kv_limit fb tb) ->
               exists mask' log',
                 filter_loop E one kv_limit (S i) keys
                   (if keep then mask ++ [i] else mask) log1
                 = Ok (mask ++ mask', log')
                 /\ forall j, j ∈ mask' <->
                      exists p bn0 br0 fb0 tb0,
                        j = (i + p)%nat /\ (bn :: keys) !! p = Some bn0
                        /\ _branches E !! bn0 = Some br0
                        /\ _buses E !! from_bus br0 = Some fb0
                        /\ _buses E !! to_bus br0 = Some tb0
                        /\ retained one kv_limit fb0 tb0).
    { intros keep Hkeep.
      destruct (IH (S i) (if keep then mask ++ [i] else mask) log1 Hres')
        as (mask' & log' & Hloop & Hmask).
      exists ((if keep then [i] else []) ++ mask'), log'. split.
      - rewrite Hloop. f_equal. f_equal. destruct keep; by rewrite <- ?app_assoc.
      - intros j. rewrite elem_of_app, Hmask. split.
        + intros [Hj | (p & bn0 & br0 & fb0 & tb0 & -> & Hp & H)].
          * destruct keep; [|by apply elem_of_nil in Hj].
            apply list_elem_of_singleton in Hj as ->.
            exists 0%nat, bn, br, fb, tb.
            split; [lia|]. repeat split; try done. by apply Hkeep.
          * exists (S p), bn0, br0, fb0, tb0. split; [lia|]. done.
        + intros (p & bn0 & br0 & fb0 & tb0 & -> & Hp & Hb0 & Hf0 & Ht0 & Hret).
          destruct p as [|p]; simpl in Hp.
          * injection Hp as <-. rewrite Hbr in Hb0. injection Hb0 as <-.
            rewrite Hfb in Hf0. injection Hf0 as <-.
            rewrite Htb in Ht0. injection Ht0 as <-.
            left. apply Hkeep in Hret as ->.
            apply list_elem_of_singleton. lia.
          * right. exists p, bn0, br0, fb0, tb0. split; [lia|]. done. }
    destruct fbt eqn:Hfbt, one eqn:Hone; simpl.
    + apply (Hstep true). unfold retained. split; [|done].
      intros _. left. by apply Hf.
    + rewrite Htb. simpl.
      destruct (match base_kv tb with
                | None => true
                | Some kv => Qle_bool kv_limit kv
                end) eqn:Htbt; simpl.
      * apply (Hstep true). unfold retained. split; [|done].
        intros _. split; [by apply Hf | by apply Ht].
      * apply (Hstep false). unfold retained. split; [done|].
        intros [_ H2]. apply Ht in H2. done.
    + rewrite Htb. simpl.
      destruct (match base_kv tb with
                | None => true
                | Some kv => Qle_bool kv_limit kv
                end) eqn:Htbt; simpl.
      * apply (Hstep true). unfold retained. split; [|done].
        intros _. right. by apply Ht.
      * apply (Hstep false). unfold retained. split; [done|].
        intros [H1 | H2]; [apply Hf in H1 | apply Ht in H2]; done.
    + rewrite Htb. simpl.
      destruct (match base_kv tb with
                | None => true
                | Some kv => Qle_bool kv_limit kv
                end) eqn:Htbt; simpl.
      * apply (Hstep false). unfold retained. split; [done|].
        intros [H1 _]. apply Hf in H1. done.
      * apply (Hstep false). unfold retained. split; [done|].
        intros [H1 _]. apply Hf in H1. done.
Qed.

(** C5: with a threshold set, a branch index is in the computed mask
    exactly when, under mode "one", at least one terminal bus passes the
    threshold (no [base_kv], or [base_kv >= threshold]) and, under any
    other mode ("both"), both terminal buses pass; for buses at 69 and 138
    under "both", threshold 100 drops the branch and threshold 50 keeps
    it. *)
Theorem branch_filtering (E : engine) (o : ptdf_options) (kv_limit : Q) :
  network_resolved E ->
  branch_arrays_ok E ->
  branch_kv_threshold o = Some kv_limit ->
  (exists F w,
      _get_filtered_lines E o = Ok (F, w)
      /\ take_idx (branches_keys E) (branch_mask F) = Ok (branches_keys_masked F)
      /\ forall i bn br fb tb,
           branches_keys E !! i = Some bn ->
           _branches E !! bn = Some br ->
           _buses E !! from_bus br = Some fb ->
           _buses E !! to_bus br = Some tb ->
           (kv_threshold_type o = "one" ->
            (i ∈ branch_mask F <->
             passes_kv kv_limit fb \/ passes_kv kv_limit tb))
           /\ (kv_threshold_type o <> "one" ->
               (i ∈ branch_mask F <->
                passes_kv kv_limit fb /\ passes_kv kv_limit tb)))
  /\ (exists F w, _get_filtered_lines E_kv (opts_kv 100 "both") = Ok (F, w)
                  /\ branch_mask F = [] /\ branches_keys_masked F = [])
  /\ (exists F w, _get_filtered_lines E_kv (opts_kv 50 "both") = Ok (F, w)
                  /\ branch_mask F = [0%nat] /\ branches_keys_masked F = ["line"]).
Proof.
  intros Hres (HB & Hps & Hlim) Hkv. split; [|split].
  - unfold _get_filtered_lines. rewrite Hkv.
    set (one := bool_decide (kv_threshold_type o = "one")).
    destruct (filter_loop_spec E one kv_limit (branches_keys E) 0 [] [] Hres)
      as (mask & log & Hloop & Hmask).
    rewrite Hloop. simpl.
    assert (Hbound : Forall (fun i => (i < length (branches_keys E))%nat) mask).
    { apply Forall_forall. intros j Hj. apply Hmask in Hj
        as (p & bn & _ & _ & _ & -> & Hp & _).
      apply lookup_lt_Some in Hp. lia. }
    destruct (take_idx_ok (branches_keys E) mask Hbound) as (km & Hkm & _).
    destruct (take_idx_ok (rows (B_dA E)) mask) as (rm & Hrm & _);
      [by rewrite HB|].
    destruct (take_idx_ok (phase_shift_flow_adjuster_array E) mask)
      as (pm & Hpm & _); [by rewrite Hps|].
    destruct (take_idx_ok (branch_limits_array E) mask) as (lm & Hlm & _);
      [by rewrite Hlim|].
    unfold sp_take. rewrite Hkm, Hrm, Hpm, Hlm. simpl.
    eexists _, _. split; [reflexivity|]. simpl. split; [done|].
    intros i bn br fb tb Hi Hbr Hfb Htb.
    assert (Hin : i ∈ mask <-> retained one kv_limit fb tb).
    { rewrite Hmask. split.
      - intros (p & bn0 & br0 & fb0 & tb0 & -> & Hp & Hb0 & Hf0 & Ht0 & Hret).
        simpl in Hi. rewrite Hi in Hp. injection Hp as <-.
        rewrite Hbr in Hb0. injection Hb0 as <-.
        rewrite Hfb in Hf0. injection Hf0 as <-.
        rewrite Htb in Ht0. by injection Ht0 as <-.
      - intros Hret. by exists i, bn, br, fb, tb. }
    split; intros Hmode; rewrite Hin; unfold retained, one.
    + by rewrite bool_decide_eq_true_2.
    + by rewrite bool_decide_eq_false_2.
  - eexists _, _. split; [vm_compute; reflexivity|]. split; reflexivity.
  - eexists _, _. split; [vm_compute; reflexivity|]. split; reflexivity.
Qed.

Lemma branch_filtering_witness :
  exists F w,
    _get_filtered_lines E_kv (opts_kv 100 "both") = Ok (F, w)
    /\ ~ 0%nat ∈ branch_mask F.
Proof.
  assert (Hres : network_resolved E_kv).
  { intros bn Hbn. apply list_elem_of_singleton in Hbn as ->.
    eexists _, _, _. split; [|split]; vm_compute; reflexivity. }
  assert (Harr : branch_arrays_ok E_kv) by (repeat split; reflexivity).
  destruct (branch_filtering E_kv (opts_kv 100 "both") 100 Hres Harr eq_refl)
    as ((F & w & HF & _ & Hspec) & _ & _).
  exists F, w. split; [exact HF|].
  destruct (Hspec 0%nat "line"
              {| from_bus := "low"; to_bus := "high"; rating_long_term := 100 |}
              {| base_kv := Some 69%Q; v_min := 9 # 10; v_max := 11 # 10 |}
              {| base_kv := Some 138%Q; v_min := 9 # 10; v_max := 11 # 10 |})
    as [_ Hboth]; [reflexivity | vm_compute; reflexivity | vm_compute; reflexivity
                   | vm_compute; reflexivity |].
  intros Hin. apply Hboth in Hin as [Hlow _]; [|discriminate].
  vm_compute in Hlow. apply Hlow. reflexivity.
Defined.

End Filtering.

(** ** The row caches *)

Section RowCache.

Lemma get_ptdf_row_hit (E : engine) (b : string) (st : caches) (r : vec) :
  _ptdf_rows st !! b = Some r -> _get_ptdf_row E b st = (Ok r, st).
Proof. intros H. unfold _get_ptdf_row. munfold. by rewrite H. Qed.

Lemma get_ptdf_row_miss (E : engine) (b : string) (st : caches) :
  _ptdf_rows st !! b = None ->
  exists st',
    _get_ptdf_row E b st
    = (fresh_answer E (length (_bus_sensi_buffer st)) (ReqBranch b), st')
    /\ length (_bus_sensi_buffer st') = length (_bus_sensi_buffer st)
    /\ _ptdf_rows st'
       = match fresh_answer E (length (_bus_sensi_buffer st)) (ReqBranch b) with
         | Ok v => <[b := v]> (_ptdf_rows st)
         | Raise _ => _ptdf_rows st
         end
    /\ _interface_rows st' = _interface_rows st
    /\ _contingency_rows st' = _contingency_rows st
    /\ _vdf_rows st' = _vdf_rows st /\ _vdf_const st' = _vdf_const st.
Proof.
  intros H. unfold fresh_answer, serve, _get_ptdf_row. munfold.
  rewrite H, lookup_empty.
  destruct (_branchname_to_index_map E !! b) as [idx|]; simpl; [|by eexists].
  destruct (rows (B_dA E) !! idx) as [rb|]; simpl; [|by eexists].
  rewrite length_replicate.
  destruct (decide (length rb = length (_bus_sensi_buffer st))); simpl; [|by eexists].
  destruct (solve (MLU E) rb true) as [x|err]; simpl; by eexists.
Qed.

Lemma get_interface_row_hit (E : engine) (i : string) (st : caches) (r : vec) :
  _interface_rows st !! i = Some r -> _get_interface_row E i st = (Ok r, st).
Proof. intros H. unfold _get_interface_row. munfold. by rewrite H. Qed.

Lemma get_interface_row_miss (E : engine) (i : string) (st : caches) :
  _interface_rows st !! i = None ->
  exists st',
    _get_interface_row E i st
    = (fresh_answer E (length (_bus_sensi_buffer st)) (ReqInterface i), st')
    /\ length (_bus_sensi_buffer st') = length (_bus_sensi_buffer st)
    /\ _interface_rows st'
       = match fresh_answer E (length (_bus_sensi_buffer st)) (ReqInterface i) with
         | Ok v => <[i := v]> (_interface_rows st)
         | Raise _ => _interface_rows st
         end
    /\ _ptdf_rows st' = _ptdf_rows st
    /\ _contingency_rows st' = _contingency_rows st
    /\ _vdf_rows st' = _vdf_rows st /\ _vdf_const st' = _vdf_const st.
Proof.
  intros H. unfold fresh_answer, serve, _get_interface_row. munfold.
  rewrite H, lookup_empty.
  destruct (interfacename_to_index_map E !! i) as [idx|]; simpl; [|by eexists].
  destruct (rows (B_dA_I E) !! idx) as [rb|]; simpl; [|by eexists].
  rewrite length_replicate.
  destruct (decide (length rb = length (_bus_sensi_buffer st))); simpl; [|by eexists].
  destruct (solve (MLU E) rb true) as [x|err]; simpl; by eexists.
Qed.

Lemma get_contingency_row_hit (E : engine) (cn b : string) (st : caches) (r : vec) :
  _contingency_rows st !! (cn, b) = Some r ->
  _get_contingency_row E cn b st = (Ok r, st).
Proof. intros H. unfold _get_contingency_row. munfold. by rewrite H. Qed.

Lemma get_contingency_row_miss (E : engine) (cn b : string) (st : caches) :
  _contingency_rows st !! (cn, b) = None ->
  exists st',
    _get_contingency_row E cn b st
    = (fresh_answer E (length (_bus_sensi_buffer st)) (ReqContingency cn b), st')
    /\ length (_bus_sensi_buffer st') = length (_bus_sensi_buffer st)
    /\ _contingency_rows st'
       = match fresh_answer E (length (_bus_sensi_buffer st)) (ReqContingency cn b) with
         | Ok v => <[(cn, b) := v]> (_contingency_rows st)
         | Raise _ => _contingency_rows st
         end
    /\ _ptdf_rows st' = _ptdf_rows st
    /\ _interface_rows st' = _interface_rows st
    /\ _vdf_rows st' = _vdf_rows st /\ _vdf_const st' = _vdf_const st.
Proof.
  intros H. unfold fresh_answer, serve, _get_contingency_row. munfold.
  rewrite H, lookup_empty.
  destruct (_branchname_to_index_map E !! b) as [idx|]; simpl; [|by eexists].
  destruct (contingency_compensators E !! cn) as [cc|]; simpl; [|by eexists].
  destruct (rows (B_dA E) !! idx) as [rb|]; simpl; [|by eexists].
  destruct (Pc_rmul cc rb) as [rPc|err]; simpl; [|by eexists].
  rewrite length_replicate.
  destruct (decide (length rPc = length (_bus_sensi_buffer st))); simpl; [|by eexists].
  destruct (solve (U cc) rPc true) as [hatF|err]; simpl; [|by eexists].
  destruct (Wbar_c_WT cc hatF) as [delF|err]; simpl; [|by eexists].
  destruct (np_add hatF delF) as [sF|err]; simpl; [|by eexists].
  destruct (solve (L cc) sF true) as [y|err]; simpl; [|by eexists].
  destruct (PrT_mul cc y) as [row|err]; simpl; by eexists.
Qed.

Lemma serve_hit (E : engine) (r : request) (st : caches) (v : vec) :
  cached st r = Some v -> serve E r st = (Ok v, st).
Proof.
  destruct r; simpl; intros H.
  - by apply get_ptdf_row_hit.
  - by apply get_contingency_row_hit.
  - by apply get_interface_row_hit.
Qed.

Lemma serve_miss (E : engine) (r : request) (st : caches) :
  cached st r = None ->
  exists st',
    serve E r st = (fresh_answer E (length (_bus_sensi_buffer st)) r, st')
    /\ length (_bus_sensi_buffer st') = length (_bus_sensi_buffer st)
    /\ (forall r', cached st' r'
                   = if decide (r' = r)
                     then result_to_option
                            (fresh_answer E (length (_bus_sensi_buffer st)) r)
                     else cached st r')
    /\ _vdf_rows st' = _vdf_rows st /\ _vdf_const st' = _vdf_const st.
Proof.
  destruct r as [b | cn b | i]; simpl; intros H.
  - destruct (get_ptdf_row_miss E b st H) as (st' & Hs & Hb & Hp & Hi & Hc & Hv & Hvc).
    exists st'. repeat split; try done.
    intros r'. destruct (decide (r' = ReqBranch b)) as [->|Hne]; simpl.
    + rewrite Hp. destruct (fresh_answer _ _ _); simpl; [by rewrite lookup_insert_eq | done].
    + destruct r' as [b' | cn' b' | i']; simpl; rewrite ?Hi, ?Hc; try done.
      rewrite Hp. destruct (fresh_answer _ _ _); [|done].
      rewrite lookup_insert_ne; [done | congruence].
  - destruct (get_contingency_row_miss E cn b st H)
      as (st' & Hs & Hb & Hc & Hp & Hi & Hv & Hvc).
    exists st'. repeat split; try done.
    intros r'. destruct (decide (r' = ReqContingency cn b)) as [->|Hne]; simpl.
    + rewrite Hc. destruct (fresh_answer _ _ _); simpl; [by rewrite lookup_insert_eq | done].
    + destruct r' as [b' | cn' b' | i']; simpl; rewrite ?Hi, ?Hp; try done.
      rewrite Hc. destruct (fresh_answer _ _ _); [|done].
      rewrite lookup_insert_ne; [done | congruence].
  - destruct (get_interface_row_miss E i st H)
      as (st' & Hs & Hb & Hi & Hp & Hc & Hv & Hvc).
    exists st'. repeat split; try done.
    intros r'. destruct (decide (r' = ReqInterface i)) as [->|Hne]; simpl.
    + rewrite Hi. destruct (fresh_answer _ _ _); simpl; [by rewrite lookup_insert_eq | done].
    + destruct r' as [b' | cn' b' | i']; simpl; rewrite ?Hc, ?Hp; try done.
      rewrite Hi. destruct (fresh_answer _ _ _); [|done].
      rewrite lookup_insert_ne; [done | congruence].
Qed.

Lemma serve_spec (E : engine) (r : request) (st : caches) :
  cache_inv E st ->
  exists st',
    serve E r st = (fresh_answer E (length (_bus_sensi_buffer st)) r, st')
    /\ cache_inv E st'
    /\ length (_bus_sensi_buffer st') = length (_bus_sensi_buffer st)
    /\ (forall r', cached st' r'
                   = if decide (r' = r)
                     then result_to_option
                            (fresh_answer E (length (_bus_sensi_buffer st)) r)
                     else cached st r')
    /\ _vdf_rows st' = _vdf_rows st /\ _vdf_const st' = _vdf_const st.
Proof.
  intros Hinv. destruct (cached st r) as [v|] eqn:Hc.
  - pose proof (Hinv r v Hc) as Hfresh. exists st.
    rewrite Hfresh. split; [by apply serve_hit|].
    split; [done|]. split; [done|]. split; [|done].
    intros r'. destruct (decide (r' = r)) as [->|]; [by rewrite Hc | done].
  - destruct (serve_miss E r st Hc) as (st' & Hs & Hb & Hcached & Hv & Hvc).
    exists st'. repeat split; try done.
    intros r' v' Hr'. rewrite Hb. rewrite Hcached in Hr'.
    destruct (decide (r' = r)) as [->|]; [|by apply Hinv].
    by destruct (fresh_answer _ _ r); simplify_eq/=.
Qed.

Lemma serve_idempotent (E : engine) (r : request) (st st1 : caches) (v : vec) :
  cache_inv E st ->
  serve E r st = (Ok v, st1) ->
  serve E r st1 = (Ok v, st1).
Proof.
  intros Hinv Hs.
  destruct (serve_spec E r st Hinv) as (st' & Hs' & _ & _ & Hc & _).
  rewrite Hs in Hs'. injection Hs' as Hv <-.
  apply serve_hit. rewrite Hc, decide_True by done. by rewrite <- Hv.
Qed.

Lemma blank_caches_inv (E : engine) (n : nat) : cache_inv E (blank_caches n).
Proof. intros [b | cn b | i] v; simpl; by rewrite lookup_empty. Qed.

Lemma init_caches_inv (E : engine) : cache_inv E (init_caches E).
Proof. apply blank_caches_inv. Qed.

Lemma run_requests_spec (E : engine) (reqs : list request) :
  forall st, cache_inv E st ->
    fst (run_requests E reqs st)
    = map (fresh_answer E (length (_bus_sensi_buffer st))) reqs
    /\ cache_inv E (snd (run_requests E reqs st))
    /\ length (_bus_sensi_buffer (snd (run_requests E reqs st)))
       = length (_bus_sensi_buffer st)
    /\ forall r', cached (snd (run_requests E reqs st)) r'
                  = if decide (r' ∈ reqs)
                    then result_to_option
                           (fresh_answer E (length (_bus_sensi_buffer st)) r')
                    else cached st r'.
Proof.
  induction reqs as [|r reqs IH]; intros st Hinv; simpl.
  - repeat split; done.
  - destruct (serve_spec E r st Hinv) as (st1 & Hs & Hinv1 & Hb1 & Hc1 & _).
    rewrite Hs. simpl.
    destruct (IH st1 Hinv1) as (Hout & Hinv2 & Hb2 & Hc2).
    rewrite Hout, Hb1. repeat split; try done; [congruence|].
    intros r'. rewrite Hc2, Hb1, Hc1.
    destruct (decide (r' ∈ reqs)) as [Hin|Hnin].
    + rewrite decide_True; [done | by right].
    + destruct (decide (r' = r)) as [->|Hne].
      * rewrite decide_True; [done | by left].
      * rewrite decide_False; [done|].
        intros [?|?]%elem_of_cons; done.
Qed.

Lemma get_ptdf_row_miss_ok (E : engine) (b : string) (st : caches)
    (idx : nat) (rb x : vec) :
  _ptdf_rows st !! b = None ->
  _branchname_to_index_map E !! b = Some idx ->
  rows (B_dA E) !! idx = Some rb ->
  length rb = length (_bus_sensi_buffer st) ->
  solve (MLU E) rb true = Ok x ->
  _get_ptdf_row E b st
  = (Ok (vneg x), store_ptdf_row b (vneg x) (count_solve (write_buffer rb st))).
Proof.
  intros Hc Hidx Hrb Hlen Hx. unfold _get_ptdf_row. munfold.
  rewrite Hc, Hidx. simpl. rewrite Hrb. simpl.
  rewrite decide_True by done. simpl. by rewrite Hx.
Qed.

Lemma registered_branch_row (E : engine) (b : string) :
  rows_ok E -> b ∈ branches_keys E ->
  exists idx rb x,
    _branchname_to_index_map E !! b = Some idx
    /\ branches_keys E !! idx = Some b
    /\ rows (B_dA E) !! idx = Some rb
    /\ length rb = length (buses_keys_no_ref E)
    /\ solve (MLU E) rb true = Ok x
    /\ length x = length (buses_keys_no_ref E).
Proof.
  intros (Hrows & Hwidth & Hsolve) Hb.
  destruct (index_map_elem _ _ Hb) as (idx & Hmap & Hidx).
  pose proof (lookup_lt_Some _ _ _ Hidx) as Hlt. rewrite <- Hrows in Hlt.
  destruct (lookup_lt_is_Some_2 _ _ Hlt) as [rb Hrb].
  pose proof (Forall_lookup_1 _ _ _ _ Hwidth Hrb) as Hlen. simpl in Hlen.
  destruct (Hsolve rb true Hlen) as (x & Hx & Hxl).
  by exists idx, rb, x.
Qed.

Lemma get_interface_row_miss_ok (E : engine) (i : string) (st : caches)
    (idx : nat) (rb x : vec) :
  _interface_rows st !! i = None ->
  interfacename_to_index_map E !! i = Some idx ->
  rows (B_dA_I E) !! idx = Some rb ->
  length rb = length (_bus_sensi_buffer st) ->
  solve (MLU E) rb true = Ok x ->
  _get_interface_row E i st
  = (Ok x, store_interface_row i x (count_solve (write_buffer rb st))).
Proof.
  intros Hc Hidx Hrb Hlen Hx. unfold _get_interface_row. munfold.
  rewrite Hc, Hidx. simpl. rewrite Hrb. simpl.
  rewrite decide_True by done. simpl. by rewrite Hx.
Qed.

Lemma get_contingency_row_miss_ok (E : engine) (cn b : string) (st : caches)
    (idx : nat) (cc : compensator) (rb rPc hatF delF y row : vec) :
  _contingency_rows st !! (cn, b) = None ->
  _branchname_to_index_map E !! b = Some idx ->
  contingency_compensators E !! cn = Some cc ->
  rows (B_dA E) !! idx = Some rb ->
  Pc_rmul cc rb = Ok rPc ->
  length rPc = length (_bus_sensi_buffer st) ->
  solve (U cc) rPc true = Ok hatF ->
  Wbar_c_WT cc hatF = Ok delF ->
  length hatF = length delF ->
  solve (L cc) (zip_with Qplus hatF delF) true = Ok y ->
  PrT_mul cc y = Ok row ->
  _get_contingency_row E cn b st
  = (Ok row,
     store_contingency_row (cn, b) row
       (count_solve (count_solve (write_buffer rPc st)))).
Proof.
  intros Hc Hidx Hcc Hrb HPc Hlen HU HW Hl HL HPr.
  unfold _get_contingency_row. munfold.
  rewrite Hc, Hidx. simpl. rewrite Hcc. simpl. rewrite Hrb. simpl.
  rewrite HPc. simpl. rewrite decide_True by done. simpl.
  rewrite HU. simpl. rewrite HW. simpl.
  unfold np_add. rewrite decide_True by exact Hl. simpl. rewrite HL. simpl.
  by rewrite HPr.
Qed.

Lemma registered_interface_row (E : engine) (i : string) :
  entities_ok E -> i ∈ interface_keys E ->
  exists idx rb x,
    interfacename_to_index_map E !! i = Some idx
    /\ rows (B_dA_I E) !! idx = Some rb
    /\ length rb = length (buses_keys_no_ref E)
    /\ solve (MLU E) rb true = Ok x.
Proof.
  intros ((_ & _ & Hsolve) & Hrows & Hwidth & _) Hi.
  destruct (index_map_elem _ _ Hi) as (idx & Hmap & Hidx).
  pose proof (lookup_lt_Some _ _ _ Hidx) as Hlt. rewrite <- Hrows in Hlt.
  destruct (lookup_lt_is_Some_2 _ _ Hlt) as [rb Hrb].
  pose proof (Forall_lookup_1 _ _ _ _ Hwidth Hrb) as Hlen. simpl in Hlen.
  destruct (Hsolve rb true Hlen) as (x & Hx & _).
  by exists idx, rb, x.
Qed.

(** C4: for every registered entity key (a branch, an interface, or a
    contingency paired with a branch) the first request returns a row and
    leaves it in the cache under that key; a second request returns the same
    row and changes nothing, the solve counter included, and the entries of
    all other keys are untouched.  On a hit the stored row comes back and the
    state is untouched.  On a miss the row depends on the kind of key: for a
    branch it is the negated transposed solve of the branch's row of
    [B_dA], with one solve counted; for an interface it is the transposed
    solve of the interface's row of [B_dA_I], not negated, with one solve
    counted; for a contingency it is computed with two solves, on the
    compensator's factors. *)
Theorem get_row_idempotent (E : engine) (r : request) (st : caches) :
  entities_ok E ->
  length (_bus_sensi_buffer st) = length (buses_keys_no_ref E) ->
  registered E r ->
  exists row st1,
    serve E r st = (Ok row, st1)
    /\ serve E r st1 = (Ok row, st1)
    /\ cached st1 r = Some row
    /\ (forall r', r' <> r -> cached st1 r' = cached st r')
    /\ (forall r0, cached st r = Some r0 -> row = r0 /\ st1 = st)
    /\ (cached st r = None ->
        miss_row E r row
        /\ solve_calls st1 = (solve_calls st + solves_on_miss r)%nat).
Proof.
  intros Hok Hbuf Hreg.
  destruct (cached st r) as [r0|] eqn:Hc.
  { exists r0, st. rewrite (serve_hit E r st r0 Hc).
    repeat split; try done; congruence. }
  destruct r as [b | cn b | i]; simpl in Hreg, Hc.
  - destruct (registered_branch_row E b (proj1 Hok) Hreg)
      as (idx & rb & x & Hmap & _ & Hrb & Hlen & Hx & _).
    rewrite <- Hbuf in Hlen.
    pose proof (get_ptdf_row_miss_ok E b st idx rb x Hc Hmap Hrb Hlen Hx) as Hmiss.
    set (st1 := store_ptdf_row b (vneg x) (count_solve (write_buffer rb st))) in *.
    assert (Hhit : cached st1 (ReqBranch b) = Some (vneg x))
      by (simpl; apply lookup_insert_eq).
    exists (vneg x), st1. split; [exact Hmiss|].
    split; [by apply serve_hit|]. split; [exact Hhit|]. split.
    { intros [b' | cn' b' | i'] Hne; simpl; try done.
      rewrite lookup_insert_ne; [done | congruence]. }
    split; [done|]. intros _. split; [by exists idx, rb, x | simpl; lia].
  - destruct Hreg as [Hb [cc Hcc]].
    destruct (registered_branch_row E b (proj1 Hok) Hb)
      as (idx & rb & x & Hmap & _ & Hrb & Hlen & _).
    destruct Hok as (_ & _ & _ & Hcomp).
    destruct (Hcomp cn cc Hcc) as (HPc & HU & HW & HL & HPr).
    destruct (HPc rb Hlen) as (rPc & HrPc & HrPcl).
    destruct (HU rPc HrPcl) as (hatF & HhatF & HhatFl).
    destruct (HW hatF HhatFl) as (delF & HdelF & HdelFl).
    assert (Hs : length (zip_with Qplus hatF delF) = length (buses_keys_no_ref E))
      by (rewrite length_zip_with; lia).
    destruct (HL _ Hs) as (y & Hy).
    destruct (HPr y) as (row & Hrow).
    assert (Hmiss : _get_contingency_row E cn b st
                    = (Ok row, store_contingency_row (cn, b) row
                                 (count_solve (count_solve (write_buffer rPc st))))).
    { apply (get_contingency_row_miss_ok E cn b st idx cc rb rPc hatF delF y row);
        try done; congruence. }
    set (st1 := store_contingency_row (cn, b) row
                  (count_solve (count_solve (write_buffer rPc st)))) in *.
    assert (Hhit : cached st1 (ReqContingency cn b) = Some row)
      by (simpl; apply lookup_insert_eq).
    exists row, st1. split; [exact Hmiss|].
    split; [by apply serve_hit|]. split; [exact Hhit|]. split.
    { intros [b' | cn' b' | i'] Hne; simpl; try done.
      rewrite lookup_insert_ne; [done | congruence]. }
    split; [done|]. intros _. split; [|simpl; lia].
    by exists idx, cc, rb, rPc, hatF, delF, y.
  - destruct (registered_interface_row E i Hok Hreg)
      as (idx & rb & x & Hmap & Hrb & Hlen & Hx).
    rewrite <- Hbuf in Hlen.
    pose proof (get_interface_row_miss_ok E i st idx rb x Hc Hmap Hrb Hlen Hx) as Hmiss.
    set (st1 := store_interface_row i x (count_solve (write_buffer rb st))) in *.
    assert (Hhit : cached st1 (ReqInterface i) = Some x)
      by (simpl; apply lookup_insert_eq).
    exists x, st1. split; [exact Hmiss|].
    split; [by apply serve_hit|]. split; [exact Hhit|]. split.
    { intros [b' | cn' b' | i'] Hne; simpl; try done.
      rewrite lookup_insert_ne; [done | congruence]. }
    split; [done|]. intros _. split; [by exists idx, rb | simpl; lia].
Qed.

Lemma E3_entities_ok : entities_ok E3.
Proof.
  split.
  { split; [reflexivity|]. split; [repeat constructor|].
    intros v trans Hv. simpl. rewrite decide_True by exact Hv.
    eexists. split; [reflexivity|]. by destruct trans. }
  split; [reflexivity|]. split; [repeat constructor|].
  intros cn cc Hcc. simpl in Hcc. apply lookup_singleton_Some in Hcc as [_ <-].
  split. { intros r Hr. by exists r. }
  split. { intros b Hb. exists b. simpl. by rewrite decide_True. }
  split. { intros h Hh. eexists. split; [reflexivity|].
           unfold vscale. by rewrite length_map. }
  split. { intros s Hs. exists s. simpl. by rewrite decide_True. }
  intros y. by exists y.
Qed.

Lemma get_row_idempotent_witness :
  exists row st1,
    _get_contingency_row E3 "c1" "branch1" (init_caches E3) = (Ok row, st1)
    /\ _get_contingency_row E3 "c1" "branch1" st1 = (Ok row, st1)
    /\ solve_calls st1 = 2%nat.
Proof.
  assert (Hreg : registered E3 (ReqContingency "c1" "branch1")).
  { split; [by_compute|]. simpl. rewrite lookup_singleton_eq. by eexists. }
  destruct (get_row_idempotent E3 (ReqContingency "c1" "branch1") (init_caches E3)
              E3_entities_ok eq_refl Hreg)
    as (row & st1 & H1 & H2 & _ & _ & _ & Hmiss).
  destruct (Hmiss eq_refl) as [_ Hcalls].
  exists row, st1. split; [exact H1|]. split; [exact H2|]. exact Hcalls.
Defined.

(** C4 as stated fails for keys that are not branches: the row of interface
    "iface" is the transposed solve itself, not its negation, and the row of
    branch1 under contingency c1 takes two solves, not one. *)
Lemma get_row_idempotent_counterexample :
  exists rb x row st1 row2 st2,
    interfacename_to_index_map E3 !! "iface" = Some 0%nat
    /\ rows (B_dA_I E3) !! 0%nat = Some rb
    /\ solve (MLU E3) rb true = Ok x
    /\ _get_interface_row E3 "iface" (init_caches E3) = (Ok row, st1)
    /\ row = x
    /\ row <> vneg x
    /\ _get_contingency_row E3 "c1" "branch1" (init_caches E3) = (Ok row2, st2)
    /\ solve_calls (init_caches E3) = 0%nat
    /\ solve_calls st2 = 2%nat.
Proof.
  eexists _, _, _, _, _, _.
  split; [by_compute|]. split; [reflexivity|]. split; [reflexivity|].
  split; [vm_compute; reflexivity|]. split; [reflexivity|].
  split; [vm_compute; discriminate|].
  split; [vm_compute; reflexivity|]. split; reflexivity.
Qed.

Lemma fresh_answer_unknown_branch (E : engine) (n : nat) (b : string) :
  b ∉ branches_keys E ->
  fresh_answer E n (ReqBranch b) = Raise (KeyError (KStr b))
  /\ forall cn, fresh_answer E n (ReqContingency cn b) = Raise (KeyError (KStr b)).
Proof.
  intros Hb. apply index_map_None in Hb.
  unfold fresh_answer, serve, _get_ptdf_row, _get_contingency_row. munfold.
  rewrite !lookup_empty. unfold _branchname_to_index_map. by rewrite Hb.
Qed.

Lemma fresh_answer_unknown_contingency (E : engine) (n : nat) (cn b : string) :
  b ∈ branches_keys E ->
  contingency_compensators E !! cn = None ->
  fresh_answer E n (ReqContingency cn b) = Raise (KeyError (KStr cn)).
Proof.
  intros Hb Hcn. destruct (index_map_elem _ _ Hb) as (idx & Hmap & _).
  unfold fresh_answer, serve, _get_contingency_row. munfold.
  rewrite lookup_empty. unfold _branchname_to_index_map. rewrite Hmap. simpl.
  by rewrite Hcn.
Qed.

Lemma fresh_answer_unknown_interface (E : engine) (n : nat) (i : string) :
  i ∉ interface_keys E ->
  fresh_answer E n (ReqInterface i) = Raise (KeyError (KStr i)).
Proof.
  intros Hi. apply index_map_None in Hi.
  unfold fresh_answer, serve, _get_interface_row. munfold.
  rewrite lookup_empty. unfold interfacename_to_index_map. by rewrite Hi.
Qed.

Lemma cached_none_of_raise (E : engine) (st : caches) (r : request) (e : exn) :
  cache_inv E st ->
  fresh_answer E (length (_bus_sensi_buffer st)) r = Raise e ->
  cached st r = None.
Proof.
  intros Hinv Hr. destruct (cached st r) as [v|] eqn:Hc; [|done].
  apply Hinv in Hc. congruence.
Qed.

(** C8: a row request for a name that was never registered raises
    [KeyError] on that name at once (the branch name for an unknown branch,
    the contingency name for an unknown contingency of a known branch, the
    interface name for an unknown interface) and leaves every attribute of
    the engine as it was. *)
Theorem unknown_key_fails (E : engine) (st : caches) :
  cache_inv E st ->
  (forall b, b ∉ branches_keys E ->
     _get_ptdf_row E b st = (Raise (KeyError (KStr b)), st)
     /\ forall cn, _get_contingency_row E cn b st = (Raise (KeyError (KStr b)), st))
  /\ (forall cn b, b ∈ branches_keys E ->
        contingency_compensators E !! cn = None ->
        _get_contingency_row E cn b st = (Raise (KeyError (KStr cn)), st))
  /\ (forall i, i ∉ interface_keys E ->
        _get_interface_row E i st = (Raise (KeyError (KStr i)), st)).
Proof.
  intros Hinv. split; [|split].
  - intros b Hb.
    destruct (fresh_answer_unknown_branch E (length (_bus_sensi_buffer st)) b Hb)
      as [Hfb Hfc].
    pose proof (index_map_None _ _ Hb) as Hmap. split.
    + pose proof (cached_none_of_raise E st _ _ Hinv Hfb) as Hc. simpl in Hc.
      unfold _get_ptdf_row. munfold. rewrite Hc.
      unfold _branchname_to_index_map. by rewrite Hmap.
    + intros cn.
      pose proof (cached_none_of_raise E st _ _ Hinv (Hfc cn)) as Hc. simpl in Hc.
      unfold _get_contingency_row. munfold. rewrite Hc.
      unfold _branchname_to_index_map. by rewrite Hmap.
  - intros cn b Hb Hcn.
    pose proof (fresh_answer_unknown_contingency E (length (_bus_sensi_buffer st))
                  cn b Hb Hcn) as Hf.
    pose proof (cached_none_of_raise E st _ _ Hinv Hf) as Hc. simpl in Hc.
    destruct (index_map_elem _ _ Hb) as (idx & Hmap & _).
    unfold _get_contingency_row. munfold. rewrite Hc.
    unfold _branchname_to_index_map. rewrite Hmap. simpl. by rewrite Hcn.
  - intros i Hi.
    pose proof (fresh_answer_unknown_interface E (length (_bus_sensi_buffer st)) i Hi)
      as Hf.
    pose proof (cached_none_of_raise E st _ _ Hinv Hf) as Hc. simpl in Hc.
    pose proof (index_map_None _ _ Hi) as Hmap.
    unfold _get_interface_row. munfold. rewrite Hc.
    unfold interfacename_to_index_map. by rewrite Hmap.
Qed.

Lemma unknown_key_fails_witness :
  _get_ptdf_row E3 "branch9" (init_caches E3)
  = (Raise (KeyError (KStr "branch9")), init_caches E3)
  /\ _get_contingency_row E3 "c9" "branch1" (init_caches E3)
     = (Raise (KeyError (KStr "c9")), init_caches E3).
Proof.
  destruct (unknown_key_fails E3 (init_caches E3) (init_caches_inv E3))
    as (Hb & Hc & _).
  split.
  - apply Hb. by_compute.
  - apply Hc; [by_compute | vm_compute; reflexivity].
Defined.

(** C9: two request sequences that are permutations of each other, run on
    freshly built caches of the same engine, end with the same three row
    caches, and a request gets the same answer wherever it stands in either
    sequence: the answer it would get on empty caches. *)
Theorem cache_order_independent (E : engine) (reqs1 reqs2 : list request) :
  reqs1 ≡ₚ reqs2 ->
  let out1 := run_requests E reqs1 (init_caches E) in
  let out2 := run_requests E reqs2 (init_caches E) in
  _ptdf_rows (snd out1) = _ptdf_rows (snd out2)
  /\ _interface_rows (snd out1) = _interface_rows (snd out2)
  /\ _contingency_rows (snd out1) = _contingency_rows (snd out2)
  /\ (forall i j r, reqs1 !! i = Some r -> reqs2 !! j = Some r ->
        fst out1 !! i = fst out2 !! j)
  /\ (forall i r, reqs1 !! i = Some r ->
        fst out1 !! i = Some (fresh_answer E (length (buses_keys_no_ref E)) r))
  /\ (forall j r, reqs2 !! j = Some r ->
        fst out2 !! j = Some (fresh_answer E (length (buses_keys_no_ref E)) r)).
Proof.
  intros Hperm out1 out2.
  destruct (run_requests_spec E reqs1 _ (init_caches_inv E)) as (Ho1 & _ & _ & Hc1).
  destruct (run_requests_spec E reqs2 _ (init_caches_inv E)) as (Ho2 & _ & _ & Hc2).
  fold out1 in Ho1, Hc1. fold out2 in Ho2, Hc2.
  assert (Hn : length (_bus_sensi_buffer (init_caches E)) = length (buses_keys_no_ref E))
    by apply length_replicate.
  rewrite Hn in Ho1, Ho2, Hc1, Hc2.
  assert (Hsame : forall r, cached (snd out1) r = cached (snd out2) r).
  { intros r. rewrite Hc1, Hc2.
    destruct (decide (r ∈ reqs1)) as [H1|H1], (decide (r ∈ reqs2)) as [H2|H2];
      try done.
    - rewrite Hperm in H1. done.
    - rewrite <- Hperm in H2. done. }
  assert (Hout1 : forall i r, reqs1 !! i = Some r ->
            fst out1 !! i = Some (fresh_answer E (length (buses_keys_no_ref E)) r)).
  { intros i r Hi. rewrite Ho1.
    change (map ?f ?l) with (f <$> l). by rewrite list_lookup_fmap, Hi. }
  assert (Hout2 : forall j r, reqs2 !! j = Some r ->
            fst out2 !! j = Some (fresh_answer E (length (buses_keys_no_ref E)) r)).
  { intros j r Hj. rewrite Ho2.
    change (map ?f ?l) with (f <$> l). by rewrite list_lookup_fmap, Hj. }
  split; [|split; [|split; [|split; [|split]]]]; try done.
  - apply map_eq. intros b. apply (Hsame (ReqBranch b)).
  - apply map_eq. intros i. apply (Hsame (ReqInterface i)).
  - apply map_eq. intros [cn b]. apply (Hsame (ReqContingency cn b)).
  - intros i j r Hi Hj. by rewrite (Hout1 i r Hi), (Hout2 j r Hj).
Qed.

Lemma cache_order_independent_witness :
  _ptdf_rows (snd (run_requests E3 [ReqBranch "branch1"; ReqBranch "branch2"]
                     (init_caches E3)))
  = _ptdf_rows (snd (run_requests E3 [ReqBranch "branch2"; ReqBranch "branch1"]
                       (init_caches E3))).
Proof.
  destruct (cache_order_independent E3
              [ReqBranch "branch1"; ReqBranch "branch2"]
              [ReqBranch "branch2"; ReqBranch "branch1"]) as (H & _).
  - apply perm_swap.
  - exact H.
Defined.

(** The write buffer is hidden state that does depend on the order of the
    requests; no answer and no cache entry depends on it. *)
Lemma buffer_follows_last_miss :
  _bus_sensi_buffer
    (snd (run_requests E3 [ReqBranch "branch1"; ReqBranch "branch2"] (init_caches E3)))
  = [5; -5]%Q
  /\ _bus_sensi_buffer
       (snd (run_requests E3 [ReqBranch "branch2"; ReqBranch "branch1"] (init_caches E3)))
     = [-10; 0]%Q.
Proof. split; vm_compute; reflexivity. Qed.

Lemma length_vneg (v : vec) : length (vneg v) = length v.
Proof. unfold vneg. apply length_map. Qed.

Lemma registered_row_cached (E : engine) (b : string) (st : caches) :
  rows_ok E ->
  length (_bus_sensi_buffer st) = length (buses_keys_no_ref E) ->
  cache_inv E st ->
  b ∈ branches_keys E ->
  exists idx x st1,
    _branchname_to_index_map E !! b = Some idx
    /\ branches_keys E !! idx = Some b
    /\ length x = length (buses_keys_no_ref E)
    /\ _get_ptdf_row E b st = (Ok (vneg x), st1)
    /\ _get_ptdf_row E b st1 = (Ok (vneg x), st1).
Proof.
  intros Hok Hbuf Hinv Hb.
  destruct (registered_branch_row E b Hok Hb)
    as (idx & rb & x & Hmap & Hidx & Hrb & Hlen & Hx & Hxl).
  destruct (_ptdf_rows st !! b) as [r0|] eqn:Hc.
  - pose proof (Hinv (ReqBranch b) r0 Hc) as Hf.
    unfold fresh_answer in Hf. simpl in Hf.
    rewrite (get_ptdf_row_miss_ok E b _ idx rb x) in Hf; try done;
      [| simpl; by rewrite length_replicate, Hbuf ].
    simpl in Hf. injection Hf as <-.
    exists idx, x, st. by rewrite (get_ptdf_row_hit E b st _ Hc).
  - rewrite <- Hbuf in Hlen.
    exists idx, x, (store_ptdf_row b (vneg x) (count_solve (write_buffer rb st))).
    rewrite (get_ptdf_row_miss_ok E b st idx rb x Hc Hmap Hrb Hlen Hx).
    repeat split; try done.
    apply get_ptdf_row_hit. simpl. apply lookup_insert_eq.
Qed.

(** C3: for a registered branch the constant accessor returns the dot
    product of the branch's cached row with [phi_adjust_array] plus the
    branch's entry of [phase_shift_flow_adjuster_array]; the row is the one
    [_get_ptdf_row] returns before and after the call.  The value is that sum
    itself, hence within any relative tolerance of it. *)
Theorem branch_const_consistent (E : engine) (b : string) (st : caches) :
  rows_ok E ->
  length (_bus_sensi_buffer st) = length (buses_keys_no_ref E) ->
  length (phi_adjust_array E) = length (buses_keys_no_ref E) ->
  length (phase_shift_flow_adjuster_array E) = length (branches_keys E) ->
  cache_inv E st ->
  b ∈ branches_keys E ->
  exists c row idx ps st1,
    get_branch_ptdf_const E b st = (Ok c, st1)
    /\ _get_ptdf_row E b st = (Ok row, st1)
    /\ _get_ptdf_row E b st1 = (Ok row, st1)
    /\ _branchname_to_index_map E !! b = Some idx
    /\ phase_shift_flow_adjuster_array E !! idx = Some ps
    /\ np_dot row (phi_adjust_array E) = Ok (vdot row (phi_adjust_array E))
    /\ c = (vdot row (phi_adjust_array E) + ps)%Q
    /\ (Qabs (c - (vdot row (phi_adjust_array E) + ps))
        <= (1 # 1000000000000) * Qabs (vdot row (phi_adjust_array E) + ps))%Q.
Proof.
  intros Hok Hbuf Hphi Hps Hinv Hb.
  destruct (registered_row_cached E b st Hok Hbuf Hinv Hb)
    as (idx & x & st1 & Hmap & Hidx & Hxl & H1 & H2).
  set (row := vneg x) in *.
  assert (Hrl : length row = length (phi_adjust_array E)).
  { unfold row. rewrite length_vneg, Hxl. done. }
  pose proof (lookup_lt_Some _ _ _ Hidx) as Hlt. rewrite <- Hps in Hlt.
  destruct (lookup_lt_is_Some_2 _ _ Hlt) as [ps Hpsl].
  exists (vdot row (phi_adjust_array E) + ps)%Q, row, idx, ps, st1.
  assert (Hdot : np_dot row (phi_adjust_array E) = Ok (vdot row (phi_adjust_array E))).
  { unfold np_dot. by rewrite decide_True. }
  split.
  { unfold get_branch_ptdf_const, bind. rewrite H1. munfold.
    rewrite Hmap. simpl. rewrite Hdot, Hpsl. done. }
  repeat split; try done.
  assert (H0 : (vdot row (phi_adjust_array E) + ps
                - (vdot row (phi_adjust_array E) + ps) == 0)%Q) by ring.
  rewrite H0. change (Qabs 0) with 0%Q.
  apply Qmult_le_0_compat; [discriminate | apply Qabs_nonneg].
Qed.

Lemma branch_const_consistent_witness :
  exists c row st1,
    get_branch_ptdf_const E3 "branch2" (init_caches E3) = (Ok c, st1)
    /\ _get_ptdf_row E3 "branch2" st1 = (Ok row, st1)
    /\ c = (vdot row (phi_adjust_array E3) + 0)%Q.
Proof.
  assert (Hok : rows_ok E3).
  { split; [reflexivity|]. split; [repeat constructor|].
    intros v trans Hv. simpl. rewrite decide_True by exact Hv.
    eexists. split; [reflexivity|]. by destruct trans. }
  assert (Hb : "branch2" ∈ branches_keys E3) by by_compute.
  destruct (branch_const_consistent E3 "branch2" (init_caches E3) Hok eq_refl eq_refl
              eq_refl (init_caches_inv E3) Hb)
    as (c & row & idx & ps & st1 & Hc & _ & Hr & Hidx & Hps & _ & Hval & _).
  exists c, row, st1. split; [exact Hc|]. split; [exact Hr|].
  vm_compute in Hidx. injection Hidx as <-.
  vm_compute in Hps. injection Hps as <-. exact Hval.
Defined.

Lemma set_item_lookup {A : Type} (arr arr' : list A) (k : nat) (v : A) :
  set_item arr k v = Ok arr' -> arr' !! k = Some v /\ length arr' = length arr.
Proof.
  unfold set_item. destruct (decide (k < length arr)%nat) as [Hk|]; [|done].
  intros [= <-]. split; [by apply list_lookup_insert_eq | apply length_insert].
Qed.

(** C2: when [_calculate_PFV_delta] returns, the entry of the returned
    delta at the index of the outaged branch (in the full ordering for
    [calculate_PFV_delta], in the masked ordering for the masked variant when
    the branch is monitored) is the negated base flow at that index, so base
    flow plus delta is zero there. *)
Theorem contingency_zero_flow (E : engine) (F : filtered) (cn : string)
    (PFV VA : vec) (masked : bool) (st st' : caches) (comp : compensator)
    (k : nat) (delta : vec) :
  contingency_compensators E !! cn = Some comp ->
  (if masked then branchname_to_index_masked_map F !! branch_out comp = Some k
   else _branchname_to_index_map E !! branch_out comp = Some k) ->
  _calculate_PFV_delta E F cn PFV VA masked st = (Ok delta, st') ->
  exists f d,
    PFV !! k = Some f /\ delta !! k = Some d /\ d = (- f)%Q /\ (f + d == 0)%Q.
Proof.
  intros Hcomp Hk Hrun. unfold _calculate_PFV_delta in Hrun.
  cbv [bind ret lift gets modify call_solve dict_get rbind] in Hrun.
  rewrite Hcomp in Hrun.
  assert (Hfinal : forall PF_delta,
            (if masked then
               match branchname_to_index_masked_map F !! branch_out comp with
               | Some i => match seq_get PFV i with
                           | Ok f => set_item PF_delta i (- f)%Q
                           | Raise e => Raise e
                           end
               | None => Ok PF_delta
               end
             else
               match _branchname_to_index_map E !! branch_out comp with
               | Some i => match seq_get PFV i with
                           | Ok f => set_item PF_delta i (- f)%Q
                           | Raise e => Raise e
                           end
               | None => Raise (KeyError (KStr (branch_out comp)))
               end) = Ok delta ->
            exists f d,
              PFV !! k = Some f /\ delta !! k = Some d /\ d = (- f)%Q
              /\ (f + d == 0)%Q).
  { intros PF_delta Hset.
    assert (Hset' : match seq_get PFV k with
                    | Ok f => set_item PF_delta k (- f)%Q
                    | Raise e => Raise e
                    end = Ok delta)
      by (destruct masked; rewrite Hk in Hset; exact Hset).
    unfold seq_get in Hset'. destruct (PFV !! k) as [f|]; [|done].
    apply set_item_lookup in Hset' as [Hd _].
    exists f, (- f)%Q. repeat split; try done. ring. }
  destruct masked.
  - destruct (VA_compensator comp) as [vc|].
    + destruct (np_add VA vc) as [VA0|]; [|done].
      destruct (M_c_MT comp VA0) as [rhs|]; [|done].
      destruct (solve (MLU E) rhs false) as [VAd|]; [|done].
      destruct (np_iadd VAd vc) as [VAd'|]; [|done].
      destruct (sp_matvec (B_dA_masked F) VAd') as [PF|]; [|done].
      apply (Hfinal PF).
      destruct (branchname_to_index_masked_map F !! branch_out comp); [|congruence].
      destruct (seq_get PFV n); [|done]. destruct (set_item _ _ _); [|done]. congruence.
    + destruct (M_c_MT comp VA) as [rhs|]; [|done].
      destruct (solve (MLU E) rhs false) as [VAd|]; [|done].
      destruct (sp_matvec (B_dA_masked F) VAd) as [PF|]; [|done].
      apply (Hfinal PF).
      destruct (branchname_to_index_masked_map F !! branch_out comp); [|congruence].
      destruct (seq_get PFV n); [|done]. destruct (set_item _ _ _); [|done]. congruence.
  - destruct (np_mask VA (ref_bus_mask E)) as [m|]; [|done].
    destruct (VA_compensator comp) as [vc|].
    + destruct (np_add (vneg m) vc) as [VA0|]; [|done].
      destruct (M_c_MT comp VA0) as [rhs|]; [|done].
      destruct (solve (MLU E) rhs false) as [VAd|]; [|done].
      destruct (np_iadd VAd vc) as [VAd'|]; [|done].
      destruct (sp_matvec (B_dA E) VAd') as [PF|]; [|done].
      apply (Hfinal PF).
      destruct (_branchname_to_index_map E !! branch_out comp); [|done].
      destruct (seq_get PFV n); [|done]. destruct (set_item _ _ _); [|done]. congruence.
    + destruct (M_c_MT comp (vneg m)) as [rhs|]; [|done].
      destruct (solve (MLU E) rhs false) as [VAd|]; [|done].
      destruct (sp_matvec (B_dA E) VAd) as [PF|]; [|done].
      apply (Hfinal PF).
      destruct (_branchname_to_index_map E !! branch_out comp); [|done].
      destruct (seq_get PFV n); [|done]. destruct (set_item _ _ _); [|done]. congruence.
Qed.

Lemma contingency_zero_flow_witness :
  exists delta st' f d,
    calculate_PFV_delta E3 F3 "c1" [100; 100]%Q [0; -10; -30]%Q (init_caches E3)
    = (Ok delta, st')
    /\ [100; 100]%Q !! 1%nat = Some f /\ delta !! 1%nat = Some d
    /\ (f + d == 0)%Q.
Proof.
  destruct (calculate_PFV_delta E3 F3 "c1" [100; 100]%Q [0; -10; -30]%Q (init_caches E3))
    as [[delta|err] st'] eqn:Hrun; [| vm_compute in Hrun; discriminate ].
  destruct (contingency_zero_flow E3 F3 "c1" [100; 100]%Q [0; -10; -30]%Q false
              (init_caches E3) st' cc_example 1 delta)
    as (f & d & Hf & Hd & _ & Hz);
    [ vm_compute; reflexivity | vm_compute; reflexivity | exact Hrun | ].
  by exists delta, st', f, d.
Defined.

End RowCache.

(** ** Locational marginal prices *)

Section LMP.

Lemma length_zip_with_same {A B C : Type} (f : A -> B -> C) (a : list A) (b : list B) :
  length a = length b -> length (zip_with f a b) = length a.
Proof. intros H. rewrite length_zip_with. lia. Qed.

Lemma sp_matTvec_length (B : spmatrix) (v : vec) (n : nat) :
  ncols B = n -> Forall (fun r => length r = n) (rows B) ->
  length (rows B) = length v ->
  exists r, sp_matTvec B v = Ok r /\ length r = n.
Proof.
  intros Hn Hrows Hlen. unfold sp_matTvec. rewrite decide_True by done.
  eexists. split; [reflexivity|].
  assert (Hacc : length (zeros (ncols B)) = n)
    by (unfold zeros; by rewrite length_replicate).
  revert Hacc. generalize (zeros (ncols B)) as acc.
  clear Hlen. revert v.
  induction Hrows as [|r rs Hr _ IH]; intros v acc Hacc; [done|].
  destruct v as [|x v]; [done|]. simpl. apply IH.
  rewrite length_zip_with_same; [done|].
  unfold vscale. rewrite length_map. congruence.
Qed.

Lemma spneg_shape (B : spmatrix) (n : nat) :
  Forall (fun r => length r = n) (rows B) ->
  Forall (fun r => length r = n) (rows (spneg B))
  /\ length (rows (spneg B)) = length (rows B)
  /\ ncols (spneg B) = ncols B.
Proof.
  intros H. simpl. rewrite length_map. repeat split; try done.
  apply Forall_fmap. eapply Forall_impl; [exact H|].
  intros r Hr. simpl. by rewrite length_vneg.
Qed.

Lemma np_add_same (a b : vec) :
  length a = length b -> np_add a b = Ok (zip_with Qplus a b).
Proof. intros H. unfold np_add. by rewrite decide_True. Qed.

Lemma np_iadd_same (a b : vec) :
  length a = length b -> np_iadd a b = Ok (zip_with Qplus a b).
Proof. intros H. unfold np_iadd. by rewrite decide_True. Qed.

Lemma lmpcc_loop_ok (n : nat) (items : list ((string * string) * Q)) :
  forall (acc : vec) (st : caches),
    length acc = n ->
    (forall key dual_value,
        (key, dual_value) ∈ items -> Qeq_bool dual_value 0 = false ->
        exists row, _contingency_rows st !! key = Some row /\ length row = n) ->
    exists acc', lmpcc_loop items acc st = (Ok acc', st) /\ length acc' = n.
Proof.
  induction items as [|[key dv] items IH]; intros acc st Hacc Hrows; simpl.
  - by exists acc.
  - assert (Hrows' : forall key' dv',
              (key', dv') ∈ items -> Qeq_bool dv' 0 = false ->
              exists row, _contingency_rows st !! key' = Some row /\ length row = n)
      by (intros key' dv' Hin; apply Hrows; by right).
    destruct (Qeq_bool dv 0) eqn:Hdv; [by apply IH|].
    destruct (Hrows key dv) as (row & Hrow & Hlen); [by left | done |].
    munfold. rewrite Hrow.
    rewrite np_iadd_same by (unfold vscale; rewrite length_map; congruence).
    apply IH; [|done].
    rewrite length_zip_with_same; [done|].
    unfold vscale. rewrite length_map. congruence.
Qed.

Lemma lmpcc_loop_component (n : nat) (items : list ((string * string) * Q)) :
  forall (acc acc' : vec) (st : caches),
    length acc = n ->
    (forall key dual_value,
        (key, dual_value) ∈ items -> Qeq_bool dual_value 0 = false ->
        exists row, _contingency_rows st !! key = Some row /\ length row = n) ->
    lmpcc_loop items acc st = (Ok acc', st) ->
    forall j a, acc !! j = Some a ->
      exists x, acc' !! j = Some x
                /\ (x == a + contingency_component (_contingency_rows st) items j)%Q.
Proof.
  induction items as [|[key dv] items IH]; intros acc acc' st Hacc Hrows Hloop j a Hj;
    simpl in *.
  - injection Hloop as <-. exists a. split; [done | lra].
  - assert (Hrows' : forall key' dv',
              (key', dv') ∈ items -> Qeq_bool dv' 0 = false ->
              exists row, _contingency_rows st !! key' = Some row /\ length row = n)
      by (intros key' dv' Hin; apply Hrows; by right).
    destruct (Qeq_bool dv 0) eqn:Hdv.
    + destruct (IH acc acc' st Hacc Hrows' Hloop j a Hj) as (x & Hx & Heq).
      exists x. split; [done|]. rewrite Heq. lra.
    + destruct (Hrows key dv) as (row & Hrow & Hlen); [by left | done |].
      revert Hloop. munfold. rewrite Hrow.
      rewrite np_iadd_same by (unfold vscale; rewrite length_map; congruence).
      intros Hloop.
      pose proof (lookup_lt_Some _ _ _ Hj) as Hlt.
      destruct (lookup_lt_is_Some_2 row j) as [rj Hrj]; [lia|].
      assert (Hj1 : zip_with Qplus acc (vscale (- dv) row) !! j
                    = Some (a + - dv * rj)%Q).
      { rewrite lookup_zip_with, Hj. simpl. unfold vscale.
        change (map ?f ?l) with (f <$> l). by rewrite list_lookup_fmap, Hrj. }
      assert (Hacc1 : length (zip_with Qplus acc (vscale (- dv) row)) = n).
      { rewrite length_zip_with_same; [done|].
        unfold vscale. rewrite length_map. congruence. }
      destruct (IH _ acc' st Hacc1 Hrows' Hloop j _ Hj1) as (x & Hx & Heq).
      exists x. split; [done|]. rewrite Heq, Hrj. simpl. lra.
Qed.

(** C7: on an engine of consistent shapes [calculate_LMP] returns a vector
    with one entry per bus key; without its entry at the reference bus's
    index-map position it is the sum of the energy dual, the branch
    congestion term, the interface term and (when there are contingencies)
    the contingency term over the reference-eliminated buses, and the entry
    at that position is the energy dual itself.  The contingency term has one
    entry per reference-eliminated bus, and its entry at position [j] is the
    sum, over the contingency constraints with a nonzero dual, of minus the
    dual times entry [j] of the constraint's cached row. *)
Theorem lmp_reference_bus (E : engine) (F : filtered) (d : lmp_duals) (st : caches) :
  lmp_ok E F ->
  duals_cached E d st ->
  exists v st' k LMP B_PFD I_PFD LMPC LMPI LMPCC,
    calculate_LMP E F d st = (Ok v, st')
    /\ length v = length (buses_keys E)
    /\ length LMP = length (buses_keys_no_ref E)
    /\ _busname_to_index_map E !! _reference_bus E = Some k
    /\ v !! k = Some (LMPE d)
    /\ _remove_reference_bus E v = Ok LMP
    /\ _insert_reference_bus E LMP (LMPE d) = Ok v
    /\ sp_matTvec (spneg (B_dA_masked F))
         (map (fun bn => default 0%Q (branch_thermal_dual d !! bn))
              (branches_keys_masked F)) = Ok B_PFD
    /\ sp_matTvec (spneg (B_dA_I E))
         (map (fun i_n => default 0%Q (interface_dual d !! i_n))
              (interface_keys E)) = Ok I_PFD
    /\ solve (MLU E) B_PFD true = Ok LMPC
    /\ solve (MLU E) I_PFD true = Ok LMPI
    /\ (if bool_decide (contingencies E <> ∅)
        then lmpcc_loop (contingency_dual_items d) (zeros (length LMPC))
               (count_solve (count_solve st)) = (Ok LMPCC, st')
             /\ length LMPCC = length (buses_keys_no_ref E)
             /\ (forall j, (j < length (buses_keys_no_ref E))%nat ->
                   exists x, LMPCC !! j = Some x
                             /\ (x == contingency_component (_contingency_rows st)
                                       (contingency_dual_items d) j)%Q)
             /\ LMP = zip_with Qplus
                        (zip_with Qplus (map (fun x => (LMPE d + x)%Q) LMPC) LMPI)
                        LMPCC
        else LMP = zip_with Qplus (map (fun x => (LMPE d + x)%Q) LMPC) LMPI)
    /\ st' = count_solve (count_solve st).
Proof.
  intros (Hnd & Href & HcB & HrB & HwB & HcI & HrI & HwI & Hsolve) Hdual.
  set (n := length (buses_keys_no_ref E)) in *.
  destruct (spneg_shape _ n HwB) as (HwB' & HrB' & HcB').
  destruct (spneg_shape _ n HwI) as (HwI' & HrI' & HcI').
  destruct (sp_matTvec_length (spneg (B_dA_masked F))
              (map (fun bn => default 0%Q (branch_thermal_dual d !! bn))
                   (branches_keys_masked F)) n)
    as (B_PFD & HB & HBl); [congruence | done | rewrite length_map; congruence |].
  destruct (sp_matTvec_length (spneg (B_dA_I E))
              (map (fun i_n => default 0%Q (interface_dual d !! i_n))
                   (interface_keys E)) n)
    as (I_PFD & HI & HIl); [congruence | done | rewrite length_map; congruence |].
  destruct (Hsolve B_PFD true HBl) as (LMPC & HC & HCl).
  destruct (Hsolve I_PFD true HIl) as (LMPI & HIs & HIsl).
  destruct (index_map_elem _ _ Href) as (k & Hk & Hkidx).
  assert (Hkle : (k <= n)%nat) by (by apply ref_index_le).
  assert (Hs1 : length (map (fun x => (LMPE d + x)%Q) LMPC) = length LMPI)
    by (rewrite length_map; congruence).
  destruct (lmpcc_loop_ok n (contingency_dual_items d) (zeros (length LMPC))
              (count_solve (count_solve st)))
    as (LMPCC & Hloop & HCCl).
  { unfold zeros. by rewrite length_replicate. }
  { intros key dv Hin Hdv. by apply (Hdual key dv). }
  set (s1 := zip_with Qplus (map (fun x => (LMPE d + x)%Q) LMPC) LMPI).
  assert (Hs1l : length s1 = n).
  { unfold s1. rewrite length_zip_with_same by done. rewrite length_map. done. }
  set (LMP := if bool_decide (contingencies E <> ∅)
              then zip_with Qplus s1 LMPCC else s1).
  assert (HLMPl : length LMP = n).
  { unfold LMP. destruct (bool_decide _); [|done].
    rewrite length_zip_with_same; congruence. }
  destruct (np_delete_insert LMP k (LMPE d)) as (v & Hins & Hdel & Hvk & Hvl);
    [by rewrite HLMPl|].
  exists v, (count_solve (count_solve st)), k, LMP, B_PFD, I_PFD, LMPC, LMPI, LMPCC.
  assert (Hinsert : _insert_reference_bus E LMP (LMPE d) = Ok v).
  { unfold _insert_reference_bus, _busname_to_index_map, dict_get.
    rewrite Hk. simpl. done. }
  split.
  { unfold calculate_LMP. munfold. rewrite HB. simpl. rewrite HI. simpl.
    rewrite HC. simpl. rewrite HIs. simpl.
    unfold LMP in Hinsert. fold s1.
    destruct (bool_decide (contingencies E <> ∅)).
    - munfold. rewrite Hloop. simpl.
      rewrite (np_add_same _ LMPI Hs1). simpl. fold s1.
      rewrite (np_add_same s1 LMPCC) by congruence. simpl.
      by rewrite Hinsert.
    - munfold. rewrite (np_add_same _ LMPI Hs1). simpl. fold s1.
      by rewrite Hinsert. }
  split. { rewrite Hvl, HLMPl. by apply buses_keys_no_ref_length. }
  split; [done|]. split; [done|]. split; [done|]. split.
  { unfold _remove_reference_bus, _busname_to_index_map, dict_get.
    rewrite Hk. simpl. done. }
  split; [done|]. split; [done|]. split; [done|]. split; [done|]. split; [done|].
  split; [|done]. unfold LMP.
  destruct (bool_decide (contingencies E <> ∅)); [|done].
  split; [done|]. split; [done|]. split; [|done].
  intros j Hj.
  assert (Hz : zeros (length LMPC) !! j = Some 0%Q).
  { unfold zeros. apply lookup_replicate_2. lia. }
  assert (Hzl : length (zeros (length LMPC)) = n)
    by (unfold zeros; by rewrite length_replicate).
  assert (Hrows : forall key dv,
             (key, dv) ∈ contingency_dual_items d -> Qeq_bool dv 0 = false ->
             exists row, _contingency_rows (count_solve (count_solve st)) !! key
                         = Some row /\ length row = n)
    by (intros key dv Hin Hdv; by apply (Hdual key dv)).
  destruct (lmpcc_loop_component n (contingency_dual_items d) (zeros (length LMPC))
              LMPCC (count_solve (count_solve st)) Hzl Hrows Hloop j 0%Q Hz)
    as (x & Hx & Heq).
  exists x. split; [done|]. simpl in Heq. rewrite Heq. lra.
Qed.

Lemma lmp_reference_bus_witness :
  exists (v : vec) (st' : caches) (LMPC LMPCC : vec) (x : Q),
    calculate_LMP E3 F3 duals_example caches_example = (Ok v, st')
    /\ length v = 3%nat /\ v !! 0%nat = Some 30%Q
    /\ lmpcc_loop (contingency_dual_items duals_example) (zeros (length LMPC))
         (count_solve (count_solve caches_example)) = (Ok LMPCC, st')
    /\ LMPCC !! 0%nat = Some x
    /\ (x == contingency_component (_contingency_rows caches_example)
              (contingency_dual_items duals_example) 0)%Q
    /\ ~ (x == 0)%Q.
Proof.
  assert (Hok : lmp_ok E3 F3).
  { split; [by_compute|]. split; [by_compute|].
    split; [reflexivity|]. split; [reflexivity|]. split; [repeat constructor|].
    split; [reflexivity|]. split; [reflexivity|]. split; [repeat constructor|].
    intros b trans Hb. simpl. rewrite decide_True by exact Hb.
    eexists. split; [reflexivity|]. by destruct trans. }
  assert (Hd : duals_cached E3 duals_example caches_example).
  { intros key dv Hin Hdv. simpl in Hin.
    apply elem_of_cons in Hin as [[= -> ->] | Hin].
    - eexists. split; [vm_compute; reflexivity | reflexivity].
    - apply list_elem_of_singleton in Hin as [= -> ->]. discriminate. }
  destruct (lmp_reference_bus E3 F3 duals_example caches_example Hok Hd)
    as (v & st' & k & LMP & B_PFD & I_PFD & LMPC & LMPI & LMPCC
        & Hrun & Hlen & _ & Hk & Hvk & _ & _ & _ & _ & HC & _ & Hcc & _).
  destruct (bool_decide (contingencies E3 <> ∅)) eqn:Hb;
    [| vm_compute in Hb; discriminate ].
  destruct Hcc as (Hloop & _ & Hcomp & _).
  destruct (Hcomp 0%nat) as (x & Hx & Heq); [vm_compute; lia|].
  exists v, st', LMPC, LMPCC, x. split; [exact Hrun|]. split; [exact Hlen|].
  split; [vm_compute in Hk; injection Hk as <-; exact Hvk|].
  split; [exact Hloop|]. split; [exact Hx|]. split; [exact Heq|].
  intros H0. rewrite Heq in H0. vm_compute in H0. discriminate.
Defined.

End LMP.

(** ** Tolerance truncation in the expression builders *)

Section Truncation.

Local Open Scope Q_scope.

Lemma py_max_Qmax (a b : Q) : py_max a b == Qmax a b.
Proof.
  unfold py_max, Qlt_bool. destruct (Qle_bool b a) eqn:Hba; simpl.
  - apply Qle_bool_iff in Hba. symmetry. by apply Q.max_l.
  - symmetry. apply Q.max_r. apply Qlt_le_weak. apply Qnot_le_lt.
    intros Hle. apply Qle_bool_iff in Hle. congruence.
Qed.

Lemma Qmax_cases (x y : Q) : Qmax x y = x \/ Qmax x y = y.
Proof.
  unfold Qmax, GenericMinMax.gmax. destruct (x ?= y); auto.
Qed.

Lemma foldl_Qmax_spec (xs : list Q) :
  forall x,
    x <= foldl Qmax x xs
    /\ (forall y, y ∈ xs -> y <= foldl Qmax x xs)
    /\ foldl Qmax x xs ∈ x :: xs.
Proof.
  induction xs as [|z xs IH]; intros x; simpl.
  - split; [apply Qle_refl|]. split; [by intros y ?%elem_of_nil | by left].
  - destruct (IH (Qmax x z)) as (H1 & H2 & H3). split; [|split].
    + eapply Qle_trans; [apply Q.le_max_l | exact H1].
    + intros y [->|Hy]%elem_of_cons.
      * eapply Qle_trans; [apply Q.le_max_r | exact H1].
      * by apply H2.
    + apply elem_of_cons in H3 as [H3|H3].
      * rewrite H3. destruct (Qmax_cases x z) as [-> | ->]; [by left|].
        right. by left.
      * right. by right.
Qed.

Lemma np_abs_max_spec (row : vec) (mx : Q) :
  np_abs_max row = Ok mx ->
  (forall c, c ∈ row -> Qabs c <= mx) /\ mx ∈ vabs row.
Proof.
  unfold np_abs_max. destruct (vabs row) as [|x xs] eqn:Hrow; [done|].
  intros [= <-]. destruct (foldl_Qmax_spec xs x) as (H1 & H2 & H3).
  split; [|done]. intros c Hc.
  assert (Hin : Qabs c ∈ x :: xs).
  { rewrite <- Hrow. unfold vabs. change (map Qabs row) with (Qabs <$> row).
    by apply list_elem_of_fmap_2. }
  apply elem_of_cons in Hin as [-> | Hin]; [done | by apply H2].
Qed.

Lemma included_iff (abs_tol rel_tol mx c : Q) :
  Qle_bool (py_max abs_tol (rel_tol * mx)) (Qabs c) = true
  <-> Qmax abs_tol (rel_tol * mx) <= Qabs c.
Proof. rewrite Qle_bool_iff. by rewrite py_max_Qmax. Qed.

Lemma bus_terms_app (v1 v2 : list pyvar) (c1 c2 : list Q) (k1 k2 k : Q) :
  length v1 = length c1 ->
  bus_terms {| linear_vars := v1 ++ v2; linear_coefs := c1 ++ c2; constant := k |}
  = bus_terms {| linear_vars := v1; linear_coefs := c1; constant := k1 |}
    ++ bus_terms {| linear_vars := v2; linear_coefs := c2; constant := k2 |}.
Proof.
  intros Hlen. unfold bus_terms. simpl.
  rewrite zip_with_app by done. apply omap_app.
Qed.

Lemma bus_terms_q_nw (l : list (string * Q)) (k : Q) :
  bus_terms {| linear_vars := map (fun bc => Var_q_nw (fst bc)) l;
               linear_coefs := map snd l; constant := k |} = l.
Proof.
  unfold bus_terms. simpl. induction l as [|[b c] l IH]; [done|].
  simpl. f_equal. exact IH.
Qed.

Lemma bus_terms_p_nw (l : list (string * Q)) (k : Q) :
  bus_terms {| linear_vars := map (fun bc => Var_p_nw (fst bc)) l;
               linear_coefs := map snd l; constant := k |} = l.
Proof.
  unfold bus_terms. simpl. induction l as [|[b c] l IH]; [done|].
  simpl. f_equal. exact IH.
Qed.

Lemma bus_terms_pfl (bns : list string) (k : Q) :
  bus_terms {| linear_vars := map Var_pfl bns;
               linear_coefs := map (fun _ => 1) bns; constant := k |} = [].
Proof.
  unfold bus_terms. simpl. induction bns as [|b bns IH]; [done|].
  simpl. exact IH.
Qed.

Lemma vm_loop_spec (q : gmap string Q) (tol : Q) (it : list (string * Q)) :
  forall cl vl k cl' vl' k',
    vm_loop q tol it cl vl k = Ok (cl', vl', k') ->
    cl' = cl ++ map snd (List.filter (fun bc => Qle_bool tol (Qabs (snd bc))) it)
    /\ vl' = vl ++ map (fun bc => Var_q_nw (fst bc))
                       (List.filter (fun bc => Qle_bool tol (Qabs (snd bc))) it).
Proof.
  induction it as [|[b c] it IH]; intros cl vl k cl' vl' k' H; simpl in *.
  - injection H as <- <- <-. by rewrite !app_nil_r.
  - unfold dict_get in H. destruct (Qle_bool tol (Qabs c)); simpl.
    + destruct (q !! b); simpl in H; [|done].
      apply IH in H as [-> ->]. by rewrite <- !app_assoc.
    + destruct (q !! b); simpl in H; [|done].
      by apply IH in H.
Qed.

Lemma ploss_loop_spec (p : gmap string Q) (tol : Q) (it : list (string * Q)) :
  forall cl vl cl' vl',
    ploss_loop p tol it cl vl = Ok (cl', vl') ->
    cl' = cl ++ map snd (List.filter (fun bc => Qle_bool tol (Qabs (snd bc))) it)
    /\ vl' = vl ++ map (fun bc => Var_p_nw (fst bc))
                       (List.filter (fun bc => Qle_bool tol (Qabs (snd bc))) it).
Proof.
  induction it as [|[b c] it IH]; intros cl vl cl' vl' H; simpl in *.
  - injection H as <- <-. by rewrite !app_nil_r.
  - unfold dict_get in H. destruct (Qle_bool tol (Qabs c)); simpl.
    + destruct (p !! b); simpl in H; [|done].
      apply IH in H as [-> ->]. by rewrite <- !app_assoc.
    + by apply IH in H.
Qed.

Lemma resid_loop_spec (m : model) (F : filtered) (idxs : list nat) :
  forall cl vl cl' vl',
    resid_loop m F idxs cl vl = Ok (cl', vl') ->
    exists bns, cl' = cl ++ map (fun _ => 1) bns /\ vl' = vl ++ map Var_pfl bns.
Proof.
  induction idxs as [|i idxs IH]; intros cl vl cl' vl' H; simpl in *.
  - injection H as <- <-. exists []. by rewrite !app_nil_r.
  - unfold seq_get, dict_get in H.
    destruct (branches_keys_masked F !! i) as [bn|]; simpl in H; [|done].
    destruct (pfl m !! bn); simpl in H; [|done].
    apply IH in H as (bns & -> & ->). exists (bn :: bns).
    by rewrite <- !app_assoc.
Qed.

Lemma elem_of_filter_bool {A : Type} (f : A -> bool) (l : list A) (x : A) :
  x ∈ List.filter f l <-> x ∈ l /\ f x = true.
Proof. rewrite !list_elem_of_In. apply filter_In. Qed.

Lemma bind_ok_inv {A B : Type} (m : M A) (k : A -> M B) (st st' : caches) (b : B) :
  bind m k st = (Ok b, st') ->
  exists a st1, m st = (Ok a, st1) /\ k a st1 = (Ok b, st').
Proof.
  unfold bind. destruct (m st) as [[a|e] st1]; [|done]. intros H. by exists a, st1.
Qed.

Lemma lift_ok_inv {A : Type} (r : result A) (st st' : caches) (a : A) :
  lift r st = (Ok a, st') -> r = Ok a /\ st' = st.
Proof. unfold lift. by intros [= -> ->]. Qed.

Lemma get_vdf_row_hit (E : engine) (bus_name : string) (st : caches) (row : vec) :
  _vdf_rows st !! bus_name = Some row -> _get_vdf_row E bus_name st = (Ok row, st).
Proof. intros H. unfold _get_vdf_row. munfold. by rewrite H. Qed.

Lemma get_vdf_row_ok (E : engine) (bus_name : string) (st st1 : caches) (row : vec) :
  _get_vdf_row E bus_name st = (Ok row, st1) ->
  _vdf_rows st1 !! bus_name = Some row /\ _vdf_const st1 = _vdf_const st.
Proof.
  unfold _get_vdf_row. munfold.
  destruct (_vdf_rows st !! bus_name) as [r0|] eqn:Hc; [by intros [= <- <-]|].
  destruct (_busname_to_index_map E !! bus_name) as [idx|]; simpl; [|done].
  destruct (set_item _ idx 1) as [rhs|]; simpl; [|done].
  destruct (solve (QMLU E) rhs true) as [x|]; simpl; [|done].
  intros [= <- <-]. simpl. split; [apply lookup_insert_eq | done].
Qed.

Lemma get_bus_vdf_const_hit (E : engine) (bus_name : string) (st : caches) (c : Q) :
  _vdf_const st !! bus_name = Some c -> get_bus_vdf_const E bus_name st = (Ok c, st).
Proof. intros H. unfold get_bus_vdf_const. munfold. by rewrite H. Qed.

Lemma get_bus_vdf_const_ok (E : engine) (bus_name : string) (st st1 : caches) (c : Q) :
  get_bus_vdf_const E bus_name st = (Ok c, st1) ->
  _vdf_const st1 !! bus_name = Some c.
Proof.
  unfold get_bus_vdf_const.
  intros (cache & st0 & Hg & H)%bind_ok_inv. injection Hg as <- <-.
  destruct (_vdf_const st !! bus_name) as [c0|] eqn:Hc.
  - injection H as <- <-. done.
  - apply bind_ok_inv in H as (row & st2 & _ & H).
    apply bind_ok_inv in H as (idx & st3 & _ & H).
    apply bind_ok_inv in H as (c1 & st4 & _ & H).
    apply bind_ok_inv in H as ([] & st5 & Hm & H).
    injection H as <- <-. injection Hm as <-. simpl. apply lookup_insert_eq.
Qed.

Lemma get_vm_expr_cached (m : model) (bus_name : string) (E : engine)
    (rel_tol abs_tol : option Q) (st : caches) (const mx : Q) (row : vec)
    (cvc : list Q * list pyvar * Q) :
  _vdf_const st !! bus_name = Some const ->
  _vdf_rows st !! bus_name = Some row ->
  np_abs_max row = Ok mx ->
  vm_loop (q_nw m) (py_max (default 0 abs_tol) (default 0 rel_tol * mx))
          (zip (buses_keys E) row) [] [] const = Ok cvc ->
  get_vm_expr_ptdf_approx m bus_name E rel_tol abs_tol st
  = (Ok {| linear_vars := snd (fst cvc); linear_coefs := fst (fst cvc);
           constant := snd cvc |}, st).
Proof.
  intros Hc Hr Hmx Hloop. unfold get_vm_expr_ptdf_approx.
  unfold bind at 1. rewrite (get_bus_vdf_const_hit E bus_name st const Hc).
  unfold bind at 1. unfold get_bus_vdf_abs_max.
  unfold bind at 1. rewrite (get_vdf_row_hit E bus_name st row Hr).
  unfold lift at 1. rewrite Hmx.
  unfold bind at 1. unfold get_bus_vdf_iterator.
  unfold bind at 1. rewrite (get_vdf_row_hit E bus_name st row Hr).
  unfold ret at 1. unfold bind at 1. unfold lift at 1. rewrite Hloop. done.
Qed.

Lemma get_vm_expr_inv (m : model) (bus_name : string) (E : engine)
    (rel_tol abs_tol : option Q) (st st' : caches) (e : LinearExpression) :
  get_vm_expr_ptdf_approx m bus_name E rel_tol abs_tol st = (Ok e, st') ->
  exists const row mx cvc,
    _vdf_const st' !! bus_name = Some const
    /\ _vdf_rows st' !! bus_name = Some row
    /\ np_abs_max row = Ok mx
    /\ vm_loop (q_nw m) (py_max (default 0 abs_tol) (default 0 rel_tol * mx))
               (zip (buses_keys E) row) [] [] const = Ok cvc
    /\ e = {| linear_vars := snd (fst cvc); linear_coefs := fst (fst cvc);
              constant := snd cvc |}.
Proof.
  unfold get_vm_expr_ptdf_approx.
  intros (const & st1 & Hconst & H)%bind_ok_inv.
  apply bind_ok_inv in H as (mx & st2 & Hmax & H).
  apply bind_ok_inv in H as (it & st3 & Hit & H).
  apply bind_ok_inv in H as (cvc & st4 & Hloop & H).
  injection H as <- <-.
  apply lift_ok_inv in Hloop as [Hloop ->].
  unfold get_bus_vdf_abs_max in Hmax.
  apply bind_ok_inv in Hmax as (row & st2' & Hrow & Hmx).
  apply lift_ok_inv in Hmx as [Hmx ->].
  apply get_vdf_row_ok in Hrow as [Hcached Hsame].
  apply get_bus_vdf_const_ok in Hconst.
  unfold get_bus_vdf_iterator in Hit.
  apply bind_ok_inv in Hit as (row' & st3' & Hrow' & Hret).
  rewrite (get_vdf_row_hit E bus_name st2' row Hcached) in Hrow'.
  injection Hrow' as <- <-. injection Hret as <- <-.
  exists const, row, mx, cvc. rewrite Hsame. done.
Qed.

Lemma calculate_lossfactors_resid (E : engine) (LS : loss_factors) :
  _calculate_lossfactors E = Ok LS ->
  _lossfactor_resid LS = _lossfactor LS /\ _lossoffset_resid LS = _lossoffset LS.
Proof.
  unfold _calculate_lossfactors, rbind.
  destruct (solve (MLU E) _ true); [|done].
  destruct (dict_get _ _); [|done].
  destruct (np_insert _ _ _); [|done].
  destruct (mapR _ _); [|done].
  destruct (np_dot _ _); [|done].
  by intros [= <-].
Qed.

(** C6: in the expression built by [get_vm_expr_ptdf_approx] a
    [(bus, coefficient)] pair of the voltage-sensitivity row is a term exactly
    when [|coef| >= max(abs_tol, rel_tol * row_abs_max)], with [row_abs_max]
    the largest absolute coefficient of that row, and building the expression
    again gives the same variables and coefficients.  The same rule holds for
    [get_ploss_expr_ptdf_approx] on the loss factors (or their residuals) that
    [_calculate_lossfactors] set. *)
Theorem truncation_rule :
  (forall (m : model) (bus_name : string) (E : engine) (rel_tol abs_tol : option Q)
          (st st' : caches) (e : LinearExpression),
      get_vm_expr_ptdf_approx m bus_name E rel_tol abs_tol st = (Ok e, st') ->
      exists row mx,
        _get_vdf_row E bus_name st' = (Ok row, st')
        /\ np_abs_max row = Ok mx
        /\ (forall c, c ∈ row -> Qabs c <= mx)
        /\ mx ∈ vabs row
        /\ (forall b c,
              (b, c) ∈ bus_terms e <->
              (b, c) ∈ zip (buses_keys E) row
              /\ Qmax (default 0 abs_tol) (default 0 rel_tol * mx) <= Qabs c)
        /\ exists e',
             get_vm_expr_ptdf_approx m bus_name E rel_tol abs_tol st' = (Ok e', st')
             /\ linear_vars e' = linear_vars e
             /\ linear_coefs e' = linear_coefs e
             /\ bus_terms e' = bus_terms e)
  /\ (forall (E : engine) (LS : loss_factors) (m : model) (F : filtered)
             (abs_tol rel_tol : Q) (use_residuals : bool) (e : LinearExpression),
         _calculate_lossfactors E = Ok LS ->
         get_ploss_expr_ptdf_approx m LS F abs_tol rel_tol use_residuals = Ok e ->
         let row := if use_residuals then _lossfactor_resid LS else _lossfactor LS in
         exists mx,
           np_abs_max (map snd row) = Ok mx
           /\ (forall b c, (b, c) ∈ row -> Qabs c <= mx)
           /\ (forall b c,
                 (b, c) ∈ bus_terms e <->
                 (b, c) ∈ row /\ Qmax abs_tol (rel_tol * mx) <= Qabs c)).
Proof.
  split.
  - intros m bus_name E rel_tol abs_tol st st' e Hrun.
    destruct (get_vm_expr_inv _ _ _ _ _ _ _ _ Hrun)
      as (const & row & mx & [[cl vl] k] & Hconst & Hrow & Hmx & Hloop & ->).
    destruct (np_abs_max_spec row mx Hmx) as [Hle Hin].
    destruct (vm_loop_spec _ _ _ _ _ _ _ _ _ Hloop) as [Hcl Hvl].
    simpl in Hcl, Hvl. subst cl vl.
    exists row, mx. split; [by apply get_vdf_row_hit|].
    split; [done|]. split; [done|]. split; [done|]. split.
    + intros b c. simpl. rewrite bus_terms_q_nw, elem_of_filter_bool. simpl.
      by rewrite included_iff.
    + eexists. split; [by apply (get_vm_expr_cached m bus_name E rel_tol abs_tol st'
                                    const mx row _ Hconst Hrow Hmx Hloop)|].
      done.
  - intros E LS m F abs_tol rel_tol use_residuals e HLS Hrun row.
    destruct (calculate_lossfactors_resid E LS HLS) as [Hres _].
    assert (Hrow : row = _lossfactor LS)
      by (unfold row; destruct use_residuals; done).
    unfold get_ploss_expr_ptdf_approx, rbind in Hrun.
    fold row in Hrun. unfold get_lossfactor_abs_max in Hrun.
    destruct (np_abs_max (map snd (_lossfactor LS))) as [mx|] eqn:Hmx; [|done].
    destruct (ploss_loop _ _ row [] []) as [[cl vl]|] eqn:Hloop; [|done].
    destruct (ploss_loop_spec _ _ _ _ _ _ _ Hloop) as [Hcl Hvl].
    simpl in Hcl, Hvl.
    exists mx. rewrite Hrow at 1. split; [done|].
    destruct (np_abs_max_spec _ mx Hmx) as [Hle _]. split.
    { intros b c Hbc. apply Hle. rewrite Hrow in Hbc.
      change (map snd ?l) with (snd <$> l).
      by apply (list_elem_of_fmap_2 snd _ (b, c)). }
    assert (Hterms : bus_terms e
                     = List.filter
                         (fun bc => Qle_bool (py_max abs_tol (rel_tol * mx))
                                             (Qabs (snd bc))) row).
    { destruct use_residuals.
      - simpl in Hrun.
        destruct (resid_loop m F (_idx_monitored m) cl vl) as [[cl' vl']|] eqn:Hr;
          [|done].
        destruct (resid_loop_spec _ _ _ _ _ _ _ Hr) as (bns & -> & ->).
        injection Hrun as <-. subst cl vl. simpl.
        rewrite (bus_terms_app _ _ _ _ 0 0) by (by rewrite !length_map).
        by rewrite bus_terms_p_nw, bus_terms_pfl, app_nil_r.
      - simpl in Hrun. injection Hrun as <-. subst cl vl. simpl.
        apply bus_terms_p_nw. }
    intros b c. rewrite Hterms, elem_of_filter_bool. simpl.
    by rewrite included_iff.
Qed.

Lemma truncation_rule_witness :
  (exists e st' row mx,
      get_vm_expr_ptdf_approx model_example "B" E3 (Some (1 # 2)) None (init_caches E3)
      = (Ok e, st')
      /\ _get_vdf_row E3 "B" st' = (Ok row, st')
      /\ np_abs_max row = Ok mx
      /\ (forall b c, (b, c) ∈ bus_terms e <->
                      (b, c) ∈ zip (buses_keys E3) row
                      /\ Qmax 0 ((1 # 2) * mx) <= Qabs c))
  /\ (exists LS e mx,
         _calculate_lossfactors E3 = Ok LS
         /\ get_ploss_expr_ptdf_approx model_example LS F3 0 (1 # 2) true = Ok e
         /\ forall b c, (b, c) ∈ bus_terms e <->
                        (b, c) ∈ _lossfactor_resid LS
                        /\ Qmax 0 ((1 # 2) * mx) <= Qabs c).
Proof.
  destruct truncation_rule as [Hvm Hploss]. split.
  - destruct (get_vm_expr_ptdf_approx model_example "B" E3 (Some (1 # 2)) None
                (init_caches E3)) as [[e|err] st'] eqn:Hrun;
      [| vm_compute in Hrun; discriminate ].
    destruct (Hvm _ _ _ _ _ _ _ _ Hrun) as (row & mx & Hrow & Hmx & _ & _ & Hiff & _).
    by exists e, st', row, mx.
  - destruct (_calculate_lossfactors E3) as [LS|err] eqn:HLS;
      [| vm_compute in HLS; discriminate ].
    destruct (get_ploss_expr_ptdf_approx model_example LS F3 0 (1 # 2) true)
      as [e|err] eqn:Hrun.
    + destruct (Hploss E3 LS model_example F3 0 (1 # 2) true e HLS Hrun)
        as (mx & _ & _ & Hiff).
      by exists LS, e, mx.
    + vm_compute in HLS. injection HLS as <-. vm_compute in Hrun. discriminate.
Defined.

End Truncation.

(** ** Index maps with repeated names *)

Section IndexMapsMore.

Lemma index_map_from_last (keys : list string) :
  forall (o : nat) (m : gmap string nat) (k : string) (n : nat),
    index_map_from o keys m !! k = Some n <->
    (exists i, n = (o + i)%nat /\ keys !! i = Some k
               /\ forall j, (i < j)%nat -> keys !! j <> Some k)
    \/ ((k ∉ keys) /\ m !! k = Some n).
Proof.
  induction keys as [|k0 ks IH]; intros o m k n; simpl.
  - split.
    + intros H. right. split; [by intros ?%elem_of_nil | done].
    + intros [(i & _ & Hi & _) | [_ H]]; done.
  - rewrite IH. split.
    + intros [(i & -> & Hi & Hlast) | [Hnin Hm]].
      * left. exists (S i). split; [lia|]. split; [done|].
        intros [|j] Hj; [lia|]. simpl. apply Hlast. lia.
      * destruct (decide (k0 = k)) as [->|Hne].
        -- rewrite lookup_insert_eq in Hm. injection Hm as <-.
           left. exists 0%nat. split; [lia|]. split; [done|].
           intros [|j] Hj; [lia|]. simpl. intros Hc.
           apply Hnin. apply list_elem_of_lookup. eauto.
        -- rewrite lookup_insert_ne in Hm by done. right. split; [|done].
           intros [?|?]%elem_of_cons; [congruence | done].
    + intros [(i & -> & Hi & Hlast) | [Hnin Hm]].
      * destruct i as [|i].
        -- simpl in Hi. injection Hi as ->. right. split.
           ++ intros (j & Hj)%list_elem_of_lookup.
              apply (Hlast (S j)); [lia | done].
           ++ rewrite lookup_insert_eq. f_equal. lia.
        -- left. exists i. split; [lia|]. split; [done|].
           intros j Hj. apply (Hlast (S j)). lia.
      * apply not_elem_of_cons in Hnin as [Hne Hnin]. right. split; [done|].
        rewrite lookup_insert_ne by done. done.
Qed.

(** X1: the index map sends a name to the position of its last occurrence
    in the key tuple, and to nothing when the name does not occur. *)
Theorem index_map_last_occurrence (keys : list string) (k : string) (i : nat) :
  index_map keys !! k = Some i <->
  keys !! i = Some k /\ forall j, (i < j)%nat -> keys !! j <> Some k.
Proof.
  unfold index_map. rewrite index_map_from_last. split.
  - intros [(i' & -> & Hi & Hlast) | [_ H]]; [done | by rewrite lookup_empty in H].
  - intros [Hi Hlast]. left. by exists i.
Qed.

End IndexMapsMore.

(** ** More on branch filtering *)

Section FilteringMore.

Lemma kept_mono (E : engine) (one1 one2 : bool) (kv1 kv2 : Q) (bn : string) :
  (kv1 <= kv2)%Q -> (one2 = true -> one1 = true) ->
  kept E one2 kv2 bn -> kept E one1 kv1 bn.
Proof.
  intros Hkv Hone (br & fb & Hbr & Hfb & H).
  assert (Hp : forall b, passes_kv kv2 b -> passes_kv kv1 b).
  { intros b. unfold passes_kv. destruct (base_kv b) as [kv|]; [|done].
    intros H2. by eapply Qle_trans. }
  exists br, fb. split; [done|]. split; [done|].
  destruct H as [[H1 H2] | (tb & Htb & H1 & H2)].
  - left. split; [by apply Hp | by apply Hone].
  - right. exists tb. split; [done|]. split; [by apply Hp|].
    destruct H2 as [H2|H2]; [left; by apply Hp | right; by apply Hone].
Qed.

Lemma filter_loop_sound (E : engine) (one : bool) (kv_limit : Q) (keys : list string) :
  forall (i : nat) (mask mask' : list nat) (log log' : list string),
    filter_loop E one kv_limit i keys mask log = Ok (mask', log') ->
    exists extra,
      mask' = mask ++ extra
      /\ log' = log ++ omap (warned_bus E) keys
      /\ StronglySorted lt extra
      /\ Forall (fun x => (i <= x < i + length keys)%nat) extra
      /\ forall p bn, keys !! p = Some bn ->
           ((i + p)%nat ∈ extra <-> kept E one kv_limit bn).
Proof.
  induction keys as [|bn keys IH]; intros i mask mask' log log' Hrun; simpl in Hrun.
  - injection Hrun as <- <-. exists []. rewrite !app_nil_r.
    repeat split; try done; constructor.
  - unfold dict_get in Hrun.
    destruct (_branches E !! bn) as [br|] eqn:Hbr; simpl in Hrun; [|done].
    destruct (_buses E !! from_bus br) as [fb|] eqn:Hfb; simpl in Hrun; [|done].
    pose proof (passes_kv_from kv_limit fb) as Hf.
    set (fbt := match base_kv fb with
                | None => true
                | Some kv => if Qlt_bool kv kv_limit then false else true
                end) in *.
    set (log1 := match base_kv fb with
                 | None => log ++ [from_bus br]
                 | Some _ => log
                 end) in *.
    assert (Hlog : forall l, l = log1 ++ omap (warned_bus E) keys ->
                     l = log ++ omap (warned_bus E) (bn :: keys)).
    { intros l ->. simpl. unfold warned_bus at 2. rewrite Hbr, Hfb.
      unfold log1. destruct (base_kv fb); simpl; [done | by rewrite <- app_assoc]. }
    assert (Hstep : forall keep : bool,
               (keep = true <-> kept E one kv_limit bn) ->
               filter_loop E one kv_limit (S i) keys
                 (if keep then mask ++ [i] else mask) log1 = Ok (mask', log') ->
               exists extra,
                 mask' = mask ++ extra
                 /\ log' = log ++ omap (warned_bus E) (bn :: keys)
                 /\ StronglySorted lt extra
                 /\ Forall (fun x => (i <= x < i + length (bn :: keys))%nat) extra
                 /\ forall p bn0, (bn :: keys) !! p = Some bn0 ->
                      ((i + p)%nat ∈ extra <-> kept E one kv_limit bn0)).
    { intros keep Hkeep Hloop.
      apply IH in Hloop as (extra & -> & Hl & Hsort & Hrange & Hmem).
      exists ((if keep then [i] else []) ++ extra).
      split; [destruct keep; by rewrite <- ?app_assoc|].
      split; [by apply Hlog|].
      assert (Hgt : Forall (lt i) extra).
      { eapply Forall_impl; [exact Hrange|]. simpl. intros x Hx. lia. }
      split; [destruct keep; simpl; [by constructor | done]|].
      split.
      { apply Forall_app. split.
        - destruct keep; [|constructor]. repeat constructor; simpl; lia.
        - eapply Forall_impl; [exact Hrange|]. simpl. intros x Hx. lia. }
      intros [|p] bn0 Hp; simpl in Hp.
      - injection Hp as <-. rewrite Nat.add_0_r, <- Hkeep, elem_of_app. split.
        + intros [Hi | Hi].
          * by destruct keep; [|apply elem_of_nil in Hi].
          * rewrite Forall_forall in Hgt. apply Hgt in Hi. lia.
        + intros ->. left. by left.
      - rewrite elem_of_app, <- (Hmem p bn0 Hp).
        replace (i + S p)%nat with (S i + p)%nat by lia. split.
        + intros [Hi | Hi]; [|done].
          destruct keep; [|by apply elem_of_nil in Hi].
          apply list_elem_of_singleton in Hi. lia.
        + intros Hi. by right. }
    assert (Hkept_of : forall P : Prop,
               (P <-> ((passes_kv kv_limit fb /\ one = true)
                       \/ exists tb, _buses E !! to_bus br = Some tb
                                     /\ passes_kv kv_limit tb
                                     /\ (passes_kv kv_limit fb \/ one = true))) ->
               (P <-> kept E one kv_limit bn)).
    { intros P HP. rewrite HP. split.
      - intros H. by exists br, fb.
      - intros (br' & fb' & Hbr' & Hfb' & H). by simplify_eq. }
    destruct fbt eqn:Hfbt, one eqn:Hone; simpl in Hrun.
    + apply (Hstep true); [|done]. apply Hkept_of. split; [|done].
      intros _. left. split; [by apply Hf | done].
    + destruct (_buses E !! to_bus br) as [tb|] eqn:Htb; simpl in Hrun; [|done].
      pose proof (passes_kv_to kv_limit tb) as Ht.
      destruct (match base_kv tb with
                | None => true
                | Some kv => Qle_bool kv_limit kv
                end) eqn:Htbt; simpl in Hrun.
      * apply (Hstep true); [|done]. apply Hkept_of. split; [|done].
        intros _. right. exists tb. split; [done|]. split; [by apply Ht|].
        left. by apply Hf.
      * apply (Hstep false); [|done]. apply Hkept_of. split; [done|].
        intros [[_ ?] | (tb' & Htb' & H1 & _)]; [done|].
        simplify_eq. apply Ht in H1. done.
    + destruct (_buses E !! to_bus br) as [tb|] eqn:Htb; simpl in Hrun; [|done].
      pose proof (passes_kv_to kv_limit tb) as Ht.
      destruct (match base_kv tb with
                | None => true
                | Some kv => Qle_bool kv_limit kv
                end) eqn:Htbt; simpl in Hrun.
      * apply (Hstep true); [|done]. apply Hkept_of. split; [|done].
        intros _. right. exists tb. split; [done|]. split; [by apply Ht|].
        by right.
      * apply (Hstep false); [|done]. apply Hkept_of. split; [done|].
        intros [[H1 _] | (tb' & Htb' & H1 & _)].
        -- apply Hf in H1. done.
        -- simplify_eq. apply Ht in H1. done.
    + destruct (_buses E !! to_bus br) as [tb|] eqn:Htb; simpl in Hrun; [|done].
      assert (Hno : ~ passes_kv kv_limit fb) by (intros H1; apply Hf in H1; done).
      destruct (match base_kv tb with
                | None => true
                | Some kv => Qle_bool kv_limit kv
                end) eqn:Htbt; simpl in Hrun.
      * apply (Hstep false); [|done]. apply Hkept_of. split; [done|].
        intros [[H1 _] | (tb' & _ & _ & [H1|?])]; done.
      * apply (Hstep false); [|done]. apply Hkept_of. split; [done|].
        intros [[H1 _] | (tb' & _ & _ & [H1|?])]; done.
Qed.

End FilteringMore.

Section FilteringTheorems.

Lemma take_idx_lookup {A : Type} (arr : list A) (idxs : list nat) (l : list A) :
  take_idx arr idxs = Ok l ->
  length l = length idxs
  /\ forall j i, idxs !! j = Some i -> l !! j = arr !! i /\ is_Some (arr !! i).
Proof.
  unfold take_idx. revert l. induction idxs as [|i idxs IH]; intros l H; simpl in H.
  - injection H as <-. split; [done|]. intros j i Hj. done.
  - unfold seq_get in H at 1. destruct (arr !! i) as [x|] eqn:Hx; simpl in H; [|done].
    destruct (mapR (seq_get arr) idxs) as [l'|]; simpl in H; [|done].
    injection H as <-. destruct (IH l' eq_refl) as [Hlen Hl].
    split; [simpl; by rewrite Hlen|].
    intros [|j] i' Hj; simpl in *.
    + injection Hj as <-. by rewrite Hx.
    + by apply Hl.
Qed.

Lemma seq_strongly_sorted (n : nat) : forall a, StronglySorted lt (seq a n).
Proof.
  induction n as [|n IH]; intros a; simpl; constructor; [apply IH|].
  apply Forall_forall. intros x Hx. apply list_elem_of_In, in_seq in Hx. lia.
Qed.

Lemma get_filtered_lines_mask (E : engine) (o : ptdf_options) (kv_limit : Q)
    (F : filtered) (w : list string) :
  branch_kv_threshold o = Some kv_limit ->
  _get_filtered_lines E o = Ok (F, w) ->
  w = omap (warned_bus E) (branches_keys E)
  /\ StronglySorted lt (branch_mask F)
  /\ (forall i, i ∈ branch_mask F <->
        exists bn, branches_keys E !! i = Some bn
                   /\ kept E (bool_decide (kv_threshold_type o = "one")) kv_limit bn)
  /\ take_idx (branches_keys E) (branch_mask F) = Ok (branches_keys_masked F)
  /\ take_idx (rows (B_dA E)) (branch_mask F) = Ok (rows (B_dA_masked F))
  /\ take_idx (phase_shift_flow_adjuster_array E) (branch_mask F)
     = Ok (phase_shift_flow_adjuster_array_masked F)
  /\ take_idx (branch_limits_array E) (branch_mask F)
     = Ok (branch_limits_array_masked F)
  /\ ncols (B_dA_masked F) = ncols (B_dA E)
  /\ branchname_to_index_masked_map F = index_map (branches_keys_masked F).
Proof.
  intros Hkv Hrun. unfold _get_filtered_lines in Hrun. rewrite Hkv in Hrun.
  set (one := bool_decide (kv_threshold_type o = "one")) in *.
  destruct (filter_loop E one kv_limit 0 (branches_keys E) [] []) as [[mask log]|] eqn:Hloop;
    simpl in Hrun; [|done].
  destruct (take_idx (branches_keys E) mask) as [km|] eqn:Hkm; simpl in Hrun; [|done].
  unfold sp_take in Hrun.
  destruct (take_idx (rows (B_dA E)) mask) as [rm|] eqn:Hrm; simpl in Hrun; [|done].
  destruct (take_idx (phase_shift_flow_adjuster_array E) mask) as [pm|] eqn:Hpm;
    simpl in Hrun; [|done].
  destruct (take_idx (branch_limits_array E) mask) as [lm|] eqn:Hlm;
    simpl in Hrun; [|done].
  injection Hrun as <- <-. simpl.
  apply filter_loop_sound in Hloop as (extra & -> & -> & Hsort & Hrange & Hmem).
  simpl. repeat split; try done.
  - intros Hi. rewrite Forall_forall in Hrange.
    pose proof (Hrange i Hi) as Hlt. simpl in Hlt.
    destruct (lookup_lt_is_Some_2 (branches_keys E) i) as [bn Hbn]; [lia|].
    exists bn. split; [done|]. by apply (Hmem i bn Hbn).
  - intros (bn & Hbn & Hk). by apply (Hmem i bn Hbn).
Qed.

(** X2: whatever the options, the masked attributes computed by
    [_get_filtered_lines] are aligned with the mask: the mask is strictly
    increasing, entry [j] of every masked array is entry [mask[j]] of the
    full array, and the masked index map is the index map of the masked
    keys. *)
Theorem filtered_lines_aligned (E : engine) (o : ptdf_options) (F : filtered)
    (w : list string) :
  _get_filtered_lines E o = Ok (F, w) ->
  StronglySorted lt (branch_mask F)
  /\ branchname_to_index_masked_map F = index_map (branches_keys_masked F)
  /\ ncols (B_dA_masked F) = ncols (B_dA E)
  /\ forall j i, branch_mask F !! j = Some i ->
       branches_keys_masked F !! j = branches_keys E !! i
       /\ rows (B_dA_masked F) !! j = rows (B_dA E) !! i
       /\ phase_shift_flow_adjuster_array_masked F !! j
          = phase_shift_flow_adjuster_array E !! i
       /\ branch_limits_array_masked F !! j = branch_limits_array E !! i.
Proof.
  intros Hrun. destruct (branch_kv_threshold o) as [kv_limit|] eqn:Hkv.
  - destruct (get_filtered_lines_mask E o kv_limit F w Hkv Hrun)
      as (_ & Hsort & _ & Hk & Hr & Hp & Hl & Hn & Hm).
    split; [done|]. split; [done|]. split; [done|].
    intros j i Hj.
    destruct (take_idx_lookup _ _ _ Hk) as [_ Hk'].
    destruct (take_idx_lookup _ _ _ Hr) as [_ Hr'].
    destruct (take_idx_lookup _ _ _ Hp) as [_ Hp'].
    destruct (take_idx_lookup _ _ _ Hl) as [_ Hl'].
    repeat split; [by apply Hk' | by apply Hr' | by apply Hp' | by apply Hl'].
  - unfold _get_filtered_lines in Hrun. rewrite Hkv in Hrun.
    injection Hrun as <- <-. simpl.
    split; [apply seq_strongly_sorted|]. split; [done|]. split; [done|].
    intros j i Hj. apply lookup_seq in Hj as [-> _]. done.
Qed.

Lemma filtered_lines_aligned_witness :
  exists F w,
    _get_filtered_lines E3 (opts_kv 100 "one") = Ok (F, w)
    /\ StronglySorted lt (branch_mask F)
    /\ branches_keys_masked F !! 1%nat = branches_keys E3 !! 1%nat.
Proof.
  destruct (_get_filtered_lines E3 (opts_kv 100 "one")) as [[F w]|err] eqn:Hrun;
    [| vm_compute in Hrun; discriminate ].
  destruct (filtered_lines_aligned E3 _ F w Hrun) as (Hsort & _ & _ & Hal).
  exists F, w. split; [done|]. split; [done|].
  apply (Hal 1%nat 1%nat).
  vm_compute in Hrun. injection Hrun as <- _. reflexivity.
Defined.

(** X3: raising the voltage threshold, or going from mode "one" to another
    mode, never adds a branch to the mask. *)
Theorem filtering_monotone (E : engine) (o1 o2 : ptdf_options) (kv1 kv2 : Q)
    (F1 F2 : filtered) (w1 w2 : list string) :
  branch_kv_threshold o1 = Some kv1 ->
  branch_kv_threshold o2 = Some kv2 ->
  (kv1 <= kv2)%Q ->
  (kv_threshold_type o2 = "one" -> kv_threshold_type o1 = "one") ->
  _get_filtered_lines E o1 = Ok (F1, w1) ->
  _get_filtered_lines E o2 = Ok (F2, w2) ->
  forall i, i ∈ branch_mask F2 -> i ∈ branch_mask F1.
Proof.
  intros Hk1 Hk2 Hle Hmode H1 H2 i Hi.
  destruct (get_filtered_lines_mask E o1 kv1 F1 w1 Hk1 H1) as (_ & _ & Hm1 & _).
  destruct (get_filtered_lines_mask E o2 kv2 F2 w2 Hk2 H2) as (_ & _ & Hm2 & _).
  apply Hm2 in Hi as (bn & Hbn & Hkept). apply Hm1. exists bn. split; [done|].
  eapply kept_mono; [exact Hle | | exact Hkept].
  intros Hone. apply bool_decide_eq_true in Hone.
  apply bool_decide_eq_true. by apply Hmode.
Qed.

Lemma filtering_monotone_witness :
  exists F1 F2 w1 w2,
    _get_filtered_lines E3 (opts_kv 100 "one") = Ok (F1, w1)
    /\ _get_filtered_lines E3 (opts_kv 200 "one") = Ok (F2, w2)
    /\ branch_mask F2 = [1%nat]
    /\ (forall i, i ∈ branch_mask F2 -> i ∈ branch_mask F1)
    /\ 1%nat ∈ branch_mask F1.
Proof.
  destruct (_get_filtered_lines E3 (opts_kv 100 "one")) as [[F1 w1]|err] eqn:H1;
    [| vm_compute in H1; discriminate ].
  destruct (_get_filtered_lines E3 (opts_kv 200 "one")) as [[F2 w2]|err] eqn:H2;
    [| vm_compute in H2; discriminate ].
  assert (Hm2 : branch_mask F2 = [1%nat]).
  { vm_compute in H2. injection H2 as <- _. reflexivity. }
  pose proof (filtering_monotone E3 (opts_kv 100 "one") (opts_kv 200 "one") 100 200
                F1 F2 w1 w2 eq_refl eq_refl) as Hmono.
  exists F1, F2, w1, w2. split; [done|]. split; [done|]. split; [exact Hm2|].
  assert (Hincl : forall i, i ∈ branch_mask F2 -> i ∈ branch_mask F1).
  { apply Hmono; [vm_compute; discriminate | done | done | done]. }
  split; [exact Hincl|]. apply Hincl. rewrite Hm2. by left.
Defined.

(** X4: with a threshold set, the warnings logged by [_get_filtered_lines]
    are, in branch order, the from-bus of every branch whose from-bus has no
    [base_kv]: once per such branch, and never for a to-bus; without a
    threshold nothing is logged. *)
Theorem filtering_warnings (E : engine) (o : ptdf_options) (F : filtered)
    (w : list string) :
  _get_filtered_lines E o = Ok (F, w) ->
  w = match branch_kv_threshold o with
      | Some _ => omap (warned_bus E) (branches_keys E)
      | None => []
      end.
Proof.
  intros Hrun. destruct (branch_kv_threshold o) as [kv_limit|] eqn:Hkv.
  - by destruct (get_filtered_lines_mask E o kv_limit F w Hkv Hrun) as (-> & _).
  - unfold _get_filtered_lines in Hrun. rewrite Hkv in Hrun. by injection Hrun as <- <-.
Qed.

Lemma filtering_warnings_witness :
  exists F, _get_filtered_lines E3 (opts_kv 100 "both") = Ok (F, []).
Proof.
  destruct (_get_filtered_lines E3 (opts_kv 100 "both")) as [[F w]|err] eqn:Hrun;
    [| vm_compute in Hrun; discriminate ].
  exists F. rewrite (filtering_warnings E3 _ F w Hrun). reflexivity.
Defined.

End FilteringTheorems.

Section FilteringErrors.

Lemma filter_loop_app (E : engine) (one : bool) (kv_limit : Q) (pre rest : list string) :
  forall (i : nat) (mask : list nat) (log : list string),
    filter_loop E one kv_limit i (pre ++ rest) mask log
    = match filter_loop E one kv_limit i pre mask log with
      | Ok ml => filter_loop E one kv_limit (i + length pre) rest (fst ml) (snd ml)
      | Raise e => Raise e
      end.
Proof.
  induction pre as [|bn pre IH]; intros i mask log; simpl.
  - by rewrite Nat.add_0_r.
  - replace (i + S (length pre))%nat with (S i + length pre)%nat by lia.
    unfold rbind, dict_get.
    destruct (_branches E !! bn) as [br|]; [|done].
    destruct (_buses E !! from_bus br) as [fb|]; [|done].
    destruct (_ && one); [apply IH|].
    destruct (_buses E !! to_bus br) as [tb|]; [|done].
    destruct (_ && _); [apply IH|].
    destruct (one && _); apply IH.
Qed.

Lemma filter_loop_resolved (E : engine) (one : bool) (kv_limit : Q) (keys : list string)
    (i : nat) (mask : list nat) (log : list string) :
  (forall bn, bn ∈ keys -> resolved E bn) ->
  exists ml, filter_loop E one kv_limit i keys mask log = Ok ml.
Proof.
  intros Hres.
  destruct (filter_loop_spec E one kv_limit keys i mask log Hres)
    as (mask' & log' & H & _).
  by eexists.
Qed.

(** X5: with a threshold set, filtering stops at the first branch name whose
    lookups fail and raises [KeyError] on the missing name: the branch name
    when it is not a branch, the from-bus when it is not a bus, and the
    to-bus when it is not a bus and the loop gets to look it up (the mode is
    not "one", or the from-bus does not pass). *)
Theorem filtering_missing_key (E : engine) (o : ptdf_options) (kv_limit : Q)
    (pre post : list string) (bn : string) :
  branch_kv_threshold o = Some kv_limit ->
  branches_keys E = pre ++ bn :: post ->
  (forall b, b ∈ pre -> resolved E b) ->
  (_branches E !! bn = None ->
   _get_filtered_lines E o = Raise (KeyError (KStr bn)))
  /\ (forall br, _branches E !! bn = Some br ->
        _buses E !! from_bus br = None ->
        _get_filtered_lines E o = Raise (KeyError (KStr (from_bus br))))
  /\ (forall br fb, _branches E !! bn = Some br ->
        _buses E !! from_bus br = Some fb ->
        _buses E !! to_bus br = None ->
        ~ (kv_threshold_type o = "one" /\ passes_kv kv_limit fb) ->
        _get_filtered_lines E o = Raise (KeyError (KStr (to_bus br)))).
Proof.
  intros Hkv Hkeys Hres.
  set (one := bool_decide (kv_threshold_type o = "one")).
  destruct (filter_loop_resolved E one kv_limit pre 0 [] [] Hres) as ([m l] & Hpre).
  assert (Hrun : forall e,
             filter_loop E one kv_limit (0 + length pre) (bn :: post) m l = Raise e ->
             _get_filtered_lines E o = Raise e).
  { intros e He. unfold _get_filtered_lines. rewrite Hkv, Hkeys. fold one.
    rewrite filter_loop_app, Hpre. simpl fst. simpl snd. by rewrite He. }
  split; [|split].
  - intros Hbr. apply Hrun. simpl. unfold dict_get. by rewrite Hbr.
  - intros br Hbr Hfb. apply Hrun. simpl. unfold dict_get. rewrite Hbr. simpl.
    by rewrite Hfb.
  - intros br fb Hbr Hfb Htb Hno. apply Hrun. simpl. unfold dict_get.
    rewrite Hbr. simpl. rewrite Hfb. simpl.
    pose proof (passes_kv_from kv_limit fb) as Hf.
    destruct (match base_kv fb with
              | None => true
              | Some kv => if Qlt_bool kv kv_limit then false else true
              end) eqn:Hfbt, one eqn:Hone; simpl; rewrite ?Htb; try done.
    exfalso. apply Hno. split; [by apply bool_decide_eq_true in Hone | by apply Hf].
Qed.

Lemma filtering_missing_key_witness :
  _get_filtered_lines E3_noC (opts_kv 50 "both") = Raise (KeyError (KStr "C")).
Proof.
  destruct (filtering_missing_key E3_noC (opts_kv 50 "both") 50 ["branch1"] []
              "branch2" eq_refl eq_refl) as (_ & _ & H).
  - intros b Hb. apply list_elem_of_singleton in Hb as ->.
    eexists _, _, _. split; [|split]; vm_compute; reflexivity.
  - apply (H {| from_bus := "B"; to_bus := "C"; rating_long_term := 80 |}
             {| base_kv := Some 69%Q; v_min := 9 # 10; v_max := 11 # 10 |});
      [vm_compute; reflexivity | vm_compute; reflexivity | vm_compute; reflexivity |].
    intros [Hmode _]. discriminate.
Defined.

Lemma filter_loop_one_all (E : engine) (kv_limit : Q) (keys : list string) :
  forall (i : nat) (mask : list nat) (log : list string),
    (forall bn, bn ∈ keys ->
       exists br fb, _branches E !! bn = Some br
                     /\ _buses E !! from_bus br = Some fb
                     /\ passes_kv kv_limit fb) ->
    exists log',
      filter_loop E true kv_limit i keys mask log
      = Ok (mask ++ seq i (length keys), log').
Proof.
  induction keys as [|bn keys IH]; intros i mask log Hall; simpl.
  - exists log. by rewrite app_nil_r.
  - destruct (Hall bn) as (br & fb & Hbr & Hfb & Hp); [by left|].
    unfold dict_get. rewrite Hbr. simpl. rewrite Hfb. simpl.
    apply passes_kv_from in Hp. rewrite Hp. simpl.
    destruct (IH (S i) (mask ++ [i])
                 (match base_kv fb with
                  | None => log ++ [from_bus br]
                  | Some _ => log
                  end)) as (log' & ->).
    { intros bn' Hin. apply Hall. by right. }
    exists log'. by rewrite <- app_assoc.
Qed.

Lemma take_idx_seq {A : Type} (arr : list A) :
  take_idx arr (seq 0 (length arr)) = Ok arr.
Proof.
  unfold take_idx.
  assert (H : forall (pre suf : list A),
             mapR (seq_get (pre ++ suf)) (seq (length pre) (length suf)) = Ok suf).
  { intros pre suf. revert pre. induction suf as [|x suf IH]; intros pre; [done|].
    simpl. unfold seq_get at 1.
    rewrite lookup_app_r, Nat.sub_diag by lia. simpl.
    specialize (IH (pre ++ [x])). rewrite <- app_assoc in IH. simpl in IH.
    rewrite length_app in IH. simpl in IH.
    replace (length pre + 1)%nat with (S (length pre)) in IH by lia.
    by rewrite IH. }
  apply (H [] arr).
Qed.

(** X6: under mode "one" a branch whose from-bus passes the threshold is
    kept without its to-bus being looked up: when every branch has such a
    from-bus, all branches are kept and the masked arrays are the full ones,
    even if some to-bus is not in the bus dictionary. *)
Theorem filtering_one_skips_to_bus (E : engine) (o : ptdf_options) (kv_limit : Q) :
  branch_kv_threshold o = Some kv_limit ->
  kv_threshold_type o = "one" ->
  branch_arrays_ok E ->
  (forall bn, bn ∈ branches_keys E ->
     exists br fb, _branches E !! bn = Some br
                   /\ _buses E !! from_bus br = Some fb
                   /\ passes_kv kv_limit fb) ->
  exists F w,
    _get_filtered_lines E o = Ok (F, w)
    /\ branch_mask F = seq 0 (length (branches_keys E))
    /\ branches_keys_masked F = branches_keys E
    /\ rows (B_dA_masked F) = rows (B_dA E)
    /\ branch_limits_array_masked F = branch_limits_array E.
Proof.
  intros Hkv Hmode (HB & Hps & Hlim) Hall.
  unfold _get_filtered_lines. rewrite Hkv.
  rewrite bool_decide_eq_true_2 by done.
  destruct (filter_loop_one_all E kv_limit (branches_keys E) 0 [] [] Hall)
    as (log' & ->).
  assert (H1 : take_idx (rows (B_dA E)) (seq 0 (length (branches_keys E)))
               = Ok (rows (B_dA E))) by (rewrite <- HB; apply take_idx_seq).
  assert (H2 : take_idx (phase_shift_flow_adjuster_array E)
                 (seq 0 (length (branches_keys E)))
               = Ok (phase_shift_flow_adjuster_array E))
    by (rewrite <- Hps; apply take_idx_seq).
  assert (H3 : take_idx (branch_limits_array E) (seq 0 (length (branches_keys E)))
               = Ok (branch_limits_array E)) by (rewrite <- Hlim; apply take_idx_seq).
  simpl. unfold sp_take.
  rewrite take_idx_seq. simpl. rewrite H1. simpl. rewrite H2. simpl.
  rewrite H3. simpl. eexists _, _. split; [reflexivity|]. done.
Qed.

Lemma filtering_one_skips_to_bus_witness :
  exists F w,
    _get_filtered_lines E3_noC (opts_kv 50 "one") = Ok (F, w)
    /\ branch_mask F = [0; 1]%nat.
Proof.
  destruct (filtering_one_skips_to_bus E3_noC (opts_kv 50 "one") 50 eq_refl eq_refl)
    as (F & w & Hrun & Hmask & _).
  - repeat split; reflexivity.
  - intros bn Hbn. apply elem_of_cons in Hbn as [-> | Hbn].
    + eexists _, _. split; [vm_compute; reflexivity|].
      split; [vm_compute; reflexivity|]. vm_compute. discriminate.
    + apply list_elem_of_singleton in Hbn as ->.
      eexists _, _. split; [vm_compute; reflexivity|].
      split; [vm_compute; reflexivity|]. vm_compute. discriminate.
  - by exists F, w.
Defined.

End FilteringErrors.

(** ** More on the row caches *)

Section RowCacheMore.

Lemma serve_cached_after (E : engine) (r : request) (st st1 : caches) (v : vec) :
  serve E r st = (Ok v, st1) -> cached st1 r = Some v.
Proof.
  intros Hs. destruct (cached st r) as [v0|] eqn:Hc.
  - rewrite (serve_hit E r st v0 Hc) in Hs. by injection Hs as <- <-.
  - destruct (serve_miss E r st Hc) as (st' & Hs' & _ & Hcached & _).
    rewrite Hs in Hs'. injection Hs' as Hv <-.
    rewrite Hcached, decide_True by done. by rewrite <- Hv.
Qed.

(** X8: a contingency-row or interface-row request that succeeded returns
    the same vector when repeated and then changes nothing, in whatever state
    the first request was made. *)
Theorem row_requests_idempotent (E : engine) (st st1 : caches) (v : vec) :
  (forall cn b, _get_contingency_row E cn b st = (Ok v, st1) ->
                _get_contingency_row E cn b st1 = (Ok v, st1))
  /\ (forall i, _get_interface_row E i st = (Ok v, st1) ->
                _get_interface_row E i st1 = (Ok v, st1)).
Proof.
  split.
  - intros cn b Hs. apply (serve_hit E (ReqContingency cn b)).
    by apply (serve_cached_after E (ReqContingency cn b) st).
  - intros i Hs. apply (serve_hit E (ReqInterface i)).
    by apply (serve_cached_after E (ReqInterface i) st).
Qed.

Lemma row_requests_idempotent_witness :
  exists v st1,
    _get_contingency_row E3 "c1" "branch2" (init_caches E3) = (Ok v, st1)
    /\ _get_contingency_row E3 "c1" "branch2" st1 = (Ok v, st1).
Proof.
  destruct (_get_contingency_row E3 "c1" "branch2" (init_caches E3))
    as [[v|err] st1] eqn:Hs; [| vm_compute in Hs; discriminate ].
  exists v, st1. split; [done|].
  destruct (row_requests_idempotent E3 (init_caches E3) st1 v) as [H _].
  by apply H.
Defined.

(** X9: no row request, successful or not, removes or changes an entry that
    is already in one of the three row caches. *)
Theorem cache_entries_persist (E : engine) (r r' : request) (st : caches) (v : vec) :
  cached st r' = Some v ->
  cached (snd (serve E r st)) r' = Some v.
Proof.
  intros Hc'. destruct (cached st r) as [v0|] eqn:Hc.
  - by rewrite (serve_hit E r st v0 Hc).
  - destruct (serve_miss E r st Hc) as (st' & Hs & _ & Hcached & _).
    rewrite Hs. simpl. rewrite Hcached.
    destruct (decide (r' = r)) as [->|]; [congruence | done].
Qed.

Lemma cache_entries_persist_witness :
  cached (snd (serve E3 (ReqBranch "branch9") caches_example))
         (ReqContingency "c1" "branch1")
  = Some [-10 # 2; 0 # 2]%Q.
Proof.
  apply cache_entries_persist. vm_compute. reflexivity.
Defined.

(** X10: a row request that raises, for whatever reason, leaves the three
    row caches and the voltage caches as they were and keeps the length of the
    write buffer. *)
Theorem failed_request_keeps_caches (E : engine) (r : request) (st st' : caches)
    (e : exn) :
  serve E r st = (Raise e, st') ->
  _ptdf_rows st' = _ptdf_rows st
  /\ _interface_rows st' = _interface_rows st
  /\ _contingency_rows st' = _contingency_rows st
  /\ _vdf_rows st' = _vdf_rows st
  /\ _vdf_const st' = _vdf_const st
  /\ length (_bus_sensi_buffer st') = length (_bus_sensi_buffer st).
Proof.
  intros Hs. destruct (cached st r) as [v0|] eqn:Hc.
  - by rewrite (serve_hit E r st v0 Hc) in Hs.
  - destruct (serve_miss E r st Hc) as (st1 & Hs1 & Hb & Hcached & Hv & Hvc).
    rewrite Hs in Hs1. injection Hs1 as Hf <-.
    assert (Hsame : forall r', cached st' r' = cached st r').
    { intros r'. rewrite Hcached, <- Hf. simpl.
      destruct (decide (r' = r)) as [->|]; [by rewrite Hc | done]. }
    repeat split; try done.
    + apply map_eq. intros b. apply (Hsame (ReqBranch b)).
    + apply map_eq. intros i. apply (Hsame (ReqInterface i)).
    + apply map_eq. intros [cn b]. apply (Hsame (ReqContingency cn b)).
Qed.

Lemma failed_request_keeps_caches_witness :
  exists e st',
    serve E3 (ReqContingency "c9" "branch1") caches_example = (Raise e, st')
    /\ _contingency_rows st' = _contingency_rows caches_example.
Proof.
  destruct (serve E3 (ReqContingency "c9" "branch1") caches_example)
    as [[v|e] st'] eqn:Hs; [ vm_compute in Hs; discriminate |].
  exists e, st'. split; [done|].
  by destruct (failed_request_keeps_caches E3 _ _ _ _ Hs) as (_ & _ & H & _).
Defined.

(** X11: after any sequence of row requests on a freshly built engine, the
    caches hold rows for registered names only: branch names of the branch
    keys, interface names of the interface keys, and contingency names that
    have a compensator. *)
Theorem caches_hold_registered_names (E : engine) (reqs : list request) :
  let st := snd (run_requests E reqs (init_caches E)) in
  (forall b, is_Some (_ptdf_rows st !! b) -> b ∈ branches_keys E)
  /\ (forall i, is_Some (_interface_rows st !! i) -> i ∈ interface_keys E)
  /\ (forall cn b, is_Some (_contingency_rows st !! (cn, b)) ->
        b ∈ branches_keys E /\ is_Some (contingency_compensators E !! cn)).
Proof.
  intros st.
  destruct (run_requests_spec E reqs _ (init_caches_inv E)) as (_ & Hinv & _ & _).
  fold st in Hinv. split; [|split].
  - intros b [v Hv]. destruct (decide (b ∈ branches_keys E)) as [|Hn]; [done|].
    pose proof (Hinv (ReqBranch b) v Hv) as Hf.
    destruct (fresh_answer_unknown_branch E (length (_bus_sensi_buffer st)) b Hn)
      as [Hr _]. congruence.
  - intros i [v Hv]. destruct (decide (i ∈ interface_keys E)) as [|Hn]; [done|].
    pose proof (Hinv (ReqInterface i) v Hv) as Hf.
    rewrite (fresh_answer_unknown_interface E _ i Hn) in Hf. done.
  - intros cn b [v Hv]. pose proof (Hinv (ReqContingency cn b) v Hv) as Hf.
    destruct (decide (b ∈ branches_keys E)) as [Hb|Hn].
    + split; [done|].
      destruct (contingency_compensators E !! cn) as [cc|] eqn:Hcc; [by eexists|].
      rewrite (fresh_answer_unknown_contingency E _ cn b Hb Hcc) in Hf. done.
    + destruct (fresh_answer_unknown_branch E (length (_bus_sensi_buffer st)) b Hn)
        as [_ Hr]. rewrite Hr in Hf. done.
Qed.

End RowCacheMore.

(** ** Row iterators and absolute maxima *)

Section Iterators.

Local Open Scope Q_scope.

Lemma no_ref_not_reference (E : engine) (bus_name : string) :
  bus_name ∈ buses_keys_no_ref E ->
  bus_name <> _reference_bus E /\ bus_name ∈ buses_keys E.
Proof.
  unfold buses_keys_no_ref. intros H.
  apply list_elem_of_filter in H as [H1 H2]. done.
Qed.

(** X12: for a registered branch the PTDF iterator yields exactly one
    coefficient for every bus other than the reference bus, in the order of
    the bus keys, and never a pair for the reference bus. *)
Theorem ptdf_iterator_covers_buses (E : engine) (b : string) (st : caches) :
  rows_ok E ->
  length (_bus_sensi_buffer st) = length (buses_keys_no_ref E) ->
  cache_inv E st ->
  b ∈ branches_keys E ->
  exists it st',
    get_branch_ptdf_iterator E b st = (Ok it, st')
    /\ map fst it = buses_keys_no_ref E
    /\ forall bus_name c, (bus_name, c) ∈ it ->
         bus_name <> _reference_bus E /\ bus_name ∈ buses_keys E.
Proof.
  intros Hok Hbuf Hinv Hb.
  destruct (registered_row_cached E b st Hok Hbuf Hinv Hb)
    as (idx & x & st1 & _ & _ & Hxl & H1 & _).
  exists (zip (buses_keys_no_ref E) (vneg x)), st1.
  split; [unfold get_branch_ptdf_iterator, bind; by rewrite H1|].
  split.
  - change (map fst ?l) with (fst <$> l). apply fst_zip.
    rewrite length_vneg, Hxl. done.
  - intros bus_name c Hin. apply elem_of_zip_l in Hin.
    by apply no_ref_not_reference.
Qed.

Lemma ptdf_iterator_covers_buses_witness :
  exists it st',
    get_branch_ptdf_iterator E3 "branch1" (init_caches E3) = (Ok it, st')
    /\ map fst it = ["B"; "C"]%string.
Proof.
  assert (Hok : rows_ok E3).
  { split; [reflexivity|]. split; [repeat constructor|].
    intros v trans Hv. simpl. rewrite decide_True by exact Hv.
    eexists. split; [reflexivity|]. by destruct trans. }
  assert (Hb : "branch1" ∈ branches_keys E3) by by_compute.
  destruct (ptdf_iterator_covers_buses E3 "branch1" (init_caches E3) Hok eq_refl
              (init_caches_inv E3) Hb) as (it & st' & Hrun & Hfst & _).
  by exists it, st'.
Defined.

(** X13: when [get_branch_ptdf_abs_max] returns, its value bounds the
    absolute value of every coefficient the iterator of the same branch
    yields afterwards, and it is the absolute value of one entry of the
    row. *)
Theorem ptdf_abs_max_bounds (E : engine) (b : string) (st st' : caches) (mx : Q) :
  get_branch_ptdf_abs_max E b st = (Ok mx, st') ->
  exists it row,
    get_branch_ptdf_iterator E b st' = (Ok it, st')
    /\ _get_ptdf_row E b st' = (Ok row, st')
    /\ it = zip (buses_keys_no_ref E) row
    /\ (forall bus_name c, (bus_name, c) ∈ it -> Qabs c <= mx)
    /\ exists c, c ∈ row /\ mx = Qabs c.
Proof.
  unfold get_branch_ptdf_abs_max.
  intros (row & st1 & Hrow & Hmx)%bind_ok_inv.
  apply lift_ok_inv in Hmx as [Hmx ->].
  pose proof (serve_cached_after E (ReqBranch b) st st1 row Hrow) as Hc.
  pose proof (serve_hit E (ReqBranch b) st1 row Hc) as Hhit. simpl in Hhit.
  destruct (np_abs_max_spec row mx Hmx) as [Hle Hin].
  exists (zip (buses_keys_no_ref E) row), row.
  split; [unfold get_branch_ptdf_iterator, bind; by rewrite Hhit|].
  split; [done|]. split; [done|]. split.
  - intros bus_name c Hbc. apply elem_of_zip_r in Hbc. by apply Hle.
  - unfold vabs in Hin. change (map Qabs row) with (Qabs <$> row) in Hin.
    apply list_elem_of_fmap in Hin as (c & -> & Hc'). by exists c.
Qed.

Lemma ptdf_abs_max_bounds_witness :
  exists mx st' it,
    get_branch_ptdf_abs_max E3 "branch2" (init_caches E3) = (Ok mx, st')
    /\ get_branch_ptdf_iterator E3 "branch2" st' = (Ok it, st')
    /\ forall bus_name c, (bus_name, c) ∈ it -> Qabs c <= mx.
Proof.
  destruct (get_branch_ptdf_abs_max E3 "branch2" (init_caches E3))
    as [[mx|err] st'] eqn:Hrun; [| vm_compute in Hrun; discriminate ].
  destruct (ptdf_abs_max_bounds E3 "branch2" _ st' mx Hrun)
    as (it & row & Hit & _ & _ & Hle & _).
  by exists mx, st', it.
Defined.

End Iterators.

(** ** The flow evaluator *)

Section FlowEvaluator.

Lemma mapR_ok {A B : Type} (f : A -> result B) (l : list A) :
  (forall x, x ∈ l -> exists y, f x = Ok y) ->
  exists ys, mapR f l = Ok ys /\ length ys = length l.
Proof.
  induction l as [|x l IH]; intros H; simpl.
  - by exists [].
  - destruct (H x) as (y & ->); [by left|].
    destruct IH as (ys & -> & Hlen); [intros x' Hx'; apply H; by right|].
    simpl. exists (y :: ys). simpl. by rewrite Hlen.
Qed.

Lemma sp_matvec_length (B : spmatrix) (v out : vec) :
  sp_matvec B v = Ok out -> length out = length (rows B) /\ ncols B = length v.
Proof.
  unfold sp_matvec. destruct (decide (ncols B = length v)); [|done].
  intros [= <-]. by rewrite length_map.
Qed.

Lemma Qopp_zero : (- 0)%Q = 0%Q.
Proof. reflexivity. Qed.

(** X14: on an engine of consistent shapes, with a withdrawal for every
    non-reference bus, [calculate_PFV] returns one flow per row of [B_dA],
    one flow per row of [B_dA_I] and one angle per bus key, the angle at the
    reference bus's index-map position being zero; exactly one solve is
    counted and no cache changes. *)
Theorem calculate_PFV_shapes (E : engine) (F : filtered) (m : model) (st : caches) :
  flow_ok E m ->
  exists PFV PFV_I VA k,
    calculate_PFV E F m st = (Ok (PFV, PFV_I, VA), count_solve st)
    /\ length PFV = length (rows (B_dA E))
    /\ length PFV_I = length (rows (B_dA_I E))
    /\ length VA = length (buses_keys E)
    /\ _busname_to_index_map E !! _reference_bus E = Some k
    /\ VA !! k = Some 0%Q.
Proof.
  intros (Hnd & Href & HcB & HcI & Hphi & Hps & HpsI & Hp & Hsolve).
  destruct (mapR_ok (dict_get (p_nw m)) (buses_keys_no_ref E)) as (NWV0 & HN & HNl).
  { intros b Hb. destruct (Hp b Hb) as [x Hx]. exists x. unfold dict_get. by rewrite Hx. }
  assert (Hadd : sparse_radd NWV0 (phi_adjust_array E)
                 = Ok (zip_with Qplus NWV0 (phi_adjust_array E))).
  { unfold sparse_radd. rewrite decide_True; [done | congruence]. }
  destruct (Hsolve (zip_with Qplus NWV0 (phi_adjust_array E)) false)
    as (x & Hx & Hxl).
  { rewrite length_zip_with_same; congruence. }
  destruct (index_map_elem _ _ Href) as (k & Hk & Hkidx).
  assert (Hkle : (k <= length (buses_keys_no_ref E))%nat) by (by apply ref_index_le).
  destruct (np_delete_insert x k 0%Q) as (r & Hins & _ & Hrk & Hrl); [by rewrite Hxl|].
  exists (zip_with Qplus (map (fun row => vdot row x) (rows (B_dA E)))
                   (phase_shift_flow_adjuster_array E)),
    (zip_with Qplus (map (fun row => vdot row x) (rows (B_dA_I E)))
              (phase_shift_flow_adjuster_array_interface E)),
    (vneg r), k.
  split.
  { unfold calculate_PFV, _calculate_PFV.
    cbv [bind ret lift gets modify call_solve]. rewrite HN, Hadd. simpl.
    rewrite Hx.
    unfold sp_matvec. rewrite !decide_True by congruence. simpl.
    rewrite np_iadd_same by (by rewrite length_map). simpl.
    rewrite np_iadd_same by (by rewrite length_map). simpl.
    unfold _insert_reference_bus, _busname_to_index_map, dict_get.
    rewrite Hk. simpl. rewrite Hins. done. }
  split. { rewrite length_zip_with_same; rewrite length_map; done. }
  split. { rewrite length_zip_with_same; rewrite length_map; done. }
  split. { rewrite length_vneg, Hrl, Hxl. by apply buses_keys_no_ref_length. }
  split; [done|].
  unfold vneg. change (map Qopp r) with (Qopp <$> r).
  by rewrite list_lookup_fmap, Hrk.
Qed.

Lemma calculate_PFV_shapes_witness :
  exists PFV PFV_I VA,
    calculate_PFV E3 F3 model_example (init_caches E3)
    = (Ok (PFV, PFV_I, VA), count_solve (init_caches E3))
    /\ length PFV = 2%nat /\ length VA = 3%nat /\ VA !! 0%nat = Some 0%Q.
Proof.
  assert (Hok : flow_ok E3 model_example).
  { split; [by_compute|]. split; [by_compute|].
    do 5 (split; [reflexivity|]). split.
    - intros b Hb. apply elem_of_cons in Hb as [-> | Hb]; [by_compute|].
      apply list_elem_of_singleton in Hb as ->. by_compute.
    - intros b trans Hb. simpl. rewrite decide_True by exact Hb.
      eexists. split; [reflexivity|]. by destruct trans. }
  destruct (calculate_PFV_shapes E3 F3 model_example (init_caches E3) Hok)
    as (PFV & PFV_I & VA & k & Hrun & H1 & _ & H3 & Hk & Hz).
  exists PFV, PFV_I, VA. split; [exact Hrun|]. split; [exact H1|].
  split; [exact H3|]. vm_compute in Hk. injection Hk as <-. exact Hz.
Defined.

End FlowEvaluator.

Section FlowPipelines.

Lemma filtered_alignment (E : engine) (o : ptdf_options) (F : filtered)
    (w : list string) :
  _get_filtered_lines E o = Ok (F, w) ->
  length (phase_shift_flow_adjuster_array E) = length (rows (B_dA E)) ->
  length (phase_shift_flow_adjuster_array_masked F) = length (rows (B_dA_masked F))
  /\ ncols (B_dA_masked F) = ncols (B_dA E)
  /\ forall j i, branch_mask F !! j = Some i ->
       rows (B_dA_masked F) !! j = rows (B_dA E) !! i
       /\ phase_shift_flow_adjuster_array_masked F !! j
          = phase_shift_flow_adjuster_array E !! i.
Proof.
  intros Hrun Hlen. destruct (branch_kv_threshold o) as [kv_limit|] eqn:Hkv.
  - destruct (get_filtered_lines_mask E o kv_limit F w Hkv Hrun)
      as (_ & _ & _ & _ & Hr & Hp & _ & Hn & _).
    destruct (take_idx_lookup _ _ _ Hr) as [Hrl Hr'].
    destruct (take_idx_lookup _ _ _ Hp) as [Hpl Hp'].
    split; [congruence|]. split; [done|].
    intros j i Hj. split; [by apply Hr' | by apply Hp'].
  - unfold _get_filtered_lines in Hrun. rewrite Hkv in Hrun.
    injection Hrun as <- <-. simpl. split; [done|]. split; [done|].
    intros j i Hj. apply lookup_seq in Hj as [-> _]. done.
Qed.

Lemma calculate_PFV_inv (E : engine) (F : filtered) (m : model) (masked : bool)
    (st st' : caches) (P I V : vec) :
  _calculate_PFV E F m masked st = (Ok (P, I, V), st') ->
  exists NWV0 x,
    mapR (dict_get (p_nw m)) (buses_keys_no_ref E) = Ok NWV0
    /\ (exists NWV, sparse_radd NWV0 (phi_adjust_array E) = Ok NWV
                    /\ solve (MLU E) NWV false = Ok x)
    /\ np_iadd (map (fun row => vdot row x)
                    (rows (if masked then B_dA_masked F else B_dA E)))
               (if masked then phase_shift_flow_adjuster_array_masked F
                else phase_shift_flow_adjuster_array E) = Ok P
    /\ ncols (if masked then B_dA_masked F else B_dA E) = length x
    /\ np_iadd (map (fun row => vdot row x) (rows (B_dA_I E)))
               (phase_shift_flow_adjuster_array_interface E) = Ok I
    /\ (if masked then V = x
        else exists r, _insert_reference_bus E x 0%Q = Ok r /\ V = vneg r)
    /\ st' = count_solve st.
Proof.
  unfold _calculate_PFV.
  intros (NWV0 & s1 & [H1 ->]%lift_ok_inv & H)%bind_ok_inv.
  apply bind_ok_inv in H as (NWV & s2 & [H2 ->]%lift_ok_inv & H).
  apply bind_ok_inv in H as (x & s3 & Hs & H).
  unfold call_solve in Hs.
  apply bind_ok_inv in Hs as ([] & s3' & Hm & [Hx ->]%lift_ok_inv).
  injection Hm as <-.
  apply bind_ok_inv in H as (P0 & s4 & [H4 ->]%lift_ok_inv & H).
  apply bind_ok_inv in H as (P1 & s5 & [H5 ->]%lift_ok_inv & H).
  apply bind_ok_inv in H as (I0 & s6 & [H6 ->]%lift_ok_inv & H).
  apply bind_ok_inv in H as (I1 & s7 & [H7 ->]%lift_ok_inv & H).
  apply bind_ok_inv in H as (Vo & s8 & H8 & H).
  injection H as <- <- <- <-.
  unfold sp_matvec in H4, H6.
  destruct (decide (ncols (if masked then B_dA_masked F else B_dA E) = length x))
    as [Hc|]; [|done].
  destruct (decide (ncols (B_dA_I E) = length x)); [|done].
  injection H4 as <-. injection H6 as <-.
  exists NWV0, x. split; [done|]. split; [by exists NWV|].
  split; [done|]. split; [done|]. split; [done|].
  destruct masked.
  - injection H8 as <- <-. done.
  - apply bind_ok_inv in H8 as (r & s9 & [H9 ->]%lift_ok_inv & H8).
    injection H8 as <- <-. split; [by exists r | done].
Qed.

(** X15: the flows of [calculate_masked_PFV] are those of [calculate_PFV]
    restricted to the mask: entry [j] of the masked flows is entry [mask[j]]
    of the full flows; the interface flows agree, and the full angle vector is
    the negated masked one with a zero inserted at the reference bus. *)
Theorem masked_PFV_is_restriction (E : engine) (o : ptdf_options) (F : filtered)
    (w : list string) (m : model) (st st1 st2 : caches) (P I V P' I' V' : vec) :
  _get_filtered_lines E o = Ok (F, w) ->
  length (phase_shift_flow_adjuster_array E) = length (rows (B_dA E)) ->
  calculate_PFV E F m st = (Ok (P, I, V), st1) ->
  calculate_masked_PFV E F m st = (Ok (P', I', V'), st2) ->
  st2 = st1
  /\ I' = I
  /\ (exists r, _insert_reference_bus E V' 0%Q = Ok r /\ V = vneg r)
  /\ forall j i, branch_mask F !! j = Some i -> P' !! j = P !! i.
Proof.
  intros HF Hps Hfull Hmask.
  destruct (filtered_alignment E o F w HF Hps) as (Hlm & _ & Hal).
  apply calculate_PFV_inv in Hfull
    as (N1 & x1 & HN1 & (NW1 & Ha1 & Hx1) & HP1 & _ & HI1 & (r & Hr & ->) & ->).
  apply calculate_PFV_inv in Hmask
    as (N2 & x2 & HN2 & (NW2 & Ha2 & Hx2) & HP2 & _ & HI2 & -> & ->).
  rewrite HN1 in HN2. injection HN2 as <-.
  rewrite Ha1 in Ha2. injection Ha2 as <-.
  rewrite Hx1 in Hx2. injection Hx2 as <-.
  rewrite HI1 in HI2. injection HI2 as <-.
  split; [done|]. split; [done|]. split; [by exists r|].
  rewrite np_iadd_same in HP1 by (by rewrite length_map).
  rewrite np_iadd_same in HP2 by (by rewrite length_map).
  injection HP1 as <-. injection HP2 as <-.
  intros j i Hj. destruct (Hal j i Hj) as [Hrow Hpsl].
  change (map ?f ?l) with (f <$> l).
  by rewrite !lookup_zip_with, !list_lookup_fmap, Hrow, Hpsl.
Qed.

Lemma masked_PFV_is_restriction_witness :
  exists F w P I V P' I' V' st1 f,
    _get_filtered_lines E3 (opts_kv 200 "one") = Ok (F, w)
    /\ branch_mask F = [1%nat]
    /\ calculate_PFV E3 F model_example (init_caches E3) = (Ok (P, I, V), st1)
    /\ calculate_masked_PFV E3 F model_example (init_caches E3) = (Ok (P', I', V'), st1)
    /\ (forall j i, branch_mask F !! j = Some i -> P' !! j = P !! i)
    /\ P' !! 0%nat = Some f /\ P !! 1%nat = Some f.
Proof.
  destruct (_get_filtered_lines E3 (opts_kv 200 "one")) as [[F w]|err] eqn:HF;
    [| vm_compute in HF; discriminate ].
  assert (Hm : branch_mask F = [1%nat]).
  { vm_compute in HF. injection HF as <- _. reflexivity. }
  destruct (calculate_PFV E3 F model_example (init_caches E3))
    as [[[[P I] V]|err] st1] eqn:H1; [| vm_compute in H1; discriminate ].
  destruct (calculate_masked_PFV E3 F model_example (init_caches E3))
    as [[[[P' I'] V']|err] st2] eqn:H2.
  - destruct (masked_PFV_is_restriction E3 _ F w model_example _ st1 st2
                P I V P' I' V' HF eq_refl H1 H2) as (-> & _ & _ & Hal).
    assert (H01 : P' !! 0%nat = P !! 1%nat) by (apply Hal; by rewrite Hm).
    destruct (P !! 1%nat) as [f|] eqn:HP.
    + exists F, w, P, I, V, P', I', V', st1, f. by repeat split.
    + vm_compute in H1. injection H1 as <- _ _ _. discriminate HP.
  - vm_compute in HF. injection HF as <- <-. vm_compute in H2. discriminate.
Defined.

End FlowPipelines.

Section AngleRoundTrip.

Lemma vneg_involutive (v : vec) : vneg (vneg v) = v.
Proof.
  unfold vneg. induction v as [|[a b] v IH]; [done|].
  simpl. rewrite IH. unfold Qopp. simpl. by rewrite Z.opp_involutive.
Qed.

Lemma mask_filter_app {A : Type} (m1 m2 : list bool) (a1 a2 : list A) :
  length m1 = length a1 ->
  mask_filter (m1 ++ m2) (a1 ++ a2) = mask_filter m1 a1 ++ mask_filter m2 a2.
Proof.
  revert a1. induction m1 as [|b m1 IH]; intros [|x a1] Hlen; simpl in *; try done.
  injection Hlen as Hlen. destruct b; simpl; by rewrite IH.
Qed.

Lemma mask_filter_all_true {A : Type} (m : list bool) (a : list A) :
  Forall (fun b => b = true) m -> length m = length a -> mask_filter m a = a.
Proof.
  intros H. revert a. induction H as [|b m -> _ IH]; intros [|x a] Hlen;
    simpl in *; try done.
  injection Hlen as Hlen. by rewrite IH.
Qed.

Lemma mask_filter_insert (keys : list string) (ref : string) (k : nat) (x : vec) (v : Q) :
  NoDup keys -> keys !! k = Some ref -> S (length x) = length keys ->
  mask_filter (map (fun b => bool_decide (b <> ref)) keys)
              (take k x ++ v :: drop k x) = x.
Proof.
  intros Hnd Hk Hlen.
  pose proof (lookup_lt_Some _ _ _ Hk) as Hlt.
  rewrite <- (take_drop_middle keys k ref Hk).
  rewrite <- (take_drop_middle keys k ref Hk) in Hnd.
  apply NoDup_app in Hnd as (_ & Hl & Hr). apply NoDup_cons in Hr as [Hr _].
  rewrite map_app. simpl.
  rewrite mask_filter_app by (rewrite length_map, !length_take; lia).
  simpl. rewrite bool_decide_eq_false_2 by (by intros Hc; apply Hc).
  rewrite !mask_filter_all_true.
  - apply take_drop.
  - apply Forall_forall. intros b Hb.
    change (map ?f ?l) with (f <$> l) in Hb.
    apply list_elem_of_fmap in Hb as (y & -> & Hy).
    apply bool_decide_eq_true. intros ->. done.
  - rewrite length_map, !length_drop. lia.
  - apply Forall_forall. intros b Hb.
    change (map ?f ?l) with (f <$> l) in Hb.
    apply list_elem_of_fmap in Hb as (y & -> & Hy).
    apply bool_decide_eq_true. intros ->. apply (Hl ref Hy). by left.
  - rewrite length_map, !length_take. lia.
Qed.

(** X16: without a voltage threshold the two pipelines agree: the masked
    and the full evaluator return the same flows, and for a contingency whose
    outaged branch is a branch key [calculate_PFV_delta] on the full outputs
    and [calculate_masked_PFV_delta] on the masked outputs give the same
    outcome, the negated and reference-extended angles of the full evaluator
    being converted back by the reference-bus mask. *)
Theorem unfiltered_pipelines_agree (E : engine) (o : ptdf_options) (F : filtered)
    (w : list string) (m : model) (st st1 st2 : caches) (P I V P' I' V' : vec) :
  branch_kv_threshold o = None ->
  _get_filtered_lines E o = Ok (F, w) ->
  NoDup (buses_keys E) ->
  ref_mask_ok E ->
  calculate_PFV E F m st = (Ok (P, I, V), st1) ->
  calculate_masked_PFV E F m st = (Ok (P', I', V'), st2) ->
  length V' = length (buses_keys_no_ref E) ->
  P' = P
  /\ forall cn comp st0,
       contingency_compensators E !! cn = Some comp ->
       branch_out comp ∈ branches_keys E ->
       calculate_PFV_delta E F cn P V st0
       = calculate_masked_PFV_delta E F cn P' V' st0.
Proof.
  intros Hkv HF Hnd Hmask Hfull Hmasked HV'.
  unfold _get_filtered_lines in HF. rewrite Hkv in HF. injection HF as <- <-.
  apply calculate_PFV_inv in Hfull
    as (N1 & x1 & HN1 & (NW1 & Ha1 & Hx1) & HP1 & _ & HI1 & (r & Hr & ->) & ->).
  apply calculate_PFV_inv in Hmasked
    as (N2 & x2 & HN2 & (NW2 & Ha2 & Hx2) & HP2 & _ & HI2 & -> & ->).
  simpl in HP2.
  rewrite HN1 in HN2. injection HN2 as <-.
  rewrite Ha1 in Ha2. injection Ha2 as <-.
  rewrite Hx1 in Hx2. injection Hx2 as <-.
  rewrite HP1 in HP2. injection HP2 as <-.
  split; [done|]. intros cn comp st0 Hcomp Hout.
  unfold _insert_reference_bus, dict_get, rbind in Hr.
  destruct (_busname_to_index_map E !! _reference_bus E) as [k|] eqn:Hk; [|done].
  unfold np_insert in Hr. destruct (decide (k <= length x1)%nat); [|done].
  injection Hr as <-.
  pose proof (index_map_sound _ _ _ Hk) as Hkey.
  assert (Href : _reference_bus E ∈ buses_keys E)
    by (apply list_elem_of_lookup; eauto).
  pose proof (buses_keys_no_ref_length E Hnd Href) as Hn.
  assert (Hback : np_mask (vneg (take k x1 ++ 0%Q :: drop k x1)) (ref_bus_mask E)
                  = Ok (vneg x1)).
  { unfold np_mask. rewrite decide_True.
    - f_equal. rewrite Hmask. unfold vneg at 1. rewrite map_app. simpl.
      change (map Qopp (take k x1)) with (Qopp <$> take k x1).
      change (map Qopp (drop k x1)) with (Qopp <$> drop k x1).
      rewrite fmap_take, fmap_drop.
      apply mask_filter_insert; [done | done |].
      rewrite length_vneg. lia.
    - rewrite Hmask, length_map, length_vneg, length_app. simpl.
      rewrite length_take, length_drop. lia. }
  destruct (index_map_elem _ _ Hout) as (idx & Hidx & _).
  unfold calculate_PFV_delta, calculate_masked_PFV_delta, _calculate_PFV_delta.
  cbv [bind ret lift gets modify call_solve dict_get rbind]. simpl.
  rewrite Hcomp, Hback, vneg_involutive.
  unfold _branchname_to_index_map. rewrite Hidx. done.
Qed.

Lemma unfiltered_pipelines_agree_witness :
  exists F w P I V P' I' V' st1 st2,
    _get_filtered_lines E3 opts_example = Ok (F, w)
    /\ calculate_PFV E3 F model_example (init_caches E3) = (Ok (P, I, V), st1)
    /\ calculate_masked_PFV E3 F model_example (init_caches E3)
       = (Ok (P', I', V'), st2)
    /\ calculate_PFV_delta E3 F "c1" P V (init_caches E3)
       = calculate_masked_PFV_delta E3 F "c1" P' V' (init_caches E3).
Proof.
  destruct (_get_filtered_lines E3 opts_example) as [[F w]|err] eqn:HF;
    [| vm_compute in HF; discriminate ].
  destruct (calculate_PFV E3 F model_example (init_caches E3))
    as [[[[P I] V]|err] st1] eqn:H1; [| vm_compute in H1; discriminate ].
  destruct (calculate_masked_PFV E3 F model_example (init_caches E3))
    as [[[[P' I'] V']|err] st2] eqn:H2;
    [| vm_compute in HF; injection HF as <- <-; vm_compute in H2; discriminate ].
  assert (HV : length V' = length (buses_keys_no_ref E3)).
  { vm_compute in HF. injection HF as <- <-.
    vm_compute in H2. injection H2 as _ _ <- _. reflexivity. }
  assert (Hnd : NoDup (buses_keys E3)) by by_compute.
  destruct (unfiltered_pipelines_agree E3 opts_example F w model_example _ st1 st2
              P I V P' I' V' eq_refl HF Hnd eq_refl H1 H2 HV) as [_ Hd].
  exists F, w, P, I, V, P', I', V', st1, st2.
  split; [done|]. split; [done|]. split; [done|].
  apply (Hd "c1" cc_example); [vm_compute; reflexivity | by_compute].
Defined.

End AngleRoundTrip.

(** ** Voltage limits and loss factors *)

Section LossFactors.

Local Open Scope Q_scope.

Lemma vm_limit_ordering_witness :
  exists lim eu zu el zl,
    _set_lazy_vm_limits opts_example [11 # 10] [9 # 10] = Some lim
    /\ enforced_vm_limits_ub lim !! 0%nat = Some eu
    /\ lazy_vm_limits_ub lim !! 0%nat = Some zu
    /\ enforced_vm_limits_lb lim !! 0%nat = Some el
    /\ lazy_vm_limits_lb lim !! 0%nat = Some zl
    /\ el <= zl /\ zl <= 9 # 10 /\ 11 # 10 <= zu /\ zu <= eu.
Proof.
  destruct (_set_lazy_vm_limits opts_example [11 # 10] [9 # 10]) as [lim|] eqn:Hset;
    [| vm_compute in Hset; discriminate ].
  destruct (vm_limit_ordering opts_example [11 # 10] [9 # 10] lim 0 (11 # 10) (9 # 10))
    as (eu & zu & el & zl & H1 & H2 & H3 & H4 & _ & _ & Hu & Hl & Hub & Hlb);
    [ vm_compute; discriminate | vm_compute; discriminate | vm_compute; discriminate
    | exact Hset | reflexivity | reflexivity | ].
  exists lim, eu, zu, el, zl. repeat split; try assumption.
  - apply Hlb. vm_compute. discriminate.
  - apply Hub. vm_compute. discriminate.
Defined.

Lemma od_set_fresh {V : Type} (d : list (string * V)) (k : string) (v : V) :
  k ∉ map fst d -> od_set d k v = d ++ [(k, v)].
Proof.
  induction d as [|[k' v'] d IH]; intros Hk; simpl; [done|].
  simpl in Hk. apply not_elem_of_cons in Hk as [Hne Hk].
  rewrite decide_False by done. by rewrite IH.
Qed.

Lemma index_items_from_nodup (keys : list string) :
  forall (i : nat) (d : list (string * nat)),
    NoDup keys -> (forall k, k ∈ keys -> k ∉ map fst d) ->
    index_items_from i keys d = d ++ zip keys (seq i (length keys)).
Proof.
  induction keys as [|k keys IH]; intros i d Hnd Hdis; simpl.
  - by rewrite app_nil_r.
  - apply NoDup_cons in Hnd as [Hk Hnd].
    rewrite od_set_fresh by (apply Hdis; by left).
    rewrite IH; [by rewrite <- app_assoc | done |].
    intros k' Hk'. rewrite map_app. simpl. intros Hin.
    apply elem_of_app in Hin as [Hin | Hin].
    + apply (Hdis k'); [by right | done].
    + apply list_elem_of_singleton in Hin as ->. done.
Qed.

Lemma index_items_nodup (keys : list string) :
  NoDup keys -> index_items keys = zip keys (seq 0 (length keys)).
Proof.
  intros Hnd. unfold index_items. rewrite index_items_from_nodup; [done | done |].
  intros k _ H. by apply elem_of_nil in H.
Qed.

Lemma lookup_items_zip (LF : vec) (keys : list string) :
  forall (a : nat) (d : list (string * Q)),
    mapR (fun bi => x <~ seq_get LF (snd bi) ;; Ok (fst bi, x))
         (zip keys (seq a (length keys))) = Ok d ->
    d = zip keys (drop a LF) /\ (length keys <= length (drop a LF))%nat.
Proof.
  induction keys as [|k keys IH]; intros a d H; simpl in H.
  - injection H as <-. split; [done | simpl; lia].
  - unfold seq_get in H at 1. simpl in H.
    destruct (LF !! a) as [x|] eqn:Hx; simpl in H; [|done].
    destruct (mapR _ (zip keys (seq (S a) (length keys)))) as [d'|] eqn:Hd;
      simpl in H; [|done].
    injection H as <-. apply IH in Hd as [-> Hlen].
    rewrite (drop_S LF x a Hx). simpl. split; [done | lia].
Qed.

(** X17: with distinct bus keys, the loss factors set by
    [_calculate_lossfactors] pair every bus key, in order, with the entry of
    the vector obtained from the negated transpose solve of the column sums
    of [G_dA] by inserting 0 at the reference bus; the reference bus has loss
    factor 0, and the residual factors and offset start out equal to the
    factors and the offset. *)
Theorem lossfactors_structure (E : engine) (LS : loss_factors) :
  NoDup (buses_keys E) ->
  _calculate_lossfactors E = Ok LS ->
  exists x k LF,
    solve (MLU E) (sp_colsum (G_dA E)) true = Ok x
    /\ _busname_to_index_map E !! _reference_bus E = Some k
    /\ _insert_reference_bus E (vneg x) 0 = Ok LF
    /\ _remove_reference_bus E LF = Ok (vneg x)
    /\ _lossfactor LS = zip (buses_keys E) LF
    /\ map fst (_lossfactor LS) = buses_keys E
    /\ (_reference_bus E, 0) ∈ _lossfactor LS
    /\ _lossfactor_resid LS = _lossfactor LS
    /\ _lossoffset_resid LS = _lossoffset LS.
Proof.
  intros Hnd Hrun. unfold _calculate_lossfactors, rbind in Hrun.
  destruct (solve (MLU E) (sp_colsum (G_dA E)) true) as [x|] eqn:Hx; [|done].
  unfold dict_get in Hrun.
  destruct (_busname_to_index_map E !! _reference_bus E) as [k|] eqn:Hk; [|done].
  destruct (np_insert (vneg x) k 0) as [LF|] eqn:HLF; [|done].
  rewrite (index_items_nodup _ Hnd) in Hrun.
  destruct (mapR _ (zip (buses_keys E) (seq 0 (length (buses_keys E)))))
    as [d|] eqn:Hd; [|done].
  destruct (np_dot (vneg x) (M0 E)) as [off|]; [|done].
  injection Hrun as <-. simpl.
  apply lookup_items_zip in Hd as [-> Hlen]. rewrite drop_0 in *.
  assert (Hins : _insert_reference_bus E (vneg x) 0 = Ok LF).
  { unfold _insert_reference_bus, dict_get. by rewrite Hk. }
  unfold np_insert in HLF. destruct (decide (k <= length (vneg x))%nat) as [Hle|]; [|done].
  destruct (np_delete_insert (vneg x) k 0 Hle) as (LF' & HLF' & Hdel & Hat & _).
  unfold np_insert in HLF'. rewrite decide_True in HLF' by done.
  rewrite HLF in HLF'. injection HLF' as <-.
  pose proof (index_map_sound _ _ _ Hk) as Hkey.
  exists x, k, LF. split; [done|]. split; [done|]. split; [done|]. split.
  { unfold _remove_reference_bus, dict_get. by rewrite Hk. }
  split; [done|]. split.
  { change (map fst ?l) with (fst <$> l). apply fst_zip. lia. }
  split; [|done].
  apply list_elem_of_lookup. exists k. rewrite lookup_zip_with, Hkey, Hat. done.
Qed.

Lemma lossfactors_structure_witness :
  exists LS,
    _calculate_lossfactors E3 = Ok LS
    /\ map fst (_lossfactor LS) = ["A"; "B"; "C"]%string
    /\ ("A"%string, 0) ∈ _lossfactor LS.
Proof.
  destruct (_calculate_lossfactors E3) as [LS|err] eqn:Hrun;
    [| vm_compute in Hrun; discriminate ].
  assert (Hnd : NoDup (buses_keys E3)) by by_compute.
  destruct (lossfactors_structure E3 LS Hnd Hrun)
    as (x & k & LF & _ & _ & _ & _ & _ & Hkeys & Href & _).
  by exists LS.
Defined.

End LossFactors.

(** ** The loss expression and the dense matrix *)

Section ExpressionsMore.

Local Open Scope Q_scope.

Lemma resid_loop_names (m : model) (F : filtered) (idxs : list nat) :
  forall cl vl cl' vl',
    resid_loop m F idxs cl vl = Ok (cl', vl') ->
    exists names,
      take_idx (branches_keys_masked F) idxs = Ok names
      /\ cl' = cl ++ map (fun _ => 1) names
      /\ vl' = vl ++ map Var_pfl names
      /\ forall bn, bn ∈ names -> is_Some (pfl m !! bn).
Proof.
  induction idxs as [|i idxs IH]; intros cl vl cl' vl' H; simpl in *.
  - injection H as <- <-. exists []. rewrite !app_nil_r.
    repeat split; try done. by intros bn ?%elem_of_nil.
  - unfold take_idx. simpl. unfold seq_get, dict_get in *.
    destruct (branches_keys_masked F !! i) as [bn|]; simpl in *; [|done].
    destruct (pfl m !! bn) as [v|] eqn:Hv; simpl in H; [|done].
    apply IH in H as (names & Hn & -> & -> & Hin).
    unfold take_idx, seq_get in Hn. rewrite Hn. simpl.
    exists (bn :: names). rewrite <- !app_assoc. repeat split; try done.
    intros bn' [->|?]%elem_of_cons; [by rewrite Hv | by apply Hin].
Qed.

Lemma ploss_loop_vars (p : gmap string Q) (tol : Q) (it : list (string * Q)) :
  forall cl vl cl' vl',
    ploss_loop p tol it cl vl = Ok (cl', vl') ->
    forall bc, bc ∈ List.filter (fun bc => Qle_bool tol (Qabs (snd bc))) it ->
               is_Some (p !! fst bc).
Proof.
  induction it as [|[b c] it IH]; intros cl vl cl' vl' H bc Hbc; simpl in *.
  - by apply elem_of_nil in Hbc.
  - unfold dict_get in H. destruct (Qle_bool tol (Qabs c)); simpl in *.
    + destruct (p !! b) as [v|] eqn:Hv; simpl in H; [|done].
      apply elem_of_cons in Hbc as [-> | Hbc]; [simpl; by rewrite Hv|].
      by apply (IH _ _ _ _ H).
    + by apply (IH _ _ _ _ H).
Qed.

(** X18: an expression returned by [get_ploss_expr_ptdf_approx] lists the
    kept bus terms in the order of the loss-factor iterator, followed, with
    residuals, by one term of coefficient 1 on [pfl] of the masked branch
    key at every monitored index; its constant is the loss offset (or its
    residual), and every variable it mentions exists in the model. *)
Theorem ploss_expression_terms (m : model) (LS : loss_factors) (F : filtered)
    (abs_tol rel_tol : Q) (use_residuals : bool) (e : LinearExpression) :
  get_ploss_expr_ptdf_approx m LS F abs_tol rel_tol use_residuals = Ok e ->
  exists included names,
    sublist included (if use_residuals then _lossfactor_resid LS else _lossfactor LS)
    /\ (if use_residuals
        then take_idx (branches_keys_masked F) (_idx_monitored m) = Ok names
        else names = [])
    /\ linear_vars e
       = map (fun bc => Var_p_nw (fst bc)) included ++ map Var_pfl names
    /\ linear_coefs e = map snd included ++ map (fun _ => 1) names
    /\ constant e = (if use_residuals then _lossoffset_resid LS else _lossoffset LS)
    /\ (forall bc, bc ∈ included -> is_Some (p_nw m !! fst bc))
    /\ (forall bn, bn ∈ names -> is_Some (pfl m !! bn)).
Proof.
  intros Hrun. unfold get_ploss_expr_ptdf_approx, rbind in Hrun.
  destruct (get_lossfactor_abs_max LS) as [mx|]; [|done].
  set (row := if use_residuals then _lossfactor_resid LS else _lossfactor LS) in *.
  set (tol := py_max abs_tol (rel_tol * mx)) in *.
  destruct (ploss_loop (p_nw m) tol row [] []) as [[cl vl]|] eqn:Hloop; [|done].
  pose proof (ploss_loop_vars _ _ _ _ _ _ _ Hloop) as Hvars.
  destruct (ploss_loop_spec _ _ _ _ _ _ _ Hloop) as [Hcl Hvl]. simpl in Hcl, Hvl.
  exists (List.filter (fun bc => Qle_bool tol (Qabs (snd bc))) row).
  assert (Hsub : sublist (List.filter (fun bc => Qle_bool tol (Qabs (snd bc))) row) row).
  { clear. induction row as [|bc row IH]; simpl; [constructor|].
    destruct (Qle_bool tol (Qabs (snd bc))); by constructor. }
  destruct use_residuals; simpl in Hrun.
  - destruct (resid_loop m F (_idx_monitored m) cl vl) as [[cl' vl']|] eqn:Hr; [|done].
    destruct (resid_loop_names _ _ _ _ _ _ _ Hr) as (names & Hn & -> & -> & Hin).
    injection Hrun as <-. subst cl vl. exists names. simpl. done.
  - injection Hrun as <-. subst cl vl. exists []. simpl.
    rewrite !app_nil_r. repeat split; try done. by intros bn ?%elem_of_nil.
Qed.

Lemma ploss_expression_terms_witness :
  exists LS e,
    _calculate_lossfactors E3 = Ok LS
    /\ get_ploss_expr_ptdf_approx model_example LS F3 0 (1 # 2) true = Ok e
    /\ exists included : list (string * Q),
         linear_vars e
         = map (fun bc => Var_p_nw (fst bc)) included ++ [Var_pfl "branch1"].
Proof.
  destruct (_calculate_lossfactors E3) as [LS|err] eqn:HLS;
    [| vm_compute in HLS; discriminate ].
  destruct (get_ploss_expr_ptdf_approx model_example LS F3 0 (1 # 2) true)
    as [e|err] eqn:Hrun;
    [| vm_compute in HLS; injection HLS as <-; vm_compute in Hrun; discriminate ].
  destruct (ploss_expression_terms _ _ _ _ _ _ _ Hrun)
    as (included & names & _ & Hn & Hv & _).
  exists LS, e. split; [done|]. split; [done|]. exists included.
  vm_compute in Hn. injection Hn as <-. exact Hv.
Defined.

End ExpressionsMore.

(** ** The dense matrix: flows and constraint expressions *)

Section DenseMatrix.

Local Open Scope Q_scope.

Lemma foldl_dot_shift (l : list (Q * Q)) :
  forall a, foldl (fun acc xy => acc + fst xy * snd xy) a l
            == a + foldl (fun acc xy => acc + fst xy * snd xy) 0 l.
Proof.
  induction l as [|[x y] l IH]; intros a; simpl.
  - lra.
  - rewrite (IH (a + x * y)), (IH (0 + x * y)). lra.
Qed.

Lemma vdot_cons (r x : Q) (a b : vec) : vdot (r :: a) (x :: b) == r * x + vdot a b.
Proof.
  unfold vdot. simpl. pose proof (foldl_dot_shift (zip a b) (0 + r * x)) as H.
  set (u := foldl _ (0 + r * x) _) in *. set (v := foldl _ 0 _) in *. lra.
Qed.

Lemma vdot_add (row : vec) :
  forall a b, length a = length b ->
              vdot row (zip_with Qplus a b) == vdot row a + vdot row b.
Proof.
  induction row as [|r row IH]; intros a b Hlen.
  - unfold vdot. simpl. lra.
  - destruct a as [|x a], b as [|y b]; try done.
    simpl. rewrite !vdot_cons, IH by (simpl in Hlen; lia). lra.
Qed.

Lemma eval_terms_shift (vals : gmap string Q) (it : list (string * Q)) :
  forall a, foldl (fun acc bc => acc + snd bc * default 0 (vals !! fst bc)) a it
            == a + eval_terms vals it.
Proof.
  unfold eval_terms. induction it as [|[b c] it IH]; intros a; simpl.
  - lra.
  - rewrite (IH (a + _)), (IH (0 + _)). lra.
Qed.

Lemma eval_terms_vdot (vals : gmap string Q) (keys : list string) :
  forall (row NWV : vec),
    mapR (dict_get vals) keys = Ok NWV ->
    eval_terms vals (zip keys row) == vdot row NWV.
Proof.
  induction keys as [|k keys IH]; intros row NWV H; simpl in H.
  - injection H as <-. destruct row; reflexivity.
  - unfold dict_get in H at 1. destruct (vals !! k) as [v|] eqn:Hv; simpl in H; [|done].
    destruct (mapR (dict_get vals) keys) as [N|] eqn:HN; simpl in H; [|done].
    injection H as <-. destruct row as [|r row]; [reflexivity|].
    rewrite vdot_cons. unfold eval_terms. simpl. rewrite eval_terms_shift.
    rewrite Hv. simpl. rewrite (IH row N eq_refl). lra.
Qed.

Lemma mapR_length {A B : Type} (f : A -> result B) (l : list A) (ys : list B) :
  mapR f l = Ok ys -> length ys = length l.
Proof.
  revert ys. induction l as [|x l IH]; intros ys H; simpl in H.
  - by injection H as <-.
  - destruct (f x); simpl in H; [|done].
    destruct (mapR f l) as [ys'|]; simpl in H; [|done].
    injection H as <-. simpl. by rewrite (IH ys' eq_refl).
Qed.

(** X19: on a dense [PTDFMatrix] with the shapes its constructor produces and
    the masked attributes its filtering sets, every flow returned by
    [calculate_PFV] is the value of the branch's PTDF expression: the flow at
    masked position j equals the sum, over the pairs of
    [get_branch_ptdf_iterator] for the branch at [branch_mask[j]], of
    coefficient times withdrawal, plus [get_branch_ptdf_const] of that
    branch; both calls succeed whenever [calculate_PFV] does. *)
Theorem dense_flow_matches_expression (D : PTDFMatrix.t) (m : model)
    (PFV PFV_I : vec) (j i : nat) (bn : string) :
  dense_masked_ok D ->
  dense_shapes_ok D ->
  PTDFMatrix.branch_mask D !! j = Some i ->
  PTDFMatrix._branchname_to_index_map D !! bn = Some i ->
  PTDFMatrix.calculate_PFV D m = Ok (PFV, PFV_I) ->
  exists it c f,
    PTDFMatrix.get_branch_ptdf_iterator D bn = Ok it
    /\ PTDFMatrix.get_branch_ptdf_const D bn = Ok c
    /\ PFV !! j = Some f
    /\ f == eval_terms (p_nw m) it + c.
Proof.
  intros (_ & Hrows & Hps) (Hwidth & Hphi) Hj Hi Hrun.
  unfold PTDFMatrix.calculate_PFV, rbind in Hrun.
  destruct (mapR (dict_get (p_nw m)) (PTDFMatrix.buses_keys D)) as [NWV0|] eqn:HN;
    [|done].
  pose proof (mapR_length _ _ _ HN) as HNl.
  rewrite np_iadd_same in Hrun by lia.
  destruct (sp_matvec (PTDFMatrix.PTDFM_masked D)
              (zip_with Qplus NWV0 (PTDFMatrix.phi_adjust_array D)))
    as [PFV0|] eqn:Hmv; [|done].
  pose proof (sp_matvec_length _ _ _ Hmv) as [HPl Hcols].
  rewrite length_zip_with_same in Hcols by lia.
  destruct (take_idx_lookup _ _ _ Hrows) as [Hrl Hrow].
  destruct (take_idx_lookup _ _ _ Hps) as [Hpl Hpsj].
  destruct (Hrow j i Hj) as [Hrj [row Hri]].
  destruct (Hpsj j i Hj) as [Hpj [ps Hpi]].
  rewrite np_iadd_same in Hrun by lia.
  destruct (sp_matvec (PTDFMatrix.PTDFM_I D)
              (zip_with Qplus NWV0 (PTDFMatrix.phi_adjust_array D))); [|done].
  simpl in Hrun. destruct (np_iadd _ _); [|done]. injection Hrun as <- _.
  assert (Hlen : length row = length (PTDFMatrix.phi_adjust_array D)).
  { rewrite Forall_lookup in Hwidth. rewrite (Hwidth i row Hri). lia. }
  exists (zip (PTDFMatrix.buses_keys D) row),
         (vdot row (PTDFMatrix.phi_adjust_array D) + ps),
         (vdot row (zip_with Qplus NWV0 (PTDFMatrix.phi_adjust_array D)) + ps).
  split.
  { unfold PTDFMatrix.get_branch_ptdf_iterator, dict_get, seq_get, rbind.
    by rewrite Hi, Hri. }
  split.
  { unfold PTDFMatrix.get_branch_ptdf_const, dict_get, seq_get, rbind, np_dot.
    rewrite Hi, Hri, decide_True, Hpi by exact Hlen. done. }
  split.
  { unfold sp_matvec in Hmv. destruct (decide _) in Hmv; [|done].
    injection Hmv as <-. rewrite lookup_zip_with.
    change (map ?f ?l) with (f <$> l). rewrite list_lookup_fmap.
    rewrite Hrj, Hri, Hpj, Hpi in *. done. }
  rewrite vdot_add by lia. rewrite (eval_terms_vdot _ _ row NWV0 HN). lra.
Qed.

Lemma dense_flow_matches_expression_witness :
  exists PFV PFV_I it c f,
    PTDFMatrix.calculate_PFV D3 model_example = Ok (PFV, PFV_I)
    /\ PTDFMatrix.get_branch_ptdf_iterator D3 "branch2" = Ok it
    /\ PTDFMatrix.get_branch_ptdf_const D3 "branch2" = Ok c
    /\ PFV !! 0%nat = Some f
    /\ f == eval_terms (p_nw model_example) it + c.
Proof.
  destruct (PTDFMatrix.calculate_PFV D3 model_example) as [[PFV PFV_I]|err] eqn:Hrun;
    [| vm_compute in Hrun; discriminate ].
  exists PFV, PFV_I.
  destruct (dense_flow_matches_expression D3 model_example PFV PFV_I 0 1 "branch2")
    as (it & c & f & H); [ | | reflexivity | by_compute | exact Hrun | ].
  - repeat split; reflexivity.
  - split; [|reflexivity]. repeat constructor.
  - exists it, c, f. by split.
Defined.

End DenseMatrix.

(** ** Flows of the virtual matrix and its constraint expressions *)

Section VirtualFlows.

Local Open Scope Q_scope.

Lemma vdot_vneg (x : vec) : forall v, vdot (vneg x) v == - vdot x v.
Proof.
  induction x as [|a x IH]; intros v.
  - unfold vdot. simpl. lra.
  - destruct v as [|b v]; [unfold vdot; simpl; lra|].
    unfold vneg in *. simpl. rewrite !vdot_cons, IH. lra.
Qed.

Lemma fresh_interface_row (E : engine) (n : nat) (i : string) (v : vec) :
  fresh_answer E n (ReqInterface i) = Ok v ->
  exists idx rb,
    interfacename_to_index_map E !! i = Some idx
    /\ rows (B_dA_I E) !! idx = Some rb
    /\ solve (MLU E) rb true = Ok v.
Proof.
  unfold fresh_answer, serve, _get_interface_row. munfold. rewrite lookup_empty.
  destruct (interfacename_to_index_map E !! i) as [idx|] eqn:Hi; simpl; [|done].
  destruct (rows (B_dA_I E) !! idx) as [rb|] eqn:Hrb; simpl; [|done].
  destruct (decide _); simpl; [|done].
  destruct (solve (MLU E) rb true) as [x|] eqn:Hx; simpl; [|done].
  intros [= <-]. by exists idx, rb.
Qed.

Lemma fresh_branch_row (E : engine) (n : nat) (b : string) (v : vec) :
  fresh_answer E n (ReqBranch b) = Ok v ->
  exists idx rb x,
    _branchname_to_index_map E !! b = Some idx
    /\ rows (B_dA E) !! idx = Some rb
    /\ solve (MLU E) rb true = Ok x
    /\ v = vneg x.
Proof.
  unfold fresh_answer, serve, _get_ptdf_row. munfold. rewrite lookup_empty.
  destruct (_branchname_to_index_map E !! b) as [idx|] eqn:Hi; simpl; [|done].
  destruct (rows (B_dA E) !! idx) as [rb|] eqn:Hrb; simpl; [|done].
  destruct (decide _); simpl; [|done].
  destruct (solve (MLU E) rb true) as [x|] eqn:Hx; simpl; [|done].
  intros [= <-]. by exists idx, rb, x.
Qed.

Lemma served_row_fresh (E : engine) (r : request) (st st' : caches) (v : vec) :
  cache_inv E st -> serve E r st = (Ok v, st') ->
  fresh_answer E (length (_bus_sensi_buffer st)) r = Ok v /\ cache_inv E st'.
Proof.
  intros Hinv Hrun. destruct (serve_spec E r st Hinv) as (s & Hs & Hinv' & _).
  rewrite Hs in Hrun. injection Hrun as -> ->. done.
Qed.

(** X20: on an engine of consistent shapes whose factorization has an
    adjoint transposed solve, the interface flows of [calculate_PFV] agree
    with the interface expressions: the entry of [PFV_I] at an interface's
    index equals the sum, over the pairs of [get_interface_ptdf_iterator], of
    coefficient times withdrawal, plus [get_interface_const], in whatever
    states of valid caches the three calls are made. *)
Theorem interface_flow_matches_expression (E : engine) (F : filtered) (m : model)
    (i_n : string) (s0 s0' s1 s1' s2 s2' : caches)
    (PFV PFV_I VA : vec) (it : list (string * Q)) (c : Q) :
  flow_ok E m ->
  adjoint_solver (MLU E) ->
  cache_inv E s1 ->
  cache_inv E s2 ->
  calculate_PFV E F m s0 = (Ok (PFV, PFV_I, VA), s0') ->
  get_interface_ptdf_iterator E i_n s1 = (Ok it, s1') ->
  get_interface_const E i_n s2 = (Ok c, s2') ->
  exists k f,
    interfacename_to_index_map E !! i_n = Some k
    /\ PFV_I !! k = Some f
    /\ f == eval_terms (p_nw m) it + c.
Proof.
  intros (Hnd & Href & HcB & HcI & Hphi & Hps & HpsI & Hp & Hsolve)
         Hadj Hinv1 Hinv2 Hflow Hit Hc.
  apply calculate_PFV_inv in Hflow
    as (NWV0 & x & HN & (NWV & Hradd & Hx) & _ & _ & HI & _ & _).
  pose proof (mapR_length _ _ _ HN) as HNl.
  unfold sparse_radd in Hradd. rewrite decide_True in Hradd by lia.
  injection Hradd as <-.
  rewrite np_iadd_same in HI by (rewrite length_map; lia). injection HI as <-.
  unfold get_interface_ptdf_iterator in Hit.
  apply bind_ok_inv in Hit as (row & t1 & Hrow & Hit). injection Hit as <- <-.
  destruct (served_row_fresh E (ReqInterface i_n) _ _ _ Hinv1 Hrow) as [Hf1 _].
  destruct (fresh_interface_row _ _ _ _ Hf1) as (k & rb & Hk & Hrb & Hsol).
  unfold get_interface_const in Hc.
  apply bind_ok_inv in Hc as (row' & t2 & Hrow' & Hc).
  destruct (served_row_fresh E (ReqInterface i_n) _ _ _ Hinv2 Hrow') as [Hf2 _].
  destruct (fresh_interface_row _ _ _ _ Hf2) as (k' & rb' & Hk' & Hrb' & Hsol').
  rewrite Hk in Hk'. injection Hk' as <-.
  rewrite Hrb in Hrb'. injection Hrb' as <-.
  rewrite Hsol in Hsol'. injection Hsol' as <-.
  apply bind_ok_inv in Hc as (k2 & t3 & [Hk2 ->]%lift_ok_inv & Hc).
  unfold dict_get in Hk2. rewrite Hk in Hk2. injection Hk2 as <-.
  apply bind_ok_inv in Hc as (pa & t4 & [Hpa ->]%lift_ok_inv & Hc).
  apply bind_ok_inv in Hc as (ps & t5 & [Hpsk ->]%lift_ok_inv & Hc).
  injection Hc as <- <-.
  unfold np_dot in Hpa. destruct (decide _) as [Hlen|] in Hpa; [|done].
  injection Hpa as <-.
  unfold seq_get in Hpsk.
  destruct (phase_shift_flow_adjuster_array_interface E !! k) as [p|] eqn:Hpk; [|done].
  injection Hpsk as <-.
  exists k, (vdot rb x + p). split; [done|]. split.
  { rewrite lookup_zip_with. change (map ?f ?l) with (f <$> l).
    rewrite list_lookup_fmap, Hrb, Hpk. done. }
  rewrite (eval_terms_vdot _ _ row NWV0 HN).
  rewrite <- (Hadj rb _ row x Hsol Hx).
  rewrite vdot_add by lia. lra.
Qed.

(** X21: under the same conditions the unmasked branch flows of
    [calculate_PFV] and the branch expressions carry opposite signs on their
    solved part: the entry of [PFV] at a branch's index, less the branch's
    phase shift, is the negative of the sum over the pairs of
    [get_branch_ptdf_iterator] of coefficient times withdrawal plus
    [get_branch_ptdf_const], less the same phase shift. *)
Theorem branch_flow_mirrors_expression (E : engine) (F : filtered) (m : model)
    (bn : string) (s0 s0' s1 s1' s2 s2' : caches)
    (PFV PFV_I VA : vec) (it : list (string * Q)) (c : Q) :
  flow_ok E m ->
  adjoint_solver (MLU E) ->
  cache_inv E s1 ->
  cache_inv E s2 ->
  calculate_PFV E F m s0 = (Ok (PFV, PFV_I, VA), s0') ->
  get_branch_ptdf_iterator E bn s1 = (Ok it, s1') ->
  get_branch_ptdf_const E bn s2 = (Ok c, s2') ->
  exists k f ps,
    _branchname_to_index_map E !! bn = Some k
    /\ PFV !! k = Some f
    /\ phase_shift_flow_adjuster_array E !! k = Some ps
    /\ f - ps == - (eval_terms (p_nw m) it + c - ps).
Proof.
  intros (Hnd & Href & HcB & HcI & Hphi & Hps & HpsI & Hp & Hsolve)
         Hadj Hinv1 Hinv2 Hflow Hit Hc.
  apply calculate_PFV_inv in Hflow
    as (NWV0 & x & HN & (NWV & Hradd & Hx) & HP & _ & _ & _ & _).
  pose proof (mapR_length _ _ _ HN) as HNl.
  unfold sparse_radd in Hradd. rewrite decide_True in Hradd by lia.
  injection Hradd as <-.
  rewrite np_iadd_same in HP by (rewrite length_map; lia). injection HP as <-.
  unfold get_branch_ptdf_iterator in Hit.
  apply bind_ok_inv in Hit as (row & t1 & Hrow & Hit). injection Hit as <- <-.
  destruct (served_row_fresh E (ReqBranch bn) _ _ _ Hinv1 Hrow) as [Hf1 _].
  destruct (fresh_branch_row _ _ _ _ Hf1) as (k & rb & y & Hk & Hrb & Hsol & ->).
  unfold get_branch_ptdf_const in Hc.
  apply bind_ok_inv in Hc as (row' & t2 & Hrow' & Hc).
  destruct (served_row_fresh E (ReqBranch bn) _ _ _ Hinv2 Hrow') as [Hf2 _].
  destruct (fresh_branch_row _ _ _ _ Hf2) as (k' & rb' & y' & Hk' & Hrb' & Hsol' & ->).
  rewrite Hk in Hk'. injection Hk' as <-.
  rewrite Hrb in Hrb'. injection Hrb' as <-.
  rewrite Hsol in Hsol'. injection Hsol' as <-.
  apply bind_ok_inv in Hc as (k2 & t3 & [Hk2 ->]%lift_ok_inv & Hc).
  unfold dict_get in Hk2. rewrite Hk in Hk2. injection Hk2 as <-.
  apply bind_ok_inv in Hc as (pa & t4 & [Hpa ->]%lift_ok_inv & Hc).
  apply bind_ok_inv in Hc as (ps & t5 & [Hpsk ->]%lift_ok_inv & Hc).
  injection Hc as <- <-.
  unfold np_dot in Hpa. destruct (decide _) as [Hlen|] in Hpa; [|done].
  injection Hpa as <-.
  unfold seq_get in Hpsk.
  destruct (phase_shift_flow_adjuster_array E !! k) as [p|] eqn:Hpk; [|done].
  injection Hpsk as <-.
  exists k, (vdot rb x + p), p. split; [done|]. split.
  { rewrite lookup_zip_with. change (map ?f ?l) with (f <$> l).
    rewrite list_lookup_fmap, Hrb, Hpk. done. }
  split; [done|].
  rewrite (eval_terms_vdot _ _ (vneg y) NWV0 HN).
  rewrite <- (Hadj rb _ y x Hsol Hx).
  rewrite vdot_add by lia. rewrite !vdot_vneg. lra.
Qed.

Lemma E3_flow_ok : flow_ok E3 model_example.
Proof.
  split; [by_compute|]. split; [by_compute|].
  do 5 (split; [reflexivity|]). split.
  - intros b Hb. apply elem_of_cons in Hb as [-> | Hb]; [by_compute|].
    apply list_elem_of_singleton in Hb as ->. by_compute.
  - intros b trans Hb. simpl. rewrite decide_True by exact Hb.
    eexists. split; [reflexivity|]. by destruct trans.
Qed.

Lemma E3_adjoint : adjoint_solver (MLU E3).
Proof.
  intros b x y z Hy Hz. simpl in Hy, Hz.
  destruct (decide (length b = 2%nat)) as [Hb|]; [|done].
  destruct (decide (length x = 2%nat)) as [Hxl|]; [|done].
  injection Hy as <-. injection Hz as <-.
  destruct b as [|b1 [|b2 [|? ?]]]; try done.
  destruct x as [|x1 [|x2 [|? ?]]]; try done.
  unfold vdot. simpl. ring.
Qed.

Lemma interface_flow_matches_expression_witness :
  exists PFV PFV_I VA it c f,
    calculate_PFV E3 F3 model_example (init_caches E3)
    = (Ok (PFV, PFV_I, VA), count_solve (init_caches E3))
    /\ fst (get_interface_ptdf_iterator E3 "iface" (init_caches E3)) = Ok it
    /\ fst (get_interface_const E3 "iface" (init_caches E3)) = Ok c
    /\ PFV_I !! 0%nat = Some f
    /\ f == eval_terms (p_nw model_example) it + c.
Proof.
  destruct (calculate_PFV E3 F3 model_example (init_caches E3))
    as [[[[PFV PFV_I] VA]|err] s0'] eqn:Hflow; [| vm_compute in Hflow; discriminate ].
  destruct (get_interface_ptdf_iterator E3 "iface" (init_caches E3))
    as [[it|err] s1'] eqn:Hit; [| vm_compute in Hit; discriminate ].
  destruct (get_interface_const E3 "iface" (init_caches E3))
    as [[c|err] s2'] eqn:Hc; [| vm_compute in Hc; discriminate ].
  destruct (interface_flow_matches_expression E3 F3 model_example "iface"
              _ _ _ _ _ _ _ _ _ _ _
              E3_flow_ok E3_adjoint (init_caches_inv E3) (init_caches_inv E3)
              Hflow Hit Hc) as (k & f & Hk & Hf & Heq).
  assert (k = 0%nat) as -> by (vm_compute in Hk; congruence).
  exists PFV, PFV_I, VA, it, c, f.
  split; [| by repeat split ].
  f_equal. apply calculate_PFV_inv in Hflow. by destruct Hflow as (? & ? & ? & ? & ? & ? & ? & ? & ->).
Defined.

Lemma branch_flow_mirrors_expression_witness :
  exists PFV PFV_I VA it c f ps,
    calculate_PFV E3 F3 model_example (init_caches E3)
    = (Ok (PFV, PFV_I, VA), count_solve (init_caches E3))
    /\ fst (get_branch_ptdf_iterator E3 "branch2" (init_caches E3)) = Ok it
    /\ fst (get_branch_ptdf_const E3 "branch2" (init_caches E3)) = Ok c
    /\ PFV !! 1%nat = Some f
    /\ phase_shift_flow_adjuster_array E3 !! 1%nat = Some ps
    /\ f - ps == - (eval_terms (p_nw model_example) it + c - ps).
Proof.
  destruct (calculate_PFV E3 F3 model_example (init_caches E3))
    as [[[[PFV PFV_I] VA]|err] s0'] eqn:Hflow; [| vm_compute in Hflow; discriminate ].
  destruct (get_branch_ptdf_iterator E3 "branch2" (init_caches E3))
    as [[it|err] s1'] eqn:Hit; [| vm_compute in Hit; discriminate ].
  destruct (get_branch_ptdf_const E3 "branch2" (init_caches E3))
    as [[c|err] s2'] eqn:Hc; [| vm_compute in Hc; discriminate ].
  destruct (branch_flow_mirrors_expression E3 F3 model_example "branch2"
              _ _ _ _ _ _ _ _ _ _ _
              E3_flow_ok E3_adjoint (init_caches_inv E3) (init_caches_inv E3)
              Hflow Hit Hc) as (k & f & ps & Hk & Hf & Hps & Heq).
  assert (k = 1%nat) as -> by (vm_compute in Hk; congruence).
  exists PFV, PFV_I, VA, it, c, f, ps.
  split; [| by repeat split ].
  f_equal. apply calculate_PFV_inv in Hflow. by destruct Hflow as (? & ? & ? & ? & ? & ? & ? & ? & ->).
Defined.

End VirtualFlows.

(** ** Prices and rows that were never requested *)

Section LMPErrors.

Lemma lmpcc_loop_app (pre suf : list ((string * string) * Q)) :
  forall (acc : vec) (st : caches),
    lmpcc_loop (pre ++ suf) acc st
    = match lmpcc_loop pre acc st with
      | (Ok acc', st') => lmpcc_loop suf acc' st'
      | (Raise e, st') => (Raise e, st')
      end.
Proof.
  induction pre as [|[key dv] pre IH]; intros acc st; simpl; [done|].
  destruct (Qeq_bool dv 0); [by apply IH|].
  munfold. destruct (_contingency_rows st !! key) as [row|]; [|done].
  destruct (np_iadd acc (vscale (- dv) row)) as [acc'|]; simpl; [|done].
  by apply IH.
Qed.

(** X22: [calculate_LMP] reads contingency rows from the cache only.  On an
    engine of consistent shapes with contingencies, when the first
    contingency constraint with a nonzero dual whose row is missing from
    [_contingency_rows] comes after constraints whose rows are cached, the
    call raises [KeyError] on that (contingency, branch) pair, after its two
    solves and without computing or storing any row. *)
Theorem lmp_uncached_contingency_row (E : engine) (F : filtered) (d : lmp_duals)
    (st : caches) (pre suf : list ((string * string) * Q))
    (key : string * string) (dv : Q) :
  lmp_ok E F ->
  contingencies E <> ∅ ->
  contingency_dual_items d = pre ++ (key, dv) :: suf ->
  (forall key' dv', (key', dv') ∈ pre -> Qeq_bool dv' 0 = false ->
     exists row, _contingency_rows st !! key' = Some row
                 /\ length row = length (buses_keys_no_ref E)) ->
  Qeq_bool dv 0 = false ->
  _contingency_rows st !! key = None ->
  calculate_LMP E F d st
  = (Raise (KeyError (KTuple (fst key) (snd key))), count_solve (count_solve st)).
Proof.
  intros (Hnd & Href & HcB & HrB & HwB & HcI & HrI & HwI & Hsolve)
         Hcont Hitems Hpre Hdv Hmiss.
  set (n := length (buses_keys_no_ref E)) in *.
  destruct (spneg_shape _ n HwB) as (HwB' & HrB' & HcB').
  destruct (spneg_shape _ n HwI) as (HwI' & HrI' & HcI').
  destruct (sp_matTvec_length (spneg (B_dA_masked F))
              (map (fun bn => default 0%Q (branch_thermal_dual d !! bn))
                   (branches_keys_masked F)) n)
    as (B_PFD & HB & HBl); [congruence | done | rewrite length_map; congruence |].
  destruct (sp_matTvec_length (spneg (B_dA_I E))
              (map (fun i_n => default 0%Q (interface_dual d !! i_n))
                   (interface_keys E)) n)
    as (I_PFD & HI & HIl); [congruence | done | rewrite length_map; congruence |].
  destruct (Hsolve B_PFD true HBl) as (LMPC & HC & HCl).
  destruct (Hsolve I_PFD true HIl) as (LMPI & HIs & HIsl).
  destruct (lmpcc_loop_ok n pre (zeros (length LMPC)) (count_solve (count_solve st)))
    as (acc & Hloop & Hacc).
  { unfold zeros. by rewrite length_replicate. }
  { intros key' dv' Hin Hne. by apply (Hpre key' dv'). }
  unfold calculate_LMP. munfold. rewrite HB. simpl. rewrite HI. simpl.
  rewrite HC. simpl. rewrite HIs. simpl.
  rewrite bool_decide_eq_true_2 by done. munfold.
  rewrite Hitems, lmpcc_loop_app, Hloop. simpl. rewrite Hdv. munfold.
  by rewrite Hmiss.
Qed.

Lemma lmp_uncached_contingency_row_witness :
  calculate_LMP E3 F3 duals_example (init_caches E3)
  = (Raise (KeyError (KTuple "c1" "branch1")),
     count_solve (count_solve (init_caches E3))).
Proof.
  apply (lmp_uncached_contingency_row E3 F3 duals_example (init_caches E3)
           [] [(("c1", "branch2"), 0%Q)] ("c1", "branch1") 3%Q).
  - split; [by_compute|]. split; [by_compute|].
    split; [reflexivity|]. split; [reflexivity|]. split; [repeat constructor|].
    split; [reflexivity|]. split; [reflexivity|]. split; [repeat constructor|].
    intros b trans Hb. simpl. rewrite decide_True by exact Hb.
    eexists. split; [reflexivity|]. by destruct trans.
  - by_compute.
  - reflexivity.
  - intros key' dv' Hin. by apply elem_of_nil in Hin.
  - reflexivity.
  - reflexivity.
Defined.

End LMPErrors.
